(** * gtarfile: a shallow embedding of the TAR codec and reader

    The development follows the Go sources of the [tarfile] package:
    - [utils.go]    : [nts], [nti], [itn], [stn], [calcChecksum], [divmod];
    - [tarinfo.go]  : the [TarInfo] record, [GetInfo], [ToBuf] and the three
                      header builders, [posixSplitName], [createHeader],
                      [FromBuf], [FromTarFile];
    - the archive engine ([TarFile], [Next], [load], [GetMembers],
                      [GetMember], [GetNames], [AddFile], [Close]);
    - [ExFileObject] and its [Read].

    Conventions.  A Go [string] and a Go [[]byte] are both sequences of bytes
    and are modelled by [bytes] (a list of [ascii]).  The Go types [int] and
    [int64] are 64-bit two's complement integers, modelled by [Z] with the
    wrap-around written out ([wrap64]).  A Go function returning
    [(T, error)] returns a [result T]; a run-time panic (failed type
    assertion, index out of range) is the third outcome [Panic]. *)

From Stdlib Require Import ZArith List Ascii String Lia.
From stdpp Require Import gmap strings list.

Open Scope Z_scope.

(** ** Bytes *)

Abbreviation bytes := (list ascii).

(** The bytes of a string literal. *)
Definition bs (s : string) : bytes := list_ascii_of_string s.

Definition byte_val (c : ascii) : Z := Z.of_N (N_of_ascii c).

(** Go's conversion [byte(n)]: the low eight bits. *)
Definition byte_of (n : Z) : ascii := ascii_of_N (Z.to_N (n mod 256)).

Definition byte_eqb (a b : ascii) : bool := Ascii.eqb a b.

(** [b[lo:hi]] on a slice that is long enough. *)
Definition slice (b : bytes) (lo hi : nat) : bytes := take (hi - lo) (drop lo b).

(** [make([]byte, n)]. *)
Definition zeros (n : nat) : bytes := replicate n zero.

(** ** Machine integers *)

Definition two63 : Z := 2 ^ 63.
Definition two64 : Z := 2 ^ 64.

(** Reduction of a mathematical integer to the int64 it is stored as. *)
Definition wrap64 (z : Z) : Z := (z + two63) mod two64 - two63.

(** ** Errors and results *)

(** The error values of [errors.go], the plain errors made by [fmt.Errorf],
    [io.EOF], and any other error reported by the underlying stream. *)
Inductive error : Type :=
| EmptyHeaderError (msg : string)
| TruncatedHeaderError (msg : string)
| EOFHeaderError (msg : string)
| InvalidHeaderError (msg : string)
| SubsequentHeaderError (msg : string)
| ReadError (msg : string)
| ErrorString (msg : string)
| io_EOF
| StreamFault (msg : string).

(** [err.Error()]. *)
Definition Error (e : error) : string :=
  match e with
  | EmptyHeaderError m | TruncatedHeaderError m | EOFHeaderError m
  | InvalidHeaderError m | SubsequentHeaderError m | ReadError m
  | ErrorString m | StreamFault m => m
  | io_EOF => "EOF"
  end.

Inductive result (A : Type) : Type :=
| Ok (a : A)
| Err (e : error)
| Panic (msg : string).
Arguments Ok {A} a.
Arguments Err {A} e.
Arguments Panic {A} msg.

#[global] Instance result_ret : MRet result := fun A a => Ok a.
#[global] Instance result_bind : MBind result := fun A B f r =>
  match r with
  | Ok a => f a
  | Err e => Err e
  | Panic m => Panic m
  end.

#[global] Instance result_fmap : FMap result := fun A B f r =>
  match r with
  | Ok a => Ok (f a)
  | Err e => Err e
  | Panic m => Panic m
  end.

(** [err == io.EOF]. *)
Definition is_EOF (e : error) : bool :=
  match e with io_EOF => true | _ => false end.

(** [x, err := e; if err != nil { return nil, fmt.Errorf(prefix + "%v", err) }] *)
Definition wrap_err {A} (prefix : string) (r : result A) : result A :=
  match r with
  | Err e => Err (ErrorString (prefix +:+ Error e))
  | _ => r
  end.

(** ** The pieces of the Go library the codec calls *)

Module GoLib.

(** [bytes.IndexByte(s, c)], [None] for -1. *)
Fixpoint IndexByte (s : bytes) (c : ascii) : option nat :=
  match s with
  | [] => None
  | x :: t => if byte_eqb x c then Some 0%nat else S <$> IndexByte t c
  end.

(** [bytes.Count(s, []byte{c})]. *)
Definition Count (s : bytes) (c : ascii) : nat :=
  length (filter (fun x => byte_eqb x c = true) s).

Definition HasSuffix (s suffix : bytes) : bool :=
  bool_decide (drop (length s - length suffix) s = suffix).

Definition TrimSuffix (s suffix : bytes) : bytes :=
  if HasSuffix s suffix then take (length s - length suffix) s else s.

(** [strings.Split(s, "/")]: always at least one component. *)
Fixpoint Split (s : bytes) : list bytes :=
  match s with
  | [] => [[]]
  | c :: t =>
      if byte_eqb c "/" then [] :: Split t
      else match Split t with
           | h :: r => (c :: h) :: r
           | [] => [[c]]
           end
  end.

(** [strings.Join(parts, "/")]. *)
Fixpoint Join (parts : list bytes) : bytes :=
  match parts with
  | [] => []
  | [p] => p
  | p :: r => p ++ "/"%char :: Join r
  end.

(** *** Unicode white space, for [strings.TrimSpace] *)

Definition RuneError : Z := 65533.
Definition RuneSelf : Z := 128.

Definition between (lo x hi : Z) : bool := (lo <=? x) && (x <=? hi).

(** [utf8.DecodeRune]: the first rune and its width; an invalid or
    incomplete encoding is [(RuneError, 1)], the empty input
    [(RuneError, 0)]. *)
Definition DecodeRune (s : bytes) : Z * nat :=
  match map byte_val s with
  | [] => (RuneError, 0%nat)
  | b0 :: t =>
      if b0 <? RuneSelf then (b0, 1%nat)
      else if between 194 b0 223 then
        match t with
        | b1 :: _ =>
            if between 128 b1 191
            then ((b0 mod 32) * 64 + b1 mod 64, 2%nat)
            else (RuneError, 1%nat)
        | _ => (RuneError, 1%nat)
        end
      else if between 224 b0 239 then
        match t with
        | b1 :: b2 :: _ =>
            let lo := if b0 =? 224 then 160 else 128 in
            let hi := if b0 =? 237 then 159 else 191 in
            if between lo b1 hi && between 128 b2 191
            then ((b0 mod 16) * 4096 + (b1 mod 64) * 64 + b2 mod 64, 3%nat)
            else (RuneError, 1%nat)
        | _ => (RuneError, 1%nat)
        end
      else if between 240 b0 244 then
        match t with
        | b1 :: b2 :: b3 :: _ =>
            let lo := if b0 =? 240 then 144 else 128 in
            let hi := if b0 =? 244 then 143 else 191 in
            if between lo b1 hi && between 128 b2 191 && between 128 b3 191
            then ((b0 mod 8) * 262144 + (b1 mod 64) * 4096
                  + (b2 mod 64) * 64 + b3 mod 64, 4%nat)
            else (RuneError, 1%nat)
        | _ => (RuneError, 1%nat)
        end
      else (RuneError, 1%nat)
  end.

(** [utf8.RuneStart]. *)
Definition RuneStart (c : ascii) : bool := negb (between 128 (byte_val c) 191).

(** The backward scan of [utf8.DecodeLastRune]: from [start], at most
    [k] steps down to [lim], stopping at a byte that can start a rune.
    The position is an integer because the scan may leave it at [lim - 1]. *)
Fixpoint scan_back (k : nat) (s : bytes) (start lim : Z) : Z :=
  match k with
  | O => start
  | S k' =>
      if start <? lim then start
      else match s !! Z.to_nat start with
           | Some c => if RuneStart c then start else scan_back k' s (start - 1) lim
           | None => start
           end
  end.

(** [utf8.DecodeLastRune]. *)
Definition DecodeLastRune (s : bytes) : Z * nat :=
  let e := Z.of_nat (length s) in
  if e =? 0 then (RuneError, 0%nat)
  else
    match s !! Z.to_nat (e - 1) with
    | None => (RuneError, 0%nat)
    | Some c =>
        if byte_val c <? RuneSelf then (byte_val c, 1%nat)
        else
          let lim := Z.max 0 (e - 4) in
          let start := scan_back 4 s (e - 2) lim in
          let start := if start <? 0 then 0 else start in
          let '(r, size) := DecodeRune (drop (Z.to_nat start) s) in
          if start + Z.of_nat size =? e then (r, size) else (RuneError, 1%nat)
    end.

(** [unicode.IsSpace]. *)
Definition IsSpace (r : Z) : bool :=
  if r <=? 255
  then between 9 r 13 || (r =? 32) || (r =? 133) || (r =? 160)
  else (r =? 5760) || between 8192 r 8202 || (r =? 8232) || (r =? 8233)
       || (r =? 8239) || (r =? 8287) || (r =? 12288).

(** The table [asciiSpace] of package strings. *)
Definition asciiSpace (c : ascii) : bool :=
  let v := byte_val c in between 9 v 13 || (v =? 32).

(** [strings.TrimLeftFunc(s, unicode.IsSpace)]; the fuel is the length. *)
Fixpoint TrimLeftSpace (fuel : nat) (s : bytes) : bytes :=
  match fuel, s with
  | S k, _ :: _ =>
      let '(r, w) := DecodeRune s in
      if IsSpace r then TrimLeftSpace k (drop w s) else s
  | _, _ => s
  end.

(** [lastIndexFunc(s, unicode.IsSpace, false)]: the index at which the
    last rune that is not white space starts, scanning [s[0:i]] backwards;
    [None] for -1. *)
Fixpoint lastIndexNotSpace (fuel : nat) (s : bytes) (i : nat) : option nat :=
  match fuel, i with
  | S k, S _ =>
      let '(r, size) := DecodeLastRune (take i s) in
      let i' := (i - size)%nat in
      if IsSpace r then lastIndexNotSpace k s i' else Some i'
  | _, _ => None
  end.

(** [strings.TrimRightFunc(s, unicode.IsSpace)]. *)
Definition TrimRightSpace (s : bytes) : bytes :=
  match lastIndexNotSpace (length s) s (length s) with
  | Some i =>
      match s !! i with
      | Some c =>
          if RuneSelf <=? byte_val c
          then take (i + snd (DecodeRune (drop i s))) s
          else take (S i) s
      | None => take (S i) s
      end
  | None => []
  end.

(** The two ASCII fast paths of [strings.TrimSpace], each falling back to
    the Unicode scan at the first byte that is not ASCII. *)
Fixpoint trim_stop (fuel : nat) (s : bytes) : bytes :=
  match fuel with
  | O => []
  | S k =>
      match last s with
      | None => []
      | Some c =>
          if RuneSelf <=? byte_val c then TrimRightSpace s
          else if asciiSpace c then trim_stop k (removelast s)
          else s
      end
  end.

Fixpoint trim_start (s : bytes) : bytes :=
  match s with
  | [] => []
  | c :: t =>
      if RuneSelf <=? byte_val c
      then TrimRightSpace (TrimLeftSpace (length s) s)
      else if asciiSpace c then trim_start t
      else trim_stop (length s) s
  end.

Definition TrimSpace (s : bytes) : bytes := trim_start s.

(** *** Numbers as text *)

(** The value of a digit character, [None] for any other byte
    (strconv: [0-9], [a-z], [A-Z]). *)
Definition digit_val (c : ascii) : option Z :=
  let v := byte_val c in
  if between 48 v 57 then Some (v - 48)
  else if between 97 v 122 then Some (v - 97 + 10)
  else if between 65 v 90 then Some (v - 65 + 10)
  else None.

(** The loop of [strconv.ParseUint(s, base, 64)] on a non-empty [s], with
    the accumulated value kept unbounded; [None] is a syntax error. *)
Fixpoint parse_digits (base : Z) (s : bytes) (acc : Z) : option Z :=
  match s with
  | [] => Some acc
  | c :: t =>
      match digit_val c with
      | Some d => if d <? base then parse_digits base t (acc * base + d) else None
      | None => None
      end
  end.

(** [strconv.ParseUint(s, base, 64)] for an explicit base 8 or 10:
    [None] when the call returns an error (syntax or range). *)
Definition ParseUint (s : bytes) (base : Z) : option Z :=
  match s with
  | [] => None
  | _ =>
      match parse_digits base s 0 with
      | Some un => if un <? two64 then Some un else None
      | None => None
      end
  end.

(** [strconv.ParseInt(s, base, 64)]: an optional sign, then [ParseUint],
    then the signed range check. *)
Definition ParseInt (s : bytes) (base : Z) : option Z :=
  match s with
  | [] => None
  | c :: t =>
      let neg := byte_eqb c "-" in
      let s' := if byte_eqb c "+" || neg then t else s in
      match ParseUint s' base with
      | None => None
      | Some un =>
          if negb neg && (two63 <=? un) then None
          else if neg && (two63 <? un) then None
          else Some (if neg then wrap64 (- un) else un)
      end
  end.

(** The digits of a non-negative [n] in [base], most significant first;
    [fuel] bounds their number (an int64 has at most 22 octal and 19
    decimal digits).  Zero has no digit here. *)
Fixpoint digits_of (fuel : nat) (base n : Z) (acc : bytes) : bytes :=
  match fuel with
  | O => acc
  | S k =>
      if n <=? 0 then acc
      else digits_of k base (n / base) (byte_of (48 + n mod base) :: acc)
  end.

Definition natural (base n : Z) : bytes :=
  match digits_of 64 base n [] with
  | [] => bs "0"
  | d => d
  end.

(** [fmt.Sprintf("%0*o", width, n)] for [0 <= n]: zero padded on the left
    to [width]; a width that is too small pads nothing. *)
Definition Sprintf_0o (width : Z) (n : Z) : bytes :=
  let d := natural 8 n in
  replicate (Z.to_nat width - length d) "0"%char ++ d.

(** [strconv.Itoa(n)] and the verb [%d]. *)
Definition Itoa (n : Z) : bytes :=
  if n <? 0 then "-"%char :: natural 10 (- n) else natural 10 n.

End GoLib.

(** * utils.go *)

Import GoLib.

Definition NUL : ascii := zero.
Definition BLOCKSIZE : nat := 512.
Definition RECORDSIZE : nat := BLOCKSIZE * 20.
Definition LENGTH_NAME : nat := 100.
Definition LENGTH_LINK : nat := 100.
Definition LENGTH_PREFIX : nat := 155.
Definition GNU_MAGIC : bytes := bs "ustar  " ++ [NUL].
Definition POSIX_MAGIC : bytes := bs "ustar" ++ [NUL; NUL].

Definition REGTYPE : bytes := bs "0".
Definition AREGTYPE : bytes := [NUL].
Definition LNKTYPE : bytes := bs "1".
Definition SYMTYPE : bytes := bs "2".
Definition CHRTYPE : bytes := bs "3".
Definition BLKTYPE : bytes := bs "4".
Definition DIRTYPE : bytes := bs "5".
Definition FIFOTYPE : bytes := bs "6".
Definition CONTTYPE : bytes := bs "7".
Definition GNUTYPE_LONGNAME : bytes := bs "L".
Definition GNUTYPE_LONGLINK : bytes := bs "K".
Definition GNUTYPE_SPARSE : bytes := bs "S".
Definition XHDTYPE : bytes := bs "x".
Definition XGLTYPE : bytes := bs "g".

Definition USTAR_FORMAT : Z := 0.
Definition GNU_FORMAT : Z := 1.
Definition PAX_FORMAT : Z := 2.
Definition DEFAULT_FORMAT : Z := PAX_FORMAT.

Definition REGULAR_TYPES : list bytes := [REGTYPE; AREGTYPE; CONTTYPE; GNUTYPE_SPARSE].
Definition GNU_TYPES : list bytes := [GNUTYPE_LONGNAME; GNUTYPE_LONGLINK; GNUTYPE_SPARSE].

Definition contains (s : bytes) (l : list bytes) : bool := bool_decide (s ∈ l).

(** [nts]: the field up to its first NUL (the encoding arguments are
    ignored by the source). *)
Definition nts (s : bytes) : bytes :=
  match IndexByte s NUL with
  | Some p => take p s
  | None => s
  end.

(** [nti]: a numeric field to an integer.  [n << 8] and the addition wrap
    as int64 operations do; [s[0]] on an empty slice panics. *)
Definition nti (s : bytes) : result Z :=
  match s with
  | [] => Panic "index out of range"
  | c :: t =>
      if (byte_val c =? 128) || (byte_val c =? 255) then
        let n := fold_left (fun n b => wrap64 (wrap64 (n * 256) + byte_val b)) t 0 in
        Ok (if byte_val c =? 255 then wrap64 (- n) else n)
      else
        let str := TrimSpace (nts s) in
        match str with
        | [] => Ok 0
        | _ =>
            match ParseInt str 8 with
            | Some n => Ok n
            | None => Err (InvalidHeaderError "invalid number field")
            end
        end
  end.

Section Codec.

(** The value Go gives to [int64(x)] when the float64 [x] does not fit
    (at least [2^63]) is left to the implementation by the language; it
    is a parameter here: [int64_of_big x] for the exact value [x]. *)
Variable int64_of_big : Z -> Z.

(** The order in which a [range] over a Go map visits its entries is not
    specified.  [range_fields] is the order taken for the literal map of
    numeric fields in [createPaxHeader], [range_pax] the order taken for
    a map of PAX records. *)
Variable range_fields : list (string * Z).
Variable range_pax : gmap string bytes -> list (string * bytes).

(** [int64(math.Pow(base, float64(k)))] for [base] 8 or 256: these powers
    of two are exact in float64; a negative exponent gives a fraction,
    truncated to 0. *)
Definition pow_int64 (base k : Z) : Z :=
  if k <? 0 then 0
  else if base ^ k <? two63 then base ^ k
  else wrap64 (int64_of_big (base ^ k)).

(** The loop of [itn] that fills [buf[digits-1]] down to [buf[1]]:
    the [k] low bytes of [n], most significant first. *)
Fixpoint base256 (k : nat) (n : Z) (acc : bytes) : bytes :=
  match k with
  | O => acc
  | S k' => base256 k' (Z.shiftr n 8) (byte_of (Z.land n 255) :: acc)
  end.

(** [itn]: an integer to a numeric field of [digits] bytes. *)
Definition itn (n : Z) (digits : Z) (format : Z) : result bytes :=
  if (0 <=? n) && (n <? pow_int64 8 (digits - 1)) then
    Ok (Sprintf_0o (digits - 1) n ++ [NUL])
  else if (format =? GNU_FORMAT)
          && (wrap64 (- pow_int64 256 (digits - 1)) <=? n)
          && (n <? pow_int64 256 (digits - 1)) then
    if digits <? 0 then Panic "makeslice: len out of range"
    else if digits =? 0 then Panic "index out of range"
    else
      let first := if 0 <=? n then byte_of 128 else byte_of 255 in
      let n := if 0 <=? n then n else wrap64 (- n) in
      Ok (first :: base256 (Z.to_nat digits - 1) n [])
  else Err (ErrorString "overflow in number field").

(** [stn]: truncate or NUL-pad to exactly [length] bytes. *)
Definition stn (s : bytes) (length : nat) : bytes :=
  let b := take length s in
  b ++ zeros (length - List.length b).

(** [calcChecksum]: 256 plus every byte outside offsets 148..155. *)
Fixpoint calcChecksum_from (i : nat) (buf : bytes) (unsigned : Z) : Z :=
  match buf with
  | [] => unsigned
  | b :: t =>
      calcChecksum_from (S i) t
        (if (148 <=? i)%nat && (i <? 156)%nat then unsigned
         else wrap64 (unsigned + byte_val b))
  end.

Definition calcChecksum (buf : bytes) : Z := calcChecksum_from 0 buf 256.

(** [divmod] on the non-negative arguments it is called with. *)
Definition divmod (a b : Z) : Z * Z := (Z.quot a b, Z.rem a b).


(** * tarinfo.go *)

Record TarInfo : Type := mkTarInfo {
  Name : bytes;
  Mode : Z;
  UID : Z;
  GID : Z;
  Size : Z;
  Mtime : Z;                    (* seconds since the epoch *)
  Chksum : Z;
  Type_ : bytes;                (* the field [Type] *)
  Linkname : bytes;
  Uname : bytes;
  Gname : bytes;
  DevMajor : Z;
  DevMinor : Z;
  Offset : Z;
  OffsetData : Z;
  PaxHeaders : gmap string bytes;
  Sparse : option (list (Z * Z))  (* [None] is the nil slice *)
}.

Definition NewTarInfo (name : bytes) : TarInfo :=
  {| Name := name; Mode := 420; UID := 0; GID := 0; Size := 0; Mtime := 0;
     Chksum := 0; Type_ := REGTYPE; Linkname := []; Uname := []; Gname := [];
     DevMajor := 0; DevMinor := 0; Offset := 0; OffsetData := 0;
     PaxHeaders := ∅; Sparse := None |}.

Definition IsReg (ti : TarInfo) : bool := contains (Type_ ti) REGULAR_TYPES.
Definition IsDir (ti : TarInfo) : bool := bool_decide (Type_ ti = DIRTYPE).
Definition IsSparse (ti : TarInfo) : bool :=
  match Sparse ti with Some _ => true | None => false end.

(** The values stored in a [map[string]interface{}]: the dynamic type is
    part of the value, and a type assertion to another type panics. *)
Inductive value : Type :=
| VString (s : bytes)
| VInt (n : Z)
| VInt64 (n : Z).

#[global] Instance value_eq_dec : EqDecision value.
Proof. solve_decision. Defined.

Definition type_name (v : option value) : string :=
  match v with
  | None => "nil"
  | Some (VString _) => "string"
  | Some (VInt _) => "int"
  | Some (VInt64 _) => "int64"
  end.

Definition conversion_panic {A} (v : option value) (want : string) : result A :=
  Panic ("interface conversion: interface {} is " +:+ type_name v +:+ ", not " +:+ want).

(** [v.(string)], [v.(int)], [v.(int64)] for [v = info[key]]; a missing
    key gives the nil interface. *)
Definition as_string (v : option value) : result bytes :=
  match v with Some (VString s) => Ok s | _ => conversion_panic v "string" end.
Definition as_int (v : option value) : result Z :=
  match v with Some (VInt n) => Ok n | _ => conversion_panic v "int" end.
Definition as_int64 (v : option value) : result Z :=
  match v with Some (VInt64 n) => Ok n | _ => conversion_panic v "int64" end.

(** [GetInfo]: none of the stored values is nil. *)
Definition GetInfo (ti : TarInfo) : gmap string value :=
  let name :=
    if IsDir ti && negb (HasSuffix (Name ti) (bs "/"))
    then Name ti ++ bs "/" else Name ti in
  <["name" := VString name]> (
  <["mode" := VInt64 (Z.land (Mode ti) 4095)]> (
  <["uid" := VInt (UID ti)]> (
  <["gid" := VInt (GID ti)]> (
  <["size" := VInt64 (Size ti)]> (
  <["mtime" := VInt64 (Mtime ti)]> (
  <["chksum" := VInt (Chksum ti)]> (
  <["type" := VString (Type_ ti)]> (
  <["linkname" := VString (Linkname ti)]> (
  <["uname" := VString (Uname ti)]> (
  <["gname" := VString (Gname ti)]> (
  <["devmajor" := VInt (DevMajor ti)]> (
  <["devminor" := VInt (DevMinor ti)]> ∅)))))))))))).

(** [createPayload]: pad to a whole number of blocks. *)
Definition createPayload (payload : bytes) : bytes :=
  let remainder := (length payload mod BLOCKSIZE)%nat in
  if (0 <? remainder)%nat then payload ++ zeros (BLOCKSIZE - remainder) else payload.

(** [posixSplitName]: the first [i] from 1 for which both halves fit. *)
Definition posixSplitName (name : bytes) : result (bytes * bytes) :=
  let components := Split name in
  let fits (i : nat) :=
    (length (Join (take i components)) <=? LENGTH_PREFIX)%nat
    && (length (Join (drop i components)) <=? LENGTH_NAME)%nat in
  match find fits (seq 1 (length components - 1)) with
  | Some i => Ok (Join (take i components), Join (drop i components))
  | None => Err (ErrorString "name is too long")
  end.

(** The end of [createHeader]: [b] aliases the buffer, so the first
    [append] writes the checksum text into the buffer itself and the
    second one copies the buffer's tail, read after that write. *)
Definition seal (buffer : bytes) : bytes :=
  let chksum := calcChecksum buffer in
  let checksumBytes := Sprintf_0o 6 chksum ++ [NUL; " "%char] in
  let written :=
    take 148 buffer ++ checksumBytes ++ drop (148 + length checksumBytes) buffer in
  let b := take (148 + length checksumBytes) written ++ drop 156 written in
  take BLOCKSIZE b.

(** [createHeader]: the fifteen fields in order, NUL padding up to the
    block size, then the checksum. *)
Definition createHeader (info : gmap string value) (format : Z) : result bytes :=
  let hasDeviceFields :=
    bool_decide (info !! "type" = Some (VString CHRTYPE))
    || bool_decide (info !! "type" = Some (VString BLKTYPE)) in
  dev ← (if hasDeviceFields then
           major ← as_int (info !! "devmajor");
           devMajor ← itn major 8 format;
           minor ← as_int (info !! "devminor");
           devMinor ← itn minor 8 format;
           Ok (devMajor, devMinor)
         else Ok (stn [] 8, stn [] 8));
  filetype ← as_string (info !! "type");
  name ← as_string (info !! "name");
  mode ← as_int64 (info !! "mode");
  p1 ← wrap_err "mode field failed: " (itn mode 8 format);
  uid ← as_int (info !! "uid");
  p2 ← wrap_err "uid field failed: " (itn uid 8 format);
  gid ← as_int (info !! "gid");
  p3 ← wrap_err "gid field failed: " (itn gid 8 format);
  size ← as_int64 (info !! "size");
  p4 ← wrap_err "size field failed: " (itn size 12 format);
  mtime ← as_int64 (info !! "mtime");
  p5 ← wrap_err "mtime field failed: " (itn mtime 12 format);
  linkname ← as_string (info !! "linkname");
  magic ← as_string (info !! "magic");
  uname ← as_string (info !! "uname");
  gname ← as_string (info !! "gname");
  prefix ← as_string (info !! "prefix");
  let parts :=
    [ stn name 100; p1; p2; p3; p4; p5; bs "        "; filetype;
      stn linkname 100; magic; stn uname 32; stn gname 32;
      fst dev; snd dev; stn prefix 155 ] in
  let buf := concat parts in
  let buf := buf ++ zeros (BLOCKSIZE - length buf) in
  Ok (seal buf).

Definition createUstarHeader (info : gmap string value) : result bytes :=
  let info := <["magic" := VString POSIX_MAGIC]> info in
  linkname ← as_string (info !! "linkname");
  if (LENGTH_LINK <? length linkname)%nat then Err (ErrorString "linkname is too long")
  else
    name ← as_string (info !! "name");
    info ← (if (LENGTH_NAME <? length name)%nat then
               '(prefix, name) ← posixSplitName name;
               Ok (<["name" := VString name]> (<["prefix" := VString prefix]> info))
             else Ok info);
    createHeader info USTAR_FORMAT.

Definition createGnuLongHeader (name typ : bytes) : result bytes :=
  let nameBytes := name ++ [NUL] in
  let info : gmap string value :=
    <["name" := VString (bs "././@LongLink")]> (
    <["type" := VString typ]> (
    <["size" := VInt64 (Z.of_nat (length nameBytes))]> (
    <["magic" := VString GNU_MAGIC]> ∅))) in
  header ← createHeader info USTAR_FORMAT;
  Ok (header ++ createPayload nameBytes).

Definition createGnuHeader (info : gmap string value) : result bytes :=
  let info := <["magic" := VString GNU_MAGIC]> info in
  linkname ← as_string (info !! "linkname");
  buf ← (if (LENGTH_LINK <? length linkname)%nat
         then createGnuLongHeader linkname GNUTYPE_LONGLINK else Ok []);
  name ← as_string (info !! "name");
  buf ← (if (LENGTH_NAME <? length name)%nat
         then longName ← createGnuLongHeader name GNUTYPE_LONGNAME; Ok (buf ++ longName)
         else Ok buf);
  header ← createHeader info GNU_FORMAT;
  Ok (buf ++ header).

(** The search of [createPaxGenericHeader] for the record length that
    counts its own digits, from [n]; it settles within a few rounds. *)
Fixpoint record_length (fuel : nat) (l n : Z) : Z :=
  match fuel with
  | O => n
  | S k =>
      let p := l + Z.of_nat (length (Itoa n)) in
      if p =? n then n else record_length k l p
  end.

Definition createPaxGenericHeader (paxHeaders : gmap string bytes) (typ : bytes)
  : result bytes :=
  let binary :=
    existsb (fun kv => negb (bool_decide (is_Some (ParseUint (snd kv) 10))))
            (map_to_list paxHeaders) in
  let records := if binary then bs "21 hdrcharset=BINARY" ++ [byte_of 10] else [] in
  let records :=
    fold_left
      (fun records kv =>
         let k := bs (fst kv) in
         let v := snd kv in
         let l := Z.of_nat (length k + length v + 3) in
         let n := record_length 64 l 0 in
         records ++ Itoa n ++ bs " " ++ k ++ bs "=" ++ v ++ [byte_of 10])
      (range_pax paxHeaders) records in
  let info : gmap string value :=
    <["name" := VString (bs "././@PaxHeader")]> (
    <["type" := VString typ]> (
    <["size" := VInt64 (Z.of_nat (length records))]> (
    <["magic" := VString POSIX_MAGIC]> ∅))) in
  header ← createHeader info USTAR_FORMAT;
  Ok (header ++ createPayload records).

(** The first loop of [createPaxHeader], over the four text fields. *)
Definition pax_text_fields : list (string * string * nat) :=
  [ ("name", "path", LENGTH_NAME); ("linkname", "linkpath", LENGTH_LINK);
    ("uname", "uname", 32%nat); ("gname", "gname", 32%nat) ].

Definition pax_text_step (info : gmap string value)
    (acc : result (gmap string bytes)) (field : string * string * nat)
  : result (gmap string bytes) :=
  paxHeaders ← acc;
  let '(name, hname, len) := field in
  n ← as_string (info !! name);
  if bool_decide (is_Some (paxHeaders !! hname)) then Ok paxHeaders
  else if bool_decide (is_Some (ParseUint n 10)) then Ok (<[hname := n]> paxHeaders)
  else if (len <? length n)%nat then Ok (<[hname := n]> paxHeaders)
  else Ok paxHeaders.

(** The second loop, over the numeric fields in the order [range] gives;
    the entry for mtime is skipped. *)
Definition pax_number_step
    (acc : result (gmap string value * gmap string bytes)) (field : string * Z)
  : result (gmap string value * gmap string bytes) :=
  '(info, paxHeaders) ← acc;
  let '(name, digits) := field in
  if bool_decide (name = "mtime") then Ok (info, paxHeaders)
  else
    val ← as_int (info !! name);
    if (val <? 0) || (pow_int64 8 (digits - 1) <=? val) then
      Ok (<[name := VInt 0]> info,
          if bool_decide (is_Some (paxHeaders !! name)) then paxHeaders
          else <[name := Itoa val]> paxHeaders)
    else Ok (info, paxHeaders).

Definition createPaxHeader (ti : TarInfo) (info : gmap string value) : result bytes :=
  let info := <["magic" := VString POSIX_MAGIC]> info in
  paxHeaders ← fold_left (pax_text_step info) pax_text_fields (Ok (PaxHeaders ti));
  '(info, paxHeaders) ← fold_left pax_number_step range_fields (Ok (info, paxHeaders));
  mtime ← as_int64 (info !! "mtime");
  let '(info, paxHeaders) :=
    if (mtime <? 0) || (pow_int64 8 11 <=? mtime) then
      (<["mtime" := VInt64 0]> info,
       if bool_decide (is_Some (paxHeaders !! "mtime")) then paxHeaders
       else <["mtime" := Itoa mtime]> paxHeaders)
    else (info, paxHeaders) in
  buf ← (if (0 <? size paxHeaders)%nat
         then createPaxGenericHeader paxHeaders XHDTYPE else Ok []);
  header ← createHeader info USTAR_FORMAT;
  Ok (buf ++ header).

(** [ToBuf]. *)
Definition ToBuf (ti : TarInfo) (format : Z) : result bytes :=
  let info := GetInfo ti in
  if format =? USTAR_FORMAT then createUstarHeader info
  else if format =? GNU_FORMAT then createGnuHeader info
  else if format =? PAX_FORMAT then createPaxHeader ti info
  else Err (ErrorString "invalid format").

End Codec.

(** ** Decoding a block *)

(** The loop of [FromBuf] over the four inline sparse entries, from
    offset [pos]; it stops at an entry that is (0, 0). *)
Fixpoint read_sparse (k : nat) (buf : bytes) (pos : nat) (structs : list (Z * Z))
  : result (list (Z * Z)) :=
  match k with
  | O => Ok structs
  | S k' =>
      offset ← nti (slice buf pos (pos + 12));
      numbytes ← nti (slice buf (pos + 12) (pos + 24));
      if (offset =? 0) && (numbytes =? 0) then Ok structs
      else read_sparse k' buf (pos + 24) (structs ++ [(offset, numbytes)])
  end.

(** [FromBuf]: a block to a record. *)
Definition FromBuf (buf : bytes) : result TarInfo :=
  if (length buf =? 0)%nat then Err (EmptyHeaderError "empty header")
  else if negb (length buf =? BLOCKSIZE)%nat then Err (TruncatedHeaderError "truncated header")
  else if (Count buf NUL =? BLOCKSIZE)%nat then Err (EOFHeaderError "end of file header")
  else
    chksum ← nti (slice buf 148 156);
    if negb (chksum =? calcChecksum buf) then Err (InvalidHeaderError "bad checksum")
    else
      let name := nts (slice buf 0 100) in
      mode ← nti (slice buf 100 108);
      uid ← nti (slice buf 108 116);
      gid ← nti (slice buf 116 124);
      size ← nti (slice buf 124 136);
      mtime ← nti (slice buf 136 148);
      let typ := slice buf 156 157 in
      let linkname := nts (slice buf 157 257) in
      let uname := nts (slice buf 265 297) in
      let gname := nts (slice buf 297 329) in
      devMajor ← nti (slice buf 329 337);
      devMinor ← nti (slice buf 337 345);
      let prefix := nts (slice buf 345 500) in
      let typ :=
        if bool_decide (typ = AREGTYPE) && HasSuffix name (bs "/") then DIRTYPE else typ in
      '(size, sparse) ←
        (if bool_decide (typ = GNUTYPE_SPARSE) then
           structs ← read_sparse 4 buf 386 [];
           let isExtended := negb (bool_decide (buf !! 482%nat = Some NUL)) in
           origSize ← nti (slice buf 483 495);
           if (0 <? length structs)%nat || isExtended
           then Ok (origSize, match structs with [] => None | _ => Some structs end)
           else Ok (size, None)
         else Ok (size, None));
      let name := if bool_decide (typ = DIRTYPE) then TrimSuffix name (bs "/") else name in
      let name :=
        if negb (bool_decide (prefix = [])) && negb (contains typ GNU_TYPES)
        then prefix ++ bs "/" ++ name else name in
      Ok {| Name := name; Mode := mode; UID := uid; GID := gid; Size := size;
            Mtime := mtime; Chksum := chksum; Type_ := typ; Linkname := linkname;
            Uname := uname; Gname := gname; DevMajor := devMajor;
            DevMinor := devMinor; Offset := 0; OffsetData := 0;
            PaxHeaders := ∅; Sparse := sparse |}.

(** * The underlying stream *)

Module io.

Inductive whence : Type := SeekStart | SeekCurrent | SeekEnd.

(** [io.ReadWriteSeeker].  [Read s n] is a call [Read(p)] with
    [len(p) = n]: it gives the bytes stored at the front of [p] (their
    number is the returned count) and the error.  [Seek] gives the new
    position and the error. *)
Class ReadWriteSeeker (S : Type) : Type := {
  Read : S -> nat -> S * (bytes * option error);
  Write : S -> bytes -> S * (nat * option error);
  Seek : S -> Z -> whence -> S * (Z * option error)
}.

(** A file held in memory: its content and the cursor. *)
Record MemFile : Type := { content : bytes; cursor : Z }.

#[global] Instance MemFile_rws : ReadWriteSeeker MemFile := {
  Read f n :=
    if Z.of_nat (length (content f)) <=? cursor f then (f, ([], Some io_EOF))
    else
      let data := take n (drop (Z.to_nat (cursor f)) (content f)) in
      ({| content := content f; cursor := cursor f + Z.of_nat (length data) |},
       (data, None));
  Write f p :=
    let at_ := Z.to_nat (cursor f) in
    let old := content f ++ zeros (at_ - length (content f)) in
    ({| content := take at_ old ++ p ++ drop (at_ + length p) old;
        cursor := cursor f + Z.of_nat (length p) |},
     (length p, None));
  Seek f off w :=
    let abs :=
      match w with
      | SeekStart => off
      | SeekCurrent => cursor f + off
      | SeekEnd => Z.of_nat (length (content f)) + off
      end in
    if abs <? 0 then (f, (0, Some (StreamFault "negative position")))
    else ({| content := content f; cursor := abs |}, (abs, None))
}.

End io.

(** * The archive engine *)

Section Engine.

Context {S : Type} `{io.ReadWriteSeeker S}.

(** The fields of [TarFile] that reading uses. *)
Record TarFile : Type := mkTarFile {
  IgnoreZeros : bool;
  Stream : bool;
  TarFile_Mode : string;
  FileObj : S;
  Closed : bool;
  Members : list TarInfo;
  Loaded : bool;
  TarFile_Offset : Z;
  FirstMember : option TarInfo
}.

Definition set_FileObj (tf : TarFile) (f : S) : TarFile :=
  mkTarFile (IgnoreZeros tf) (Stream tf) (TarFile_Mode tf) f (Closed tf)
            (Members tf) (Loaded tf) (TarFile_Offset tf) (FirstMember tf).
Definition set_Offset (tf : TarFile) (o : Z) : TarFile :=
  mkTarFile (IgnoreZeros tf) (Stream tf) (TarFile_Mode tf) (FileObj tf) (Closed tf)
            (Members tf) (Loaded tf) o (FirstMember tf).
Definition set_Members (tf : TarFile) (m : list TarInfo) : TarFile :=
  mkTarFile (IgnoreZeros tf) (Stream tf) (TarFile_Mode tf) (FileObj tf) (Closed tf)
            m (Loaded tf) (TarFile_Offset tf) (FirstMember tf).
Definition set_Loaded (tf : TarFile) (b : bool) : TarFile :=
  mkTarFile (IgnoreZeros tf) (Stream tf) (TarFile_Mode tf) (FileObj tf) (Closed tf)
            (Members tf) b (TarFile_Offset tf) (FirstMember tf).
Definition set_FirstMember (tf : TarFile) (m : option TarInfo) : TarFile :=
  mkTarFile (IgnoreZeros tf) (Stream tf) (TarFile_Mode tf) (FileObj tf) (Closed tf)
            (Members tf) (Loaded tf) (TarFile_Offset tf) m.

Definition set_offsets (ti : TarInfo) (o d : Z) : TarInfo :=
  mkTarInfo (Name ti) (Mode ti) (UID ti) (GID ti) (Size ti) (Mtime ti) (Chksum ti)
            (Type_ ti) (Linkname ti) (Uname ti) (Gname ti) (DevMajor ti)
            (DevMinor ti) o d (PaxHeaders ti) (Sparse ti).

(** [tell]: the position [Seek(0, io.SeekCurrent)] reports, its error
    dropped. *)
Definition tell (f : S) : S * Z :=
  let '(f, (pos, _)) := io.Seek f 0 io.SeekCurrent in (f, pos).

(** [FromTarFile]: read one block at the cursor and decode it.  The
    archive offset moves on by one block only when decoding succeeds. *)
Definition FromTarFile (tf : TarFile) : TarFile * result TarInfo :=
  let '(f, (data, err)) := io.Read (FileObj tf) BLOCKSIZE in
  let tf := set_FileObj tf f in
  let n := length data in
  let buf := take BLOCKSIZE (data ++ zeros BLOCKSIZE) in
  match err with
  | Some e =>
      if is_EOF e && (n =? 0)%nat
      then (tf, Err (EOFHeaderError "end of file header"))
      else (tf, Err (TruncatedHeaderError "truncated header"))
  | None =>
      if negb (n =? BLOCKSIZE)%nat
      then (tf, Err (TruncatedHeaderError "truncated header"))
      else
        match FromBuf buf with
        | Ok ti =>
            let o := TarFile_Offset tf in
            (set_Offset tf (wrap64 (o + Z.of_nat BLOCKSIZE)),
             Ok (set_offsets ti o (wrap64 (o + Z.of_nat BLOCKSIZE))))
        | Err e => (tf, Err e)
        | Panic m => (tf, Panic m)
        end
  end.

Definition skip_block (tf : TarFile) : TarFile :=
  set_Offset tf (wrap64 (TarFile_Offset tf + Z.of_nat BLOCKSIZE)).

(** The [for] loop of [Next].  [Ok t] is the [break] with [tarinfo = t]
    ([None] for nil); [Err] and [Panic] are the returns from inside the
    loop.  Each round of the loop takes one unit of [fuel]; the loop can
    only go round when [IgnoreZeros] is set. *)
Fixpoint Next_loop (fuel : nat) (tf : TarFile)
  : option (TarFile * result (option TarInfo)) :=
  match fuel with
  | O => None
  | Datatypes.S k =>
      let '(tf, r) := FromTarFile tf in
      match r with
      | Ok ti => Some (tf, Ok (Some ti))
      | Panic m => Some (tf, Panic m)
      | Err e =>
          match e with
          | EOFHeaderError _ =>
              if IgnoreZeros tf then Next_loop k (skip_block tf)
              else Some (tf, Ok None)
          | InvalidHeaderError _ =>
              if IgnoreZeros tf then Next_loop k (skip_block tf)
              else if TarFile_Offset tf =? 0 then Some (tf, Err (ReadError (Error e)))
              else Some (tf, Ok None)
          | EmptyHeaderError _ =>
              if TarFile_Offset tf =? 0 then Some (tf, Err (ReadError "empty file"))
              else Some (tf, Ok None)
          | TruncatedHeaderError _ =>
              if TarFile_Offset tf =? 0 then Some (tf, Err (ReadError (Error e)))
              else Some (tf, Ok None)
          | SubsequentHeaderError _ => Some (tf, Err (ReadError (Error e)))
          | _ => Some (tf, Err e)
          end
      end
  end.

(** What [Next] does with the member the loop left: keep it in the index
    unless streaming, or mark the archive as loaded. *)
Definition Next_finish (tf : TarFile) (tarinfo : option TarInfo)
  : TarFile * result (option TarInfo) :=
  match tarinfo with
  | Some ti =>
      if negb (Stream tf) then (set_Members tf (Members tf ++ [ti]), Ok tarinfo)
      else (set_Loaded tf true, Ok tarinfo)
  | None => (set_Loaded tf true, Ok None)
  end.

(** [Next] (and [next] of the locking variant of the engine, which has
    the same body).  The result of [tf.check("ra")] is dropped by the
    source, so the mode and the closed flag play no part.  [None] means
    that [fuel] rounds of the loop were not enough. *)
Definition Next (fuel : nat) (tf : TarFile)
  : option (TarFile * result (option TarInfo)) :=
  match FirstMember tf with
  | Some m => Some (set_FirstMember tf None, Ok (Some m))
  | None =>
      let '(f, pos) := tell (FileObj tf) in
      let tf := set_FileObj tf f in
      let positioned : TarFile * option (result (option TarInfo)) :=
        if negb (TarFile_Offset tf =? pos) then
          if TarFile_Offset tf =? 0 then (tf, Some (Ok None))
          else
            let '(f, (_, err)) := io.Seek (FileObj tf) (wrap64 (TarFile_Offset tf - 1)) io.SeekStart in
            let tf := set_FileObj tf f in
            match err with
            | Some e => (tf, Some (Err e))
            | None =>
                let '(f, (_, err)) := io.Read (FileObj tf) 1 in
                let tf := set_FileObj tf f in
                match err with
                | Some _ => (tf, Some (Err (ReadError "unexpected end of data")))
                | None => (tf, None)
                end
            end
        else (tf, None) in
      match positioned with
      | (tf, Some r) => Some (tf, r)
      | (tf, None) =>
          match Next_loop fuel tf with
          | None => None
          | Some (tf, Ok tarinfo) => Some (Next_finish tf tarinfo)
          | Some (tf, r) => Some (tf, r)
          end
      end
  end.

Definition next := Next.

(** [load]: call [Next] until it reports an error or no member; [rounds]
    bounds the number of calls. *)
Fixpoint load_loop (rounds fuel : nat) (tf : TarFile) : option (TarFile * result unit) :=
  match rounds with
  | O => None
  | Datatypes.S k =>
      match Next fuel tf with
      | None => None
      | Some (tf, Ok (Some _)) => load_loop k fuel tf
      | Some (tf, Ok None) => Some (tf, Ok tt)
      | Some (tf, Err _) => Some (tf, Ok tt)
      | Some (tf, Panic m) => Some (tf, Panic m)
      end
  end.

Definition load (rounds fuel : nat) (tf : TarFile) : option (TarFile * result unit) :=
  if negb (Stream tf) then
    match load_loop rounds fuel tf with
    | Some (tf, Ok _) => Some (set_Loaded tf true, Ok tt)
    | r => r
    end
  else Some (tf, Ok tt).

(** [GetMembers] (the spec's [listMembers]). *)
Definition GetMembers (rounds fuel : nat) (tf : TarFile)
  : option (TarFile * result (list TarInfo)) :=
  if negb (Loaded tf) then
    match load rounds fuel tf with
    | None => None
    | Some (tf, Ok _) => Some (tf, Ok (Members tf))
    | Some (tf, Err e) => Some (tf, Err e)
    | Some (tf, Panic m) => Some (tf, Panic m)
    end
  else Some (tf, Ok (Members tf)).

(** [NewTarFile] for mode "r" over a given stream: the offset is the
    stream position and the first member is read ahead. *)
Definition NewTarFile_r (fuel : nat) (fileobj : S) (ignoreZeros stream : bool)
  : option (result TarFile) :=
  let '(f, pos) := tell fileobj in
  let tf := mkTarFile ignoreZeros stream "r" f false [] false pos None in
  match Next fuel tf with
  | None => None
  | Some (tf, Ok first) => Some (Ok (set_FirstMember tf first))
  | Some (_, Err e) => Some (Err e)
  | Some (_, Panic m) => Some (Panic m)
  end.

End Engine.

Arguments TarFile S : clear implicits.

(** * ExFileObject *)

Module ExFileObject.
Section Read.

Context {S : Type} `{io.ReadWriteSeeker S}.

(** The member, the offset of its data and the read position; the
    archive's stream is passed to [Read] and returned by it. *)
Record t : Type := mk { ti : TarInfo; offset : Z; pos : Z }.


(** [Read(p)] with [len(p) = n]: the reported count and error. *)
Definition Read (ef : t) (fileobj : S) (n : nat) : (t * S) * (Z * option error) :=
  if Size (ti ef) <=? pos ef then ((ef, fileobj), (0, Some io_EOF))
  else
    let '(f, (_, err)) := io.Seek fileobj (wrap64 (offset ef + pos ef)) io.SeekStart in
    match err with
    | Some e => ((ef, f), (0, Some e))
    | None =>
        let '(f, (data, err)) := io.Read f n in
        let n := Z.of_nat (length data) in
        match err with
        | Some e =>
            if negb (is_EOF e) then ((ef, f), (n, Some e))
            else
              let n := if wrap64 (Size (ti ef) - pos ef) <? n
                       then wrap64 (Size (ti ef) - pos ef) else n in
              (({| ti := ti ef; offset := offset ef; pos := wrap64 (pos ef + n) |}, f),
               (n, err))
        | None =>
            let n := if wrap64 (Size (ti ef) - pos ef) <? n
                     then wrap64 (Size (ti ef) - pos ef) else n in
            (({| ti := ti ef; offset := offset ef; pos := wrap64 (pos ef + n) |}, f),
             (n, err))
        end
    end.

End Read.
End ExFileObject.

(** * Vocabulary of the statements *)

(** ** Checksums *)

(** The offsets 148..155 of the checksum field. *)
Definition in_chksum_field (i : nat) : bool := (148 <=? i)%nat && (i <? 156)%nat.

Definition total (l : list Z) : Z := foldr Z.add 0 l.

(** What the byte [b] at offset [i] counts for when every byte of the
    checksum field counts for [chk] (0: left out, 32: a space). *)
Definition counted (chk : Z) (i : nat) (b : ascii) : Z :=
  if in_chksum_field i then chk else byte_val b.

Definition header_sum (chk : Z) (buf : bytes) : Z := total (imap (counted chk) buf).

(** The eight bytes [createHeader] stores in the checksum field. *)
Definition checksum_text (buf : bytes) : bytes :=
  Sprintf_0o 6 (calcChecksum buf) ++ [NUL; " "%char].

Definition is_octal (c : ascii) : Prop := 48 <= byte_val c <= 55.

(** ** Splitting a name *)

(** Both halves of a split fit their fields. *)
Definition fits (p r : bytes) : Prop :=
  (length p <= LENGTH_PREFIX)%nat /\ (length r <= LENGTH_NAME)%nat.

(** The test of the loop of [posixSplitName] at index [i]. *)
Definition split_fits (comps : list bytes) (i : nat) : bool :=
  (length (Join (take i comps)) <=? LENGTH_PREFIX)%nat
  && (length (Join (drop i comps)) <=? LENGTH_NAME)%nat.

(** The name [GetInfo] gives to a record: a directory has its slash. *)
Definition wire_name (ti : TarInfo) : bytes :=
  if IsDir ti && negb (HasSuffix (Name ti) (bs "/")) then Name ti ++ bs "/" else Name ti.

(** What serializing under USTAR a record with a long name comes to.
    [createUstarHeader] first refuses a link name of more than 100 bytes;
    it then splits the name that [GetInfo] gives: the first fitting split
    is used as prefix and name, and without one the error is returned. *)
Definition ustar_split_outcome (c : Z -> Z) (rf : list (string * Z))
    (rp : gmap string bytes -> list (string * bytes)) (ti : TarInfo) : Prop :=
  if (LENGTH_LINK <? length (Linkname ti))%nat
  then ToBuf c rf rp ti USTAR_FORMAT = Err (ErrorString "linkname is too long")
  else
    match posixSplitName (wire_name ti) with
    | Ok (p, r) =>
        wire_name ti = p ++ "/"%char :: r /\ fits p r
        /\ (forall p' r', wire_name ti = p' ++ "/"%char :: r' -> fits p' r' ->
                          (length p <= length p')%nat)
        /\ ToBuf c rf rp ti USTAR_FORMAT
           = createHeader c (<["name" := VString r]> (<["prefix" := VString p]>
                              (<["magic" := VString POSIX_MAGIC]> (GetInfo ti))))
                          USTAR_FORMAT
    | Err e =>
        e = ErrorString "name is too long"
        /\ (forall p' r', wire_name ti = p' ++ "/"%char :: r' -> ~ fits p' r')
        /\ ToBuf c rf rp ti USTAR_FORMAT = Err (ErrorString "name is too long")
    | Panic _ => False
    end.

(** ** PAX *)

(** The literal map of numeric fields that [createPaxHeader] ranges over. *)
Definition pax_number_fields : list (string * Z) :=
  [("uid", 8); ("gid", 8); ("size", 12); ("mtime", 12)].

Definition int64_not_int : string :=
  "interface conversion: interface {} is int64, not int".

(** The dynamic types [GetInfo] gives to the numeric fields; the loop over
    the numeric fields keeps them. *)
Definition numeric_types (info : gmap string value) : Prop :=
  (exists n, info !! "uid" = Some (VInt n))
  /\ (exists n, info !! "gid" = Some (VInt n))
  /\ (exists n, info !! "size" = Some (VInt64 n)).

(** ** Runs of [ExFileObject.Read] *)

Section Runs.

Context {S : Type} `{io.ReadWriteSeeker S}.





End Runs.

(** * Example data *)

(** The conversion of a float64 that does not fit int64, as amd64 does it. *)
Definition int64_of_big_amd64 : Z -> Z := fun _ => - two63.

(** A [range] over a map of PAX records that happens to go by key. *)
Definition range_sorted (m : gmap string bytes) : list (string * bytes) := map_to_list m.

(** The attributes of a record together with the magic and an empty
    prefix: every key [createHeader] reads is present. *)
Definition complete_info (ti : TarInfo) : gmap string value :=
  <["prefix" := VString []]> (<["magic" := VString GNU_MAGIC]> (GetInfo ti)).

(** The header block of a record as a GNU tar writer lays it out. *)
Definition header_block (ti : TarInfo) : bytes :=
  match createHeader int64_of_big_amd64 (complete_info ti) GNU_FORMAT with
  | Ok b => b
  | _ => []
  end.

Definition member (name : string) (mode size : Z) (typ : bytes) : TarInfo :=
  mkTarInfo (bs name) mode 0 0 size 0 0 typ [] [] [] 0 0 0 0 ∅ None.

(** The two zero blocks and the padding to the record size that end an
    archive of [written] bytes. *)
Definition trailer (written : nat) : bytes := zeros (RECORDSIZE - written).

(** "hello.txt" with its 13 bytes, then the directory "data". *)
Definition hello_txt : TarInfo := member "hello.txt" 420 13 REGTYPE.
Definition data_dir : TarInfo := member "data" 493 0 DIRTYPE.

Definition two_member_archive : bytes :=
  header_block hello_txt ++ createPayload (bs "Hello, World!")
  ++ header_block data_dir ++ trailer 1536.

(** A file with a name of 150 bytes, written the GNU way: a long-name
    entry, the name as its payload, then the real header. *)
Definition long_name : bytes := replicate 150 "a"%char.
Definition long_link_entry : TarInfo := member "././@LongLink" 0 151 GNUTYPE_LONGNAME.
Definition long_file : TarInfo :=
  mkTarInfo long_name 420 0 0 0 0 0 REGTYPE [] [] [] 0 0 0 0 ∅ None.

Definition long_name_archive : bytes :=
  header_block long_link_entry ++ createPayload (long_name ++ [NUL])
  ++ header_block long_file ++ trailer 1536.

(** A file with a PAX extended header that carries its path. *)
Definition pax_records : bytes := bs "20 path=papers/a.txt" ++ [byte_of 10].
Definition pax_entry : TarInfo := member "././@PaxHeader" 420 21 XHDTYPE.
Definition pax_file : TarInfo := member "a.txt" 420 0 REGTYPE.

Definition pax_archive : bytes :=
  header_block pax_entry ++ createPayload pax_records
  ++ header_block pax_file ++ trailer 1536.

(** An archive over a file in memory, opened for reading, and its scan. *)
Definition open_r (archive : bytes) (ignoreZeros : bool)
  : option (result (TarFile io.MemFile)) :=
  NewTarFile_r 4 {| io.content := archive; io.cursor := 0 |} ignoreZeros false.

Definition scan (archive : bytes) (ignoreZeros : bool)
  : option (result (list TarInfo)) :=
  match open_r archive ignoreZeros with
  | Some (Ok tf) =>
      match GetMembers 16 4 tf with
      | Some (_, r) => Some r
      | None => None
      end
  | Some (Err e) => Some (Err e)
  | Some (Panic m) => Some (Panic m)
  | None => None
  end.

(** The sparse record of the documentation: 1 MiB, data in the first and
    the last KiB. *)
Definition sparse_rec (typ : bytes) : TarInfo :=
  mkTarInfo (bs "sparse.bin") 420 0 0 1048576 0 0 typ [] [] [] 0 0 0 0 ∅
            (Some [(0, 1024); (1047552, 1024)]).

(** A record whose uid is 2^40. *)
Definition big_uid : TarInfo :=
  mkTarInfo (bs "f") 420 (2 ^ 40) 0 0 0 0 REGTYPE [] [] [] 0 0 0 0 ∅ None.

(** A name of 150 bytes without a slash, and one with two fitting splits. *)
Definition unsplittable : TarInfo := long_file.
Definition two_splits : bytes :=
  bs "a/" ++ replicate 98 "b"%char ++ bs "/c".

(** A record with a name of 121 bytes that splits at its slash, and the
    block that serializing it under USTAR gives. *)
Definition ustar_long : TarInfo :=
  mkTarInfo (replicate 60 "d"%char ++ bs "/" ++ replicate 60 "f"%char)
            420 0 0 0 0 0 REGTYPE [] [] [] 0 0 0 0 ∅ None.

Definition ustar_block : bytes :=
  match ToBuf int64_of_big_amd64 pax_number_fields range_sorted ustar_long USTAR_FORMAT with
  | Ok b => b
  | _ => []
  end.

(** A directory whose name of 150 bytes has no slash, and a file whose
    link name has 101 bytes. *)
Definition long_dir : TarInfo :=
  mkTarInfo (replicate 150 "d"%char) 493 0 0 0 0 0 DIRTYPE [] [] [] 0 0 0 0 ∅ None.

Definition long_link : TarInfo :=
  mkTarInfo (replicate 60 "d"%char ++ bs "/" ++ replicate 60 "f"%char)
            420 0 0 0 0 0 SYMTYPE (replicate 101 "t"%char) [] [] 0 0 0 0 ∅ None.

(** A record whose type tag has 15 bytes and whose name splits into a
    prefix of 155 bytes and "f", and the block that serializing it under
    USTAR gives: the header fields come to 513 bytes, of which the last,
    the "d" that ends the prefix, is counted in the checksum and then cut. *)
Definition long_type : TarInfo :=
  mkTarInfo (replicate 155 "d"%char ++ bs "/" ++ bs "f")
            420 0 0 0 0 0 (replicate 15 "0"%char) [] [] [] 0 0 0 0 ∅ None.

Definition long_type_block : bytes :=
  match ToBuf int64_of_big_amd64 pax_number_fields range_sorted long_type USTAR_FORMAT with
  | Ok b => b
  | _ => []
  end.

(** A stream whose [Read] fills the buffer and reports a fault, as a
    decompressor does when the check at the end of its input fails. *)
Inductive Faulty : Type := faulty.

#[global] Instance Faulty_rws : io.ReadWriteSeeker Faulty := {
  io.Read _ n := (faulty, (zeros n, Some (StreamFault "checksum error")));
  io.Write _ p := (faulty, (0%nat, Some (StreamFault "write not supported")));
  io.Seek _ off _ := (faulty, (off, None))
}.

(** * Further parts of the code *)

(** ** tarinfo.go: the remaining type predicates *)

Definition IsFile (ti : TarInfo) : bool := IsReg ti.
Definition IsSym (ti : TarInfo) : bool := bool_decide (Type_ ti = SYMTYPE).
Definition IsLnk (ti : TarInfo) : bool := bool_decide (Type_ ti = LNKTYPE).
Definition IsChr (ti : TarInfo) : bool := bool_decide (Type_ ti = CHRTYPE).
Definition IsBlk (ti : TarInfo) : bool := bool_decide (Type_ ti = BLKTYPE).
Definition IsFifo (ti : TarInfo) : bool := bool_decide (Type_ ti = FIFOTYPE).
Definition IsDev (ti : TarInfo) : bool :=
  bool_decide (Type_ ti = CHRTYPE) || bool_decide (Type_ ti = BLKTYPE)
  || bool_decide (Type_ ti = FIFOTYPE).

(** [CreatePaxGlobalHeader]. *)
Definition CreatePaxGlobalHeader (c : Z -> Z)
    (rp : gmap string bytes -> list (string * bytes)) (headers : gmap string bytes)
  : result bytes :=
  createPaxGenericHeader c rp headers XGLTYPE.

(** ** The archive engine: writing and looking up *)

Section Writing.

Context {S : Type} `{io.ReadWriteSeeker S}.

Definition set_Closed (tf : TarFile S) (b : bool) : TarFile S :=
  mkTarFile (IgnoreZeros tf) (Stream tf) (TarFile_Mode tf) (FileObj tf) b
            (Members tf) (Loaded tf) (TarFile_Offset tf) (FirstMember tf).

(** [tf.Mode == "a" || tf.Mode == "w" || tf.Mode == "x"]. *)
Definition writing (tf : TarFile S) : bool :=
  bool_decide (TarFile_Mode tf = "a") || bool_decide (TarFile_Mode tf = "w")
  || bool_decide (TarFile_Mode tf = "x").

(** [Close]: the end-of-archive marker and the padding to a whole record.
    The deferred closing of an [*os.File] the archive opened itself is
    outside the stream interface and left out. *)
Definition Close (tf : TarFile S) : TarFile S * option error :=
  if Closed tf then (tf, None)
  else
    let tf := set_Closed tf true in
    if writing tf then
      let '(f, (_, err)) := io.Write (FileObj tf) (zeros (BLOCKSIZE * 2)) in
      let tf := set_FileObj tf f in
      match err with
      | Some e => (tf, Some e)
      | None =>
          let tf := set_Offset tf (wrap64 (TarFile_Offset tf + Z.of_nat (BLOCKSIZE * 2))) in
          let '(_, remainder) := divmod (TarFile_Offset tf) (Z.of_nat RECORDSIZE) in
          if 0 <? remainder then
            let '(f, (_, err)) :=
              io.Write (FileObj tf) (zeros (Z.to_nat (Z.of_nat RECORDSIZE - remainder))) in
            (set_FileObj tf f, err)
          else (tf, None)
      end
    else (tf, None).

(** [AddFile].  [format] is the field [tf.Format]; the reader [fileobj] is
    [None] for nil.  [io.CopyN] belongs to the Go library and is a
    parameter: it gives the stream after the copy and the error. *)
Section AddFile.

Variable c : Z -> Z.
Variable range_fields : list (string * Z).
Variable range_pax : gmap string bytes -> list (string * bytes).
Variable R : Type.
Variable CopyN : S -> R -> Z -> S * option error.

Definition AddFile (format : Z) (tf : TarFile S) (tarinfo : TarInfo) (fileobj : option R)
  : TarFile S * result unit :=
  if bool_decide (fileobj = None :> option R) && IsReg tarinfo && negb (Size tarinfo =? 0)
  then (tf, Err (ErrorString "fileobj not provided for non zero-size regular file"))
  else
    match ToBuf c range_fields range_pax tarinfo format with
    | Err e => (tf, Err e)
    | Panic m => (tf, Panic m)
    | Ok buf =>
        let '(f, (_, err)) := io.Write (FileObj tf) buf in
        let tf := set_FileObj tf f in
        match err with
        | Some e => (tf, Err e)
        | None =>
            let tf := set_Offset tf (wrap64 (TarFile_Offset tf + Z.of_nat (length buf))) in
            let copied : TarFile S * option error :=
              match fileobj with
              | None => (tf, None)
              | Some r =>
                  let '(f, err) := CopyN (FileObj tf) r (Size tarinfo) in
                  let tf := set_FileObj tf f in
                  match err with
                  | Some e => (tf, Some e)
                  | None =>
                      let '(blocks, remainder) := divmod (Size tarinfo) (Z.of_nat BLOCKSIZE) in
                      if 0 <? remainder then
                        let '(f, (_, err)) :=
                          io.Write (FileObj tf)
                                   (zeros (Z.to_nat (Z.of_nat BLOCKSIZE - remainder))) in
                        let tf := set_FileObj tf f in
                        match err with
                        | Some e => (tf, Some e)
                        | None =>
                            (set_Offset tf
                               (wrap64 (TarFile_Offset tf
                                        + wrap64 (wrap64 (blocks + 1) * Z.of_nat BLOCKSIZE))),
                             None)
                        end
                      else
                        (set_Offset tf
                           (wrap64 (TarFile_Offset tf + wrap64 (blocks * Z.of_nat BLOCKSIZE))),
                         None)
                  end
              end in
            match copied with
            | (tf, Some e) => (tf, Err e)
            | (tf, None) => (set_Members tf (Members tf ++ [tarinfo]), Ok tt)
            end
        end
    end.

End AddFile.

(** The loop of [getMember]: from the last member down to the first. *)
Definition last_named (name : bytes) (members : list TarInfo) : option TarInfo :=
  find (fun m => bool_decide (name = Name m)) (reverse members).

(** [getMember]; the error of [GetMembers] is dropped by the source. *)
Definition getMember (rounds fuel : nat) (tf : TarFile S) (name : bytes)
  : option (TarFile S * result (option TarInfo)) :=
  match GetMembers rounds fuel tf with
  | None => None
  | Some (tf, Ok members) => Some (tf, Ok (last_named name members))
  | Some (tf, Err _) => Some (tf, Ok None)
  | Some (tf, Panic m) => Some (tf, Panic m)
  end.

(** [GetMember].  [quote] stands for the verb [%q] of [fmt]. *)
Definition GetMember (quote : bytes -> string) (rounds fuel : nat) (tf : TarFile S)
    (name : bytes) : option (TarFile S * result TarInfo) :=
  match getMember rounds fuel tf (TrimSuffix name (bs "/")) with
  | None => None
  | Some (tf, Ok (Some ti)) => Some (tf, Ok ti)
  | Some (tf, Ok None) =>
      Some (tf, Err (ErrorString ("filename " +:+ quote name +:+ " not found")))
  | Some (tf, Err e) => Some (tf, Err e)
  | Some (tf, Panic m) => Some (tf, Panic m)
  end.

(** [GetNames]. *)
Definition GetNames (rounds fuel : nat) (tf : TarFile S)
  : option (TarFile S * result (list bytes)) :=
  match GetMembers rounds fuel tf with
  | None => None
  | Some (tf, Ok members) => Some (tf, Ok (map Name members))
  | Some (tf, Err e) => Some (tf, Err e)
  | Some (tf, Panic m) => Some (tf, Panic m)
  end.

End Writing.

(** * Vocabulary of the further properties *)

(** A number that [itn] can write in a field of [digits] bytes and [nti]
    reads back: it fits the octal digits or, under the GNU format and in a
    field of at most 8 bytes, lies strictly inside the base-256 range. *)
Definition storable (fmt digits n : Z) : Prop :=
  0 <= n < 8 ^ (digits - 1)
  \/ (fmt = GNU_FORMAT /\ 2 <= digits <= 8
      /\ - 256 ^ (digits - 1) < n < 256 ^ (digits - 1)).

(** A text that a field of [n] bytes holds whole. *)
Definition text_fits (n : nat) (s : bytes) : Prop :=
  (NUL ∉ s) /\ (length s <= n)%nat.

(** The test [hasDeviceFields] of [createHeader] on a record. *)
Definition has_device_fields (ti : TarInfo) : bool :=
  bool_decide (Type_ ti = CHRTYPE) || bool_decide (Type_ ti = BLKTYPE).

(** What a header block keeps of a record: the permission bits of the
    mode, the device numbers of a device only, the checksum of the block,
    neither offsets, PAX records nor a sparse map. *)
Definition kept (ti : TarInfo) (chksum : Z) : TarInfo :=
  {| Name := Name ti; Mode := Z.land (Mode ti) 4095; UID := UID ti; GID := GID ti;
     Size := Size ti; Mtime := Mtime ti; Chksum := chksum; Type_ := Type_ ti;
     Linkname := Linkname ti; Uname := Uname ti; Gname := Gname ti;
     DevMajor := if has_device_fields ti then DevMajor ti else 0;
     DevMinor := if has_device_fields ti then DevMinor ti else 0;
     Offset := 0; OffsetData := 0; PaxHeaders := ∅; Sparse := None |}.

(** The loop of [nti] over a base-256 field. *)
Definition decode256 (l : bytes) (a : Z) : Z :=
  fold_left (fun n b => wrap64 (wrap64 (n * 256) + byte_val b)) l a.

(** The errors [FromBuf] returns. *)
Definition header_errors : list error :=
  [ EmptyHeaderError "empty header"; TruncatedHeaderError "truncated header";
    EOFHeaderError "end of file header"; InvalidHeaderError "bad checksum";
    InvalidHeaderError "invalid number field" ].

(** The archive offset after [i] headers read from [start]. *)
Fixpoint block_offset (start : Z) (i : nat) : Z :=
  match i with
  | O => start
  | S k => wrap64 (block_offset start k + Z.of_nat BLOCKSIZE)
  end.

(** The members lie one block after the other from [start]. *)
Definition consecutive (start : Z) (ms : list TarInfo) : Prop :=
  forall (i : nat) (ti : TarInfo), ms !! i = Some ti ->
    Offset ti = block_offset start i /\ OffsetData ti = block_offset start (S i).



(** * Further example data *)

(** Files in memory: an empty one, one that is no archive, and one that
    holds the headers of "hello.txt" and "data" one after the other. *)
Definition empty_file : io.MemFile := {| io.content := []; io.cursor := 0 |}.
Definition short_file : io.MemFile :=
  {| io.content := bs "not a tar archive"; io.cursor := 0 |}.
Definition two_header_file : io.MemFile :=
  {| io.content := header_block hello_txt ++ header_block data_dir; io.cursor := 0 |}.

(** An archive record over a file, as [NewTarFile] sets it up before it
    reads, and an archive that is open for writing on an empty file. *)
Definition reader_on (f : io.MemFile) (ignoreZeros : bool) : TarFile io.MemFile :=
  mkTarFile ignoreZeros false "r" f false [] false 0 None.
Definition writer : TarFile io.MemFile :=
  mkTarFile false false "w" empty_file false [] true 0 None.

(** The archive opened on the two headers, and its scan. *)
Definition opened_two : TarFile io.MemFile :=
  match NewTarFile_r 1 two_header_file false false with
  | Some (Ok tf) => tf
  | _ => reader_on two_header_file false
  end.
Definition scanned_two : TarFile io.MemFile * list TarInfo :=
  match GetMembers 4 1 opened_two with
  | Some (tf, Ok ms) => (tf, ms)
  | _ => (opened_two, [])
  end.

(** A loaded archive whose index holds "hello.txt" twice. *)
Definition indexed : TarFile io.MemFile :=
  mkTarFile false false "r" empty_file false
            [hello_txt; data_dir; member "hello.txt" 420 5 REGTYPE] true 0 None.

(** [io.CopyN] from a reader held in memory: the first [n] bytes are
    written, and there is an error when the reader holds fewer. *)
Definition copy_bytes (f : io.MemFile) (r : bytes) (n : Z) : io.MemFile * option error :=
  let data := take (Z.to_nat n) r in
  let '(f', _) := io.Write f data in
  (f', if Z.of_nat (length data) <? n then Some io_EOF else None).

(** The archive after "ustar_long" has been added to [writer]. *)
Definition added : TarFile io.MemFile * result unit :=
  AddFile int64_of_big_amd64 pax_number_fields range_sorted bytes copy_bytes
          USTAR_FORMAT writer ustar_long None.

(** A stand-in for the verb [%q]. *)
Definition quote_plain (name : bytes) : string := string_of_list_ascii name.


(** * Facts *)


Lemma byte_val_range (c : ascii) : 0 <= byte_val c < 256.
Proof.
  unfold byte_val. pose proof (N_ascii_bounded c). lia.
Qed.

Lemma byte_val_inj (a b : ascii) : byte_val a = byte_val b -> a = b.
Proof.
  unfold byte_val. intros E. apply N2Z.inj in E.
  rewrite <- (ascii_N_embedding a), <- (ascii_N_embedding b). by rewrite E.
Qed.

Lemma byte_val_of (n : Z) : 0 <= n < 256 -> byte_val (byte_of n) = n.
Proof.
  intros Hn. unfold byte_val, byte_of.
  rewrite Z.mod_small by lia.
  rewrite N_ascii_embedding; lia.
Qed.

Lemma wrap64_small (z : Z) : - two63 <= z < two63 -> wrap64 z = z.
Proof.
  unfold wrap64, two63, two64. intros Hz.
  rewrite Z.mod_small; lia.
Qed.

Lemma wrap64_range (z : Z) : - two63 <= wrap64 z < two63.
Proof.
  unfold wrap64, two63, two64.
  pose proof (Z.mod_pos_bound (z + 2 ^ 63) (2 ^ 64)). lia.
Qed.


Lemma total_app l1 l2 : total (l1 ++ l2) = total l1 + total l2.
Proof. unfold total. induction l1; simpl; lia. Qed.

Lemma total_imap_bound (f : nat -> ascii -> Z) (buf : bytes) :
  (forall i b, 0 <= f i b <= 255) ->
  0 <= total (imap f buf) <= 255 * Z.of_nat (length buf).
Proof.
  revert f. induction buf as [|b t IH]; intros f Hf; simpl; [lia|].
  specialize (IH (f ∘ S)). 
  assert (Hs : forall i b, 0 <= (f ∘ S) i b <= 255) by (intros; apply Hf).
  specialize (IH Hs). specialize (Hf 0%nat b). unfold total in *. lia.
Qed.

Lemma counted_range i b : 0 <= counted 0 i b <= 255.
Proof. unfold counted. pose proof (byte_val_range b). destruct in_chksum_field; lia. Qed.

Lemma calcChecksum_from_sum (buf : bytes) (i : nat) (acc : Z) :
  0 <= acc -> acc + 255 * Z.of_nat (length buf) < two63 ->
  calcChecksum_from i buf acc
  = acc + total (imap (fun j => counted 0 (i + j)) buf).
Proof.
  revert i acc. induction buf as [|b t IH]; intros i acc H0 Hb.
  - unfold total; simpl; lia.
  - pose proof (byte_val_range b) as Hr.
    cbn [calcChecksum_from]. rewrite imap_cons.
    change ((148 <=? i)%nat && (i <? 156)%nat) with (in_chksum_field i).
    rewrite (imap_ext _ (fun j => counted 0 (S i + j))); last first.
    { intros j x _. cbn [compose]. f_equal. lia. }
    rewrite Nat.add_0_r.
    assert (Hc : counted 0 i b = if in_chksum_field i then 0 else byte_val b) by done.
    rewrite length_cons in Hb. unfold two63 in *.
    change (total (counted 0 i b :: ?l)) with (counted 0 i b + total l).
    rewrite Hc. destruct (in_chksum_field i).
    + rewrite IH; [lia | lia | unfold two63; lia].
    + rewrite wrap64_small by (unfold two63; lia).
      rewrite IH; [lia | lia | unfold two63; lia].
Qed.

Lemma calcChecksum_sum (buf : bytes) :
  Z.of_nat (length buf) < 2 ^ 40 ->
  calcChecksum buf = 256 + header_sum 0 buf.
Proof.
  intros Hl. unfold calcChecksum, header_sum.
  rewrite calcChecksum_from_sum; [done | lia | unfold two63; lia].
Qed.

(** Octal text *)


Lemma digits_of_app fuel base n acc :
  digits_of fuel base n acc = digits_of fuel base n [] ++ acc.
Proof.
  revert n acc. induction fuel as [|k IH]; intros n acc; cbn [digits_of]; [done|].
  destruct (n <=? 0); [done|].
  rewrite (IH _ (_ :: acc)), (IH _ [_]). by rewrite <- app_assoc.
Qed.

Lemma digits_of_octal fuel n : Forall is_octal (digits_of fuel 8 n []).
Proof.
  revert n. induction fuel as [|k IH]; intros n; cbn [digits_of]; [constructor|].
  destruct (n <=? 0); [constructor|].
  rewrite digits_of_app. apply Forall_app. split; [apply IH|].
  constructor; [|constructor]. unfold is_octal.
  pose proof (Z.mod_pos_bound n 8). rewrite byte_val_of; lia.
Qed.

Lemma digits_of_length fuel base n k :
  2 <= base -> 0 <= n < base ^ Z.of_nat k ->
  (length (digits_of fuel base n []) <= k)%nat.
Proof.
  intros Hb. revert n k. induction fuel as [|f IH]; intros n k Hn; cbn [digits_of].
  - simpl. lia.
  - destruct (Z.leb_spec n 0); [simpl; lia|].
    rewrite digits_of_app, length_app. cbn [length].
    destruct k as [|k]; [simpl in Hn; lia|].
    specialize (IH (n / base) k).
    rewrite Nat2Z.inj_succ, Z.pow_succ_r in Hn by lia.
    assert (0 <= n / base < base ^ Z.of_nat k).
    { split; [apply Z.div_pos; lia|]. apply Z.div_lt_upper_bound; lia. }
    specialize (IH H0). lia.
Qed.

Lemma parse_digits_app base x y a :
  parse_digits base (x ++ y) a
  = match parse_digits base x a with Some v => parse_digits base y v | None => None end.
Proof.
  revert a. induction x as [|c x IH]; intros a; cbn [parse_digits app]; [done|].
  destruct (digit_val c); [|done]. destruct (_ <? base); [apply IH|done].
Qed.

Lemma digit_val_of (r : Z) : 0 <= r < 10 -> digit_val (byte_of (48 + r)) = Some r.
Proof.
  intros Hr. unfold digit_val, between. rewrite byte_val_of by lia.
  replace (48 <=? 48 + r) with true by lia.
  replace (48 + r <=? 57) with true by lia. simpl. f_equal. lia.
Qed.

Lemma parse_digits_of fuel base n a :
  2 <= base <= 10 -> 0 <= n < base ^ Z.of_nat fuel ->
  parse_digits base (digits_of fuel base n []) a
  = Some (a * base ^ Z.of_nat (length (digits_of fuel base n [])) + n).
Proof.
  intros Hb. revert n a. induction fuel as [|k IH]; intros n a Hn; cbn [digits_of].
  - simpl in *. f_equal. lia.
  - destruct (Z.leb_spec n 0); [simpl; f_equal; lia|].
    rewrite Nat2Z.inj_succ, Z.pow_succ_r in Hn by lia.
    assert (Hq : 0 <= n / base < base ^ Z.of_nat k).
    { split; [apply Z.div_pos; lia|]. apply Z.div_lt_upper_bound; lia. }
    rewrite digits_of_app, parse_digits_app, (IH _ _ Hq).
    cbn [parse_digits]. pose proof (Z.mod_pos_bound n base).
    rewrite digit_val_of by lia.
    replace (n mod base <? base) with true by lia.
    rewrite length_app. cbn [length].
    rewrite Nat2Z.inj_add, Z.pow_add_r by lia. f_equal.
    change (Z.of_nat 1) with 1. rewrite Z.pow_1_r.
    pose proof (Z.div_mod n base). lia.
Qed.

Lemma parse_digits_zeros base k s :
  2 <= base -> parse_digits base (replicate k "0"%char ++ s) 0 = parse_digits base s 0.
Proof.
  intros Hb. induction k as [|k IH]; [done|].
  cbn [replicate app parse_digits]. 
  change (digit_val "0") with (Some 0). cbv beta iota.
  replace (0 <? base) with true by lia. rewrite Z.mul_0_l. apply IH.
Qed.

Lemma natural_octal n : Forall is_octal (natural 8 n).
Proof.
  unfold natural. pose proof (digits_of_octal 64 n).
  destruct (digits_of 64 8 n []); [|done].
  constructor; [|constructor]. unfold is_octal. by vm_compute.
Qed.

Lemma natural_nonempty base n : natural base n <> [].
Proof. unfold natural. destruct (digits_of 64 base n []); done. Qed.

Lemma natural_parse base n :
  2 <= base <= 10 -> 0 <= n < two64 -> parse_digits base (natural base n) 0 = Some n.
Proof.
  intros Hb Hn. unfold natural.
  assert (Hf : 0 <= n < base ^ Z.of_nat 64).
  { split; [lia|]. eapply Z.lt_le_trans; [apply Hn|].
    transitivity (2 ^ Z.of_nat 64); [by vm_compute|].
    apply Z.pow_le_mono_l. lia. }
  pose proof (parse_digits_of 64 base n 0 Hb Hf) as Hp.
  destruct (digits_of 64 base n []) eqn:E; [|rewrite Hp; f_equal; lia].
  simpl in Hp. injection Hp as Hp. assert (n = 0) by lia. subst n.
  change (bs "0") with ["0"%char]. cbn [parse_digits].
  change (digit_val "0") with (Some 0). cbv beta iota.
  by replace (0 <? base) with true by lia.
Qed.

Lemma Sprintf_0o_octal w n : Forall is_octal (Sprintf_0o w n).
Proof.
  unfold Sprintf_0o. apply Forall_app. split; [|apply natural_octal].
  apply Forall_replicate. unfold is_octal. by vm_compute.
Qed.

Lemma Sprintf_0o_nonempty w n : Sprintf_0o w n <> [].
Proof.
  unfold Sprintf_0o. pose proof (natural_nonempty 8 n).
  destruct (natural 8 n); [done|]. by destruct (replicate _ _).
Qed.

Lemma Sprintf_0o_parse w n :
  0 <= n < two64 -> parse_digits 8 (Sprintf_0o w n) 0 = Some n.
Proof.
  intros Hn. unfold Sprintf_0o.
  rewrite parse_digits_zeros by lia. apply natural_parse; lia.
Qed.

Lemma Sprintf_0o_length w n :
  0 <= n < 8 ^ w -> 1 <= w -> length (Sprintf_0o w n) = Z.to_nat w.
Proof.
  intros Hn Hw. unfold Sprintf_0o. rewrite length_app, length_replicate.
  assert (length (natural 8 n) <= Z.to_nat w)%nat; [|lia].
  unfold natural.
  pose proof (digits_of_length 64 8 n (Z.to_nat w)) as Hl.
  rewrite Z2Nat.id in Hl by lia. specialize (Hl ltac:(lia) Hn).
  destruct (digits_of 64 8 n []); [simpl; lia | done].
Qed.

Lemma octal_not_space c :
  is_octal c -> (RuneSelf <=? byte_val c) = false /\ asciiSpace c = false.
Proof.
  unfold is_octal, asciiSpace, between, RuneSelf. intros Hc. split; [lia|].
  replace (byte_val c <=? 13) with false by lia.
  replace (byte_val c =? 32) with false by lia.
  by rewrite andb_false_r.
Qed.

Lemma TrimSpace_octal s : Forall is_octal s -> TrimSpace s = s.
Proof.
  intros Hs. unfold TrimSpace. destruct s as [|c t]; [done|].
  cbn [trim_start]. apply Forall_cons in Hs as Hs'. destruct Hs' as [Hc _].
  destruct (octal_not_space c Hc) as [-> ->].
  cbn [length trim_stop].
  destruct (last (c :: t)) as [x|] eqn:El.
  - apply last_Some in El as [l' El]. 
    assert (Hx : is_octal x).
    { rewrite El in Hs. apply Forall_app in Hs as [_ Hx]. by apply Forall_cons in Hx as [Hx _]. }
    by destruct (octal_not_space x Hx) as [-> ->].
  - by apply last_None in El.
Qed.

Lemma IndexByte_octal d r :
  Forall is_octal d -> IndexByte (d ++ NUL :: r) NUL = Some (length d).
Proof.
  induction 1 as [|c d Hc Hd IH]; [done|].
  cbn [app IndexByte length]. 
  replace (byte_eqb c NUL) with false; [by rewrite IH|].
  symmetry. apply Ascii.eqb_neq. intros ->. unfold is_octal in Hc. by vm_compute in Hc; destruct Hc.
Qed.

Lemma nti_octal_field d r n :
  Forall is_octal d -> d <> [] -> parse_digits 8 d 0 = Some n -> 0 <= n < two63 ->
  nti (d ++ NUL :: r) = Ok n.
Proof.
  intros Hd Hne Hp Hn. unfold nti.
  destruct d as [|c t]; [done|]. cbn [app].
  apply Forall_cons in Hd as Hd'. destruct Hd' as [Hc _].
  unfold is_octal in Hc.
  replace (byte_val c =? 128) with false by lia.
  replace (byte_val c =? 255) with false by lia. cbn [orb].
  unfold nts. change (c :: t ++ NUL :: r) with ((c :: t) ++ NUL :: r).
  rewrite IndexByte_octal by done. rewrite take_app_length.
  rewrite TrimSpace_octal by done.
  unfold ParseInt. 
  replace (byte_eqb c "+") with false; last first.
  { symmetry. apply Ascii.eqb_neq. intros ->. by vm_compute in Hc; destruct Hc. }
  replace (byte_eqb c "-") with false; last first.
  { symmetry. apply Ascii.eqb_neq. intros ->. by vm_compute in Hc; destruct Hc. }
  cbn [orb negb andb]. unfold ParseUint. rewrite Hp.
  replace (n <? two64) with true by (unfold two63, two64 in *; lia).
  replace (two63 <=? n) with false by lia. done.
Qed.

Lemma nti_Sprintf_0o w n r :
  0 <= n < two63 -> nti (Sprintf_0o w n ++ NUL :: r) = Ok n.
Proof.
  intros Hn. apply nti_octal_field; [apply Sprintf_0o_octal | apply Sprintf_0o_nonempty | | done].
  apply Sprintf_0o_parse. unfold two63, two64 in *. lia.
Qed.

Lemma nti_nonempty_not_panic s m : s <> [] -> nti s <> Panic m.
Proof.
  intros Hs. unfold nti. destruct s as [|c t]; [done|].
  destruct (_ || _); [done|]. destruct (TrimSpace _); [done|].
  by destruct (ParseInt _ _).
Qed.

Lemma nti_err s e : nti s = Err e -> e = InvalidHeaderError "invalid number field".
Proof.
  unfold nti. destruct s as [|c t]; [done|].
  destruct (_ || _); [done|]. destruct (TrimSpace _); [done|].
  destruct (ParseInt _ _); [done|]. by intros [= <-].
Qed.

(** Result monad *)
Lemma bind_Ok {A B} (e : result A) (k : A -> result B) (b : B) :
  (e ≫= k) = Ok b -> exists a, e = Ok a /\ k a = Ok b.
Proof. destruct e; [eauto | done | done]. Qed.

Lemma wrap_err_Ok {A} p (r : result A) a : wrap_err p r = Ok a -> r = Ok a.
Proof. by destruct r. Qed.

Tactic Notation "bind_ok" hyp(H) "as" ident(a) ident(E) :=
  apply bind_Ok in H as (a & E & H); try apply wrap_err_Ok in E.

(** Sums over a block *)

Lemma total_imap_insert (f : nat -> ascii -> Z) (l : bytes) (i : nat) (old v : ascii) :
  l !! i = Some old ->
  total (imap f (<[i:=v]> l)) = total (imap f l) - f i old + f i v.
Proof.
  revert f i. induction l as [|x l IH]; intros f i Hi; [done|].
  destruct i as [|i].
  - injection Hi as ->. change (<[0%nat:=v]> (old :: l)) with (v :: l). rewrite !imap_cons.
    change (total (?a :: ?r)) with (a + total r). lia.
  - change (<[S i:=v]> (x :: l)) with (x :: <[i:=v]> l). rewrite !imap_cons.
    change (total (?a :: ?r)) with (a + total r).
    rewrite IH by done. cbn [compose]. lia.
Qed.

Lemma header_sum_insert buf i old v :
  buf !! i = Some old -> in_chksum_field i = false ->
  header_sum 0 (<[i:=v]> buf) = header_sum 0 buf - byte_val old + byte_val v.
Proof.
  intros Hi Hf. unfold header_sum. rewrite (total_imap_insert _ _ _ old) by done.
  unfold counted. by rewrite Hf.
Qed.

Lemma total_imap_zero (f : nat -> ascii -> Z) (l : bytes) :
  (forall i b, (i < length l)%nat -> f i b = 0) -> total (imap f l) = 0.
Proof.
  revert f. induction l as [|x l IH]; intros f Hf; [done|].
  rewrite imap_cons. change (total (?a :: ?r)) with (a + total r).
  rewrite Hf by (simpl; lia). rewrite IH; [done|].
  intros i b Hi. apply Hf. simpl. lia.
Qed.

Lemma header_sum_parts (c : Z) (l1 l2 l3 : bytes) :
  length l1 = 148%nat -> length l2 = 8%nat ->
  header_sum c (l1 ++ l2 ++ l3)
  = total (imap (counted 0) l1) + 8 * c
    + total (imap (fun n => counted 0 (148 + (8 + n))) l3).
Proof.
  intros H1 H2. unfold header_sum. rewrite !imap_app, !total_app, H1, H2.
  assert (E1 : total (imap (counted c) l1) = total (imap (counted 0) l1)).
  { f_equal. apply imap_ext. intros i b Hi.
    apply lookup_lt_Some in Hi. unfold counted, in_chksum_field.
    destruct (Nat.leb_spec 148 i); [lia | done]. }
  assert (E3 : total (imap (fun n => counted c (148 + (8 + n))) l3)
               = total (imap (fun n => counted 0 (148 + (8 + n))) l3)).
  { reflexivity. }
  assert (E2 : total (imap (fun n => counted c (148 + n)) l2) = 8 * c).
  { do 8 (destruct l2 as [|? l2]; [done|]). destruct l2; [|done].
    unfold total, counted, in_chksum_field. simpl. lia. }
  rewrite E1, E2, E3. lia.
Qed.

Lemma block_parts (buf : bytes) :
  (156 <= length buf)%nat ->
  buf = take 148 buf ++ take 8 (drop 148 buf) ++ drop 156 buf
  /\ length (take 148 buf) = 148%nat /\ length (take 8 (drop 148 buf)) = 8%nat.
Proof.
  intros Hl. split; [|split].
  - assert (drop 156 buf = drop 8 (drop 148 buf)) as -> by (by rewrite drop_drop).
    by rewrite !take_drop.
  - rewrite length_take; lia.
  - rewrite length_take, length_drop; lia.
Qed.

Lemma header_sum_field_free (buf x : bytes) (c : Z) :
  (156 <= length buf)%nat -> length x = 8%nat ->
  header_sum c (take 148 buf ++ x ++ drop 156 buf) = header_sum 0 buf + 8 * c.
Proof.
  intros Hl Hx. destruct (block_parts buf Hl) as (E & H1 & H2).
  rewrite E at 3. rewrite !header_sum_parts by done. lia.
Qed.

Lemma header_sum_blank (buf : bytes) :
  (156 <= length buf)%nat -> header_sum 32 buf = header_sum 0 buf + 256.
Proof.
  intros Hl. destruct (block_parts buf Hl) as (E & H1 & H2).
  rewrite E at 1. rewrite header_sum_field_free; [lia | done | done].
Qed.

(** FromBuf and the checksum *)

Lemma slice_length (b : bytes) lo hi :
  (lo <= hi)%nat -> (hi <= length b)%nat -> length (slice b lo hi) = (hi - lo)%nat.
Proof. intros. unfold slice. rewrite length_take, length_drop. lia. Qed.

Lemma FromBuf_bad_checksum (buf : bytes) :
  length buf = 512%nat -> Count buf NUL <> 512%nat ->
  nti (slice buf 148 156) <> Ok (calcChecksum buf) ->
  exists msg, FromBuf buf = Err (InvalidHeaderError msg).
Proof.
  intros Hl Hn Hc. unfold FromBuf. rewrite Hl.
  change (512 =? 0)%nat with false. change (512 =? BLOCKSIZE)%nat with true.
  cbn [negb]. cbv iota.
  destruct (Nat.eqb_spec (Count buf NUL) BLOCKSIZE) as [E|_]; [done|].
  destruct (nti (slice buf 148 156)) as [c|e|m] eqn:E; unfold mbind, result_bind.
  - destruct (Z.eqb_spec c (calcChecksum buf)) as [->|Hne]; [done|].
    cbn [negb]. eauto.
  - apply nti_err in E as ->. eauto.
  - exfalso. eapply nti_nonempty_not_panic; [|exact E].
    intros E0. apply (f_equal length) in E0. rewrite slice_length in E0; simpl in *; lia.
Qed.

Lemma FromBuf_checksum_mismatch (buf : bytes) (c : Z) :
  length buf = 512%nat -> Count buf NUL <> 512%nat ->
  nti (slice buf 148 156) = Ok c -> c <> calcChecksum buf ->
  FromBuf buf = Err (InvalidHeaderError "bad checksum").
Proof.
  intros Hl Hn Hc Hne. unfold FromBuf. rewrite Hl.
  change (512 =? 0)%nat with false. change (512 =? BLOCKSIZE)%nat with true.
  cbn [negb]. cbv iota.
  destruct (Nat.eqb_spec (Count buf NUL) BLOCKSIZE) as [E|_]; [done|].
  rewrite Hc. unfold mbind, result_bind.
  by destruct (Z.eqb_spec c (calcChecksum buf)).
Qed.

Lemma Count_not_full (s : bytes) (i : nat) (c : ascii) :
  s !! i = Some c -> c <> NUL -> Count s NUL <> length s.
Proof.
  intros Hi Hc. unfold Count.
  assert (length (filter (fun x => byte_eqb x NUL = true) s) < length s)%nat; [|lia].
  apply (length_filter_lt _ _ c).
  - eapply list_elem_of_lookup_2. exact Hi.
  - intros E. by apply Ascii.eqb_eq in E.
Qed.

Lemma calcChecksum_bound (buf : bytes) :
  length buf = 512%nat -> 256 <= calcChecksum buf < 8 ^ 6.
Proof.
  intros Hl. rewrite calcChecksum_sum by (rewrite Hl; lia).
  unfold header_sum.
  pose proof (total_imap_bound (counted 0) buf counted_range) as Hb.
  rewrite Hl in Hb. lia.
Qed.


Lemma checksum_text_length (buf : bytes) :
  length buf = 512%nat -> length (checksum_text buf) = 8%nat.
Proof.
  intros Hl. unfold checksum_text. rewrite length_app.
  rewrite Sprintf_0o_length; [done | | lia].
  pose proof (calcChecksum_bound buf Hl). lia.
Qed.

Lemma seal_block (buf : bytes) :
  length buf = 512%nat ->
  seal buf = take 148 buf ++ checksum_text buf ++ drop 156 buf.
Proof.
  intros Hl. unfold seal. fold (checksum_text buf).
  pose proof (checksum_text_length buf Hl) as Hc. rewrite Hc.
  change (148 + 8)%nat with 156%nat.
  set (w := take 148 buf ++ checksum_text buf ++ drop 156 buf).
  assert (Hw : length w = 512%nat).
  { unfold w. rewrite !length_app, length_take, length_drop, Hc. lia. }
  assert (take 156 w ++ drop 156 w = w) as -> by apply take_drop.
  unfold BLOCKSIZE. rewrite <- Hw. apply firstn_all.
Qed.

Lemma seal_length (buf : bytes) : length buf = 512%nat -> length (seal buf) = 512%nat.
Proof.
  intros Hl. rewrite seal_block by done.
  rewrite !length_app, length_take, length_drop, checksum_text_length by done. lia.
Qed.

Lemma seal_checksum (buf : bytes) :
  length buf = 512%nat -> calcChecksum (seal buf) = calcChecksum buf.
Proof.
  intros Hl. rewrite (calcChecksum_sum (seal buf)) by (rewrite seal_length by done; lia).
  rewrite (calcChecksum_sum buf) by (rewrite Hl; lia).
  rewrite seal_block by done.
  rewrite header_sum_field_free; [lia | lia | by apply checksum_text_length].
Qed.

Lemma seal_field (buf : bytes) :
  length buf = 512%nat -> slice (seal buf) 148 156 = checksum_text buf.
Proof.
  intros Hl. rewrite seal_block by done. unfold slice.
  rewrite drop_app_length' by (rewrite length_take; lia).
  change (156 - 148)%nat with 8%nat.
  rewrite take_app_length'; [done | by rewrite checksum_text_length].
Qed.

Lemma slice_insert_outside (b : bytes) i v :
  in_chksum_field i = false -> slice (<[i:=v]> b) 148 156 = slice b 148 156.
Proof.
  intros Hf. unfold slice, in_chksum_field in *.
  destruct (Nat.leb_spec 148 i) as [H1|H1].
  - destruct (Nat.ltb_spec i 156) as [H2|H2]; [done|].
    rewrite drop_insert_ge by lia. rewrite take_insert_ge by lia. done.
  - by rewrite drop_insert_lt by lia.
Qed.

Lemma sealed_block_tamper (buf : bytes) (i : nat) (old v : ascii) :
  length buf = 512%nat ->
  seal buf !! i = Some old -> in_chksum_field i = false -> v <> old ->
  FromBuf (<[i:=v]> (seal buf)) = Err (InvalidHeaderError "bad checksum").
Proof.
  intros Hl Hi Hf Hv.
  pose proof (seal_length buf Hl) as Hs.
  pose proof (calcChecksum_bound buf Hl) as Hb.
  apply (FromBuf_checksum_mismatch _ (calcChecksum buf)).
  - by rewrite length_insert.
  - rewrite <- Hs, <- (length_insert (seal buf) i v).
    assert (Hd : exists d, seal buf !! 148%nat = Some d /\ d <> NUL).
    { pose proof (seal_field buf Hl) as Hfld. unfold slice, checksum_text in Hfld.
      pose proof (Sprintf_0o_octal 6 (calcChecksum buf)) as Ho.
      pose proof (Sprintf_0o_nonempty 6 (calcChecksum buf)) as Hne.
      destruct (Sprintf_0o 6 (calcChecksum buf)) as [|d ds]; [done|].
      exists d. split.
      - apply (f_equal (fun l => l !! 0%nat)) in Hfld.
        rewrite lookup_take_lt, lookup_drop in Hfld by lia. by rewrite Nat.add_0_r in Hfld.
      - apply Forall_cons in Ho as [Ho _]. intros ->. unfold is_octal in Ho.
        by vm_compute in Ho; destruct Ho. }
    destruct Hd as (d & Hd & Hnz).
    apply (Count_not_full _ 148 d); [|done].
    rewrite list_lookup_insert_ne; [done|].
    intros ->. by vm_compute in Hf.
  - rewrite slice_insert_outside, seal_field by done.
    unfold checksum_text. apply nti_Sprintf_0o. unfold two63. lia.
  - rewrite (calcChecksum_sum (<[i:=v]> (seal buf))) by (rewrite length_insert, Hs; lia).
    rewrite (header_sum_insert _ _ old) by done.
    rewrite <- (seal_checksum buf Hl).
    rewrite (calcChecksum_sum (seal buf)) by (rewrite Hs; lia).
    intros E. apply Hv. apply byte_val_inj. lia.
Qed.

Lemma as_string_Ok v s : as_string v = Ok s -> v = Some (VString s).
Proof. destruct v as [[]|]; try done. by intros [= ->]. Qed.
Lemma as_int_Ok v n : as_int v = Ok n -> v = Some (VInt n).
Proof. destruct v as [[]|]; try done. by intros [= ->]. Qed.
Lemma as_int64_Ok v n : as_int64 v = Ok n -> v = Some (VInt64 n).
Proof. destruct v as [[]|]; try done. by intros [= ->]. Qed.

(** Shape of createHeader's output *)
Section Shape.
Variable c : Z -> Z.

Lemma stn_length (s : bytes) (n : nat) : length (stn s n) = n.
Proof. unfold stn, zeros. rewrite length_app, length_replicate, length_take. lia. Qed.

Lemma base256_length k n acc : length (base256 k n acc) = (k + length acc)%nat.
Proof.
  revert n acc. induction k as [|k IH]; intros n acc; cbn [base256]; [done|].
  rewrite IH. simpl. lia.
Qed.

Lemma itn_length n d fmt p :
  d = 8 \/ d = 12 -> itn c n d fmt = Ok p -> length p = Z.to_nat d.
Proof.
  intros Hd. unfold itn.
  assert (Hp : pow_int64 c 8 (d - 1) = 8 ^ (d - 1)) by (destruct Hd as [-> | ->]; reflexivity).
  rewrite Hp.
  destruct (Z.leb_spec 0 n) as [H0|H0]; cbn [andb].
  - destruct (Z.ltb_spec n (8 ^ (d - 1))) as [H1|H1].
    + intros [= <-]. rewrite length_app, Sprintf_0o_length by lia. simpl. lia.
    + destruct (_ && _ && _); [|done].
      replace (d <? 0) with false by lia. replace (d =? 0) with false by lia.
      intros [= <-]. cbn [length]. rewrite base256_length. simpl. lia.
  - destruct (_ && _ && _); [|done].
    replace (d <? 0) with false by lia. replace (d =? 0) with false by lia.
    intros [= <-]. cbn [length]. rewrite base256_length. simpl. lia.
Qed.

Lemma createHeader_sealed (info : gmap string value) (fmt : Z) (b : bytes) :
  createHeader c info fmt = Ok b ->
  (forall t, info !! "type" = Some (VString t) -> length t = 1%nat) ->
  (forall m, info !! "magic" = Some (VString m) -> (length m <= 8)%nat) ->
  exists buf, length buf = 512%nat /\ b = seal buf.
Proof.
  intros Hc Ht Hm. unfold createHeader in Hc.
  bind_ok Hc as dev Edev. bind_ok Hc as filetype Etype. bind_ok Hc as name Ename.
  bind_ok Hc as mode Emode. bind_ok Hc as p1 Ep1.
  bind_ok Hc as uid Euid. bind_ok Hc as p2 Ep2.
  bind_ok Hc as gid Egid. bind_ok Hc as p3 Ep3.
  bind_ok Hc as size Esize. bind_ok Hc as p4 Ep4.
  bind_ok Hc as mtime Emtime. bind_ok Hc as p5 Ep5.
  bind_ok Hc as linkname Elink. bind_ok Hc as magic Emagic.
  bind_ok Hc as uname Euname. bind_ok Hc as gname Egname.
  bind_ok Hc as prefix Eprefix.
  injection Hc as <-. eexists. split; [|reflexivity].
  assert (Hft : length filetype = 1%nat).
  { apply Ht. by apply as_string_Ok. }
  assert (Hmg : (length magic <= 8)%nat).
  { apply Hm. by apply as_string_Ok. }
  assert (Hdev : length (fst dev) = 8%nat /\ length (snd dev) = 8%nat).
  { destruct (_ || _).
    - bind_ok Edev as major Emaj. bind_ok Edev as d1 Ed1.
      bind_ok Edev as minor Emin. bind_ok Edev as d2 Ed2. injection Edev as <-.
      split; cbn [fst snd]; eapply (itn_length _ 8); eauto.
    - injection Edev as <-. by vm_compute. }
  destruct Hdev as [Hd1 Hd2].
  apply (itn_length _ 8) in Ep1, Ep2, Ep3; [|by left..].
  apply (itn_length _ 12) in Ep4, Ep5; [|by right..].
  cbv zeta.
  match goal with
  | |- length (?x ++ zeros _) = _ => assert (Hcat : (length x <= 500)%nat)
  end.
  { repeat (rewrite length_app || rewrite length_cons).
    rewrite !stn_length, Ep1, Ep2, Ep3, Ep4, Ep5, Hft, Hd1, Hd2.
    change (Z.to_nat 8) with 8%nat. change (Z.to_nat 12) with 12%nat.
    change (length []) with 0%nat. lia. }
  rewrite length_app. unfold zeros, BLOCKSIZE. rewrite length_replicate. lia.
Qed.

Lemma createHeader_prefix (info : gmap string value) (fmt : Z) (b : bytes) :
  createHeader c info fmt = Ok b -> exists p, info !! "prefix" = Some (VString p).
Proof.
  intros Hc. unfold createHeader in Hc.
  do 17 (let a := fresh "v" in let E := fresh "E" in apply bind_Ok in Hc as (a & E & Hc)).
  apply bind_Ok in Hc as (p & Ep & _).
  apply as_string_Ok in Ep. eauto.
Qed.
End Shape.

Section Serialize.
Variable c : Z -> Z.
Variable rf : list (string * Z).
Variable rp : gmap string bytes -> list (string * bytes).

Lemma GetInfo_prefix ti : GetInfo ti !! "prefix" = None.
Proof. reflexivity. Qed.

Lemma GetInfo_type ti : GetInfo ti !! "type" = Some (VString (Type_ ti)).
Proof. reflexivity. Qed.

Lemma createUstarHeader_Ok info b :
  createUstarHeader c info = Ok b ->
  exists info', createHeader c info' USTAR_FORMAT = Ok b
                /\ info' !! "type" = info !! "type"
                /\ info' !! "magic" = Some (VString POSIX_MAGIC).
Proof.
  unfold createUstarHeader. intros Hc.
  bind_ok Hc as linkname El.
  destruct (_ <? _)%nat; [done|].
  bind_ok Hc as name En. bind_ok Hc as info' Ei.
  exists info'. split; [done|].
  destruct (_ <? _)%nat.
  - bind_ok Ei as pr Ep. destruct pr as [prefix rest]. injection Ei as <-.
    by rewrite !lookup_insert_ne, lookup_insert_eq by done.
  - injection Ei as <-. by rewrite lookup_insert_ne, lookup_insert_eq by done.
Qed.

Lemma createGnuHeader_not_Ok info b :
  info !! "prefix" = None -> createGnuHeader c info <> Ok b.
Proof.
  unfold createGnuHeader. intros Hp Hc.
  bind_ok Hc as linkname El. bind_ok Hc as buf Eb.
  bind_ok Hc as name En. bind_ok Hc as buf' Eb'. bind_ok Hc as header Eh.
  apply createHeader_prefix in Eh as [p Ep].
  rewrite lookup_insert_ne in Ep by done. congruence.
Qed.

Lemma pax_number_fold_stuck l (r : result (gmap string value * gmap string bytes)) x :
  (forall y, r <> Ok y) -> fold_left (pax_number_step c) l r <> Ok x.
Proof.
  revert r. induction l as [|f l IH]; intros r Hr; cbn [fold_left]; [apply Hr|].
  apply IH. intros y. destruct r as [y'|e|m]; [by destruct (Hr y') | done | done].
Qed.

Lemma pax_number_fold_prefix l info pax info' pax' :
  fold_left (pax_number_step c) l (Ok (info, pax)) = Ok (info', pax') ->
  info !! "prefix" = None -> info' !! "prefix" = None.
Proof.
  revert info pax. induction l as [|[name digits] l IH]; intros info pax Hf Hp.
  - by injection Hf as <- <-.
  - cbn [fold_left] in Hf.
    destruct (pax_number_step c (Ok (info, pax)) (name, digits)) as [[i1 p1]|e|m] eqn:Es.
    + apply (IH _ _ Hf). unfold pax_number_step in Es. cbn in Es.
      case_bool_decide; [by injection Es as <- <-|].
      destruct (as_int (info !! name)) as [val| |] eqn:Ev; [|done..].
      apply as_int_Ok in Ev. cbn in Es.
      destruct (_ || _); injection Es as <- <-; [|done].
      rewrite lookup_insert_ne; [done|]. intros ->. congruence.
    + exfalso. by eapply pax_number_fold_stuck; [|exact Hf].
    + exfalso. by eapply pax_number_fold_stuck; [|exact Hf].
Qed.

Lemma createPaxHeader_not_Ok ti info b :
  info !! "prefix" = None -> createPaxHeader c rf rp ti info <> Ok b.
Proof.
  unfold createPaxHeader. intros Hp Hc.
  bind_ok Hc as pax Epax. bind_ok Hc as st Est. destruct st as [info1 pax1].
  bind_ok Hc as mtime Em.
  apply pax_number_fold_prefix in Est; [|by rewrite lookup_insert_ne by done].
  destruct (_ || _).
  - bind_ok Hc as buf Eb. bind_ok Hc as header Eh.
    apply createHeader_prefix in Eh as [p Ep].
    rewrite lookup_insert_ne in Ep by done. congruence.
  - bind_ok Hc as buf Eb. bind_ok Hc as header Eh.
    apply createHeader_prefix in Eh as [p Ep]. congruence.
Qed.

Lemma ToBuf_Ok_sealed ti fmt blk :
  length (Type_ ti) = 1%nat -> ToBuf c rf rp ti fmt = Ok blk ->
  exists buf, length buf = 512%nat /\ blk = seal buf.
Proof.
  intros Ht. unfold ToBuf.
  destruct (fmt =? USTAR_FORMAT).
  - intros Hc. apply createUstarHeader_Ok in Hc as (info' & Hc & Hty & Hmg).
    apply createHeader_sealed in Hc; [done| |].
    + intros t Et. rewrite Hty, GetInfo_type in Et. injection Et as Et. by rewrite <- Et.
    + intros m Em. rewrite Hmg in Em. injection Em as Em. rewrite <- Em. vm_compute. lia.
  - destruct (fmt =? GNU_FORMAT).
    + intros Hc. by apply createGnuHeader_not_Ok in Hc.
    + destruct (fmt =? PAX_FORMAT); [|done].
      intros Hc. by apply createPaxHeader_not_Ok in Hc.
Qed.

(** C4 (as amended).  For every block that serializing a header record
    whose type tag is one byte gives, the block has 512 bytes and, for
    every offset outside the checksum field (outside 148..155), changing
    the byte at that offset to any other value makes decoding the block
    fail with InvalidHeader ("bad checksum"). *)
Theorem tamper_detected ti fmt blk (i : nat) (old v : ascii) :
  length (Type_ ti) = 1%nat ->
  ToBuf c rf rp ti fmt = Ok blk ->
  blk !! i = Some old -> in_chksum_field i = false -> v <> old ->
  length blk = 512%nat
  /\ FromBuf (<[i:=v]> blk) = Err (InvalidHeaderError "bad checksum").
Proof.
  intros Ht Hc Hi Hf Hv.
  destruct (ToBuf_Ok_sealed ti fmt blk Ht Hc) as (buf & Hl & ->).
  split; [by apply seal_length|]. by apply (sealed_block_tamper buf i old v).
Qed.
End Serialize.




Lemma Split_nonempty s : Split s <> [].
Proof.
  destruct s as [|c t]; [done|]. cbn [Split].
  destruct (byte_eqb c "/"); [done|]. by destruct (Split t).
Qed.

Lemma Join_Split s : Join (Split s) = s.
Proof.
  induction s as [|c t IH]; [done|]. cbn [Split].
  destruct (byte_eqb c "/") eqn:E.
  - apply Ascii.eqb_eq in E as ->.
    pose proof (Split_nonempty t) as Hn.
    destruct (Split t) as [|h r] eqn:Es; [done|].
    cbn [Join app]. cbn [Join] in IH. by rewrite IH.
  - pose proof (Split_nonempty t) as Hn.
    destruct (Split t) as [|h r] eqn:Es; [done|].
    destruct r as [|h2 r]; cbn [Join app] in *; by rewrite IH.
Qed.

Lemma Join_app (l1 l2 : list bytes) :
  l1 <> [] -> l2 <> [] -> Join (l1 ++ l2) = Join l1 ++ "/"%char :: Join l2.
Proof.
  intros H1 H2. induction l1 as [|a l1 IH]; [done|].
  destruct l1 as [|b l1].
  - destruct l2 as [|x l2]; [done|]. done.
  - change ((a :: b :: l1) ++ l2) with (a :: (b :: l1) ++ l2).
    change (Join (a :: (b :: l1) ++ l2)) with (a ++ "/"%char :: Join ((b :: l1) ++ l2)).
    rewrite IH by done. change (Join (a :: b :: l1)) with (a ++ "/"%char :: Join (b :: l1)).
    by rewrite <- app_assoc.
Qed.

Lemma Split_app p r : Split (p ++ "/"%char :: r) = Split p ++ Split r.
Proof.
  induction p as [|c p IH]; [done|].
  cbn [app Split]. rewrite IH.
  destruct (byte_eqb c "/"); [done|].
  pose proof (Split_nonempty p).
  by destruct (Split p).
Qed.

Lemma Join_take_drop (comps : list bytes) (i : nat) :
  (0 < i < length comps)%nat ->
  Join (take i comps) ++ "/"%char :: Join (drop i comps) = Join comps.
Proof.
  intros Hi. rewrite <- (take_drop i comps) at 3.
  rewrite Join_app; [done| |].
  - intros E. apply (f_equal length) in E. rewrite length_take in E. simpl in E. lia.
  - intros E. apply (f_equal length) in E. rewrite length_drop in E. simpl in E. lia.
Qed.

Lemma Join_take_mono (comps : list bytes) (i j : nat) :
  (i <= j)%nat -> (length (Join (take i comps)) <= length (Join (take j comps)))%nat.
Proof.
  revert i j. induction comps as [|a l IH]; intros i j Hij.
  - by rewrite !take_nil.
  - destruct i as [|i]; [simpl; lia|]. destruct j as [|j]; [lia|].
    cbn [take]. specialize (IH i j ltac:(lia)).
    destruct (take i l) as [|x xs] eqn:Ei; destruct (take j l) as [|y ys] eqn:Ej.
    + done.
    + cbn [Join]. rewrite length_app. lia.
    + exfalso. 
      assert (length (take i l) <= length (take j l))%nat.
      { rewrite !length_take. lia. }
      rewrite Ei, Ej in H. simpl in H. lia.
    + change (Join (a :: x :: xs)) with (a ++ "/"%char :: Join (x :: xs)).
      change (Join (a :: y :: ys)) with (a ++ "/"%char :: Join (y :: ys)).
      rewrite !length_app. cbn [length]. lia.
Qed.

Lemma find_seq_first (f : nat -> bool) (a n i : nat) :
  find f (seq a n) = Some i ->
  (a <= i < a + n)%nat /\ f i = true /\ forall j, (a <= j < i)%nat -> f j = false.
Proof.
  revert a. induction n as [|n IH]; intros a; cbn [seq find]; [done|].
  destruct (f a) eqn:Ea.
  - intros [= <-]. split; [lia|]. split; [done|]. intros j Hj. lia.
  - intros Hf. apply IH in Hf as (Hr & Hi & Hm).
    split; [lia|]. split; [done|]. intros j Hj.
    destruct (decide (j = a)) as [->|]; [done|]. apply Hm. lia.
Qed.

Lemma find_seq_none (f : nat -> bool) (a n : nat) :
  find f (seq a n) = None -> forall j, (a <= j < a + n)%nat -> f j = false.
Proof.
  intros Hf j Hj. eapply find_none in Hf; [exact Hf|].
  apply in_seq. lia.
Qed.


Lemma posixSplitName_unfold name :
  posixSplitName name =
  match find (split_fits (Split name)) (seq 1 (length (Split name) - 1)) with
  | Some i => Ok (Join (take i (Split name)), Join (drop i (Split name)))
  | None => Err (ErrorString "name is too long")
  end.
Proof. reflexivity. Qed.

Lemma split_fits_spec comps i :
  split_fits comps i = true <-> fits (Join (take i comps)) (Join (drop i comps)).
Proof.
  unfold split_fits, fits. rewrite andb_true_iff, !Nat.leb_le. done.
Qed.

(** every split at a slash is one of the candidates of the loop *)
Lemma slash_split_index name p r :
  name = p ++ "/"%char :: r ->
  exists i, (1 <= i < length (Split name))%nat
            /\ Join (take i (Split name)) = p /\ Join (drop i (Split name)) = r.
Proof.
  intros ->. rewrite Split_app. exists (length (Split p)).
  pose proof (Split_nonempty p) as Hp. pose proof (Split_nonempty r) as Hr.
  split.
  - rewrite length_app. destruct (Split p); [done|]. destruct (Split r); [done|]. simpl. lia.
  - rewrite take_app_length, drop_app_length. by rewrite !Join_Split.
Qed.

Lemma posixSplitName_spec (name : bytes) :
  match posixSplitName name with
  | Ok (p, r) =>
      name = p ++ "/"%char :: r /\ fits p r
      /\ forall p' r', name = p' ++ "/"%char :: r' -> fits p' r' ->
                       (length p <= length p')%nat
  | Err e =>
      e = ErrorString "name is too long"
      /\ forall p' r', name = p' ++ "/"%char :: r' -> ~ fits p' r'
  | Panic _ => False
  end.
Proof.
  rewrite posixSplitName_unfold.
  destruct (find _ _) as [i|] eqn:Ef.
  - apply find_seq_first in Ef as (Hr & Hi & Hm).
    pose proof (Split_nonempty name) as Hn.
    assert (Hlen : (0 < i < length (Split name))%nat) by lia.
    split; [|split].
    + by rewrite Join_take_drop, Join_Split.
    + by apply split_fits_spec.
    + intros p' r' Hs Hfit.
      destruct (slash_split_index name p' r' Hs) as (j & Hj & <- & <-).
      destruct (Nat.le_gt_cases i j) as [Hle|Hlt]; [by apply Join_take_mono|].
      apply split_fits_spec in Hfit. rewrite Hm in Hfit; [done|lia].
  - split; [done|]. intros p' r' Hs Hfit.
    destruct (slash_split_index name p' r' Hs) as (j & Hj & <- & <-).
    apply split_fits_spec in Hfit.
    rewrite (find_seq_none _ _ _ Ef) in Hfit; [done|lia].
Qed.






Section ReadPath.
Context {S : Type} `{io.ReadWriteSeeker S}.


End ReadPath.





Section Pax.
Variable c : Z -> Z.
Variable rf : list (string * Z).
Variable rp : gmap string bytes -> list (string * bytes).

Lemma pax_text_step_Ok info pax name hname len n :
  info !! name = Some (VString n) ->
  exists pax', pax_text_step info (Ok pax) (name, hname, len) = Ok pax'.
Proof.
  intros Hn. unfold pax_text_step, mbind, result_bind. rewrite Hn. cbn [as_string].
  cbv beta iota.
  repeat (case_bool_decide || destruct (_ <? _)%nat); eauto.
Qed.

Lemma pax_text_fold_Ok ti pax :
  exists pax',
    fold_left (pax_text_step (<["magic" := VString POSIX_MAGIC]> (GetInfo ti)))
              pax_text_fields (Ok pax) = Ok pax'.
Proof.
  unfold pax_text_fields. cbn [fold_left].
  set (info := <["magic" := VString POSIX_MAGIC]> (GetInfo ti)).
  destruct (pax_text_step_Ok info pax "name" "path" LENGTH_NAME _ eq_refl) as [p1 ->].
  destruct (pax_text_step_Ok info p1 "linkname" "linkpath" LENGTH_LINK _ eq_refl) as [p2 ->].
  destruct (pax_text_step_Ok info p2 "uname" "uname" 32 _ eq_refl) as [p3 ->].
  destruct (pax_text_step_Ok info p3 "gname" "gname" 32 _ eq_refl) as [p4 ->].
  eauto.
Qed.



Lemma pax_number_fold_Panic l m :
  fold_left (pax_number_step c) l (Panic m) = Panic m.
Proof. induction l as [|f l IH]; [done|]. apply IH. Qed.

Lemma pax_number_fold_size l info pax :
  numeric_types info ->
  Forall (fun f => f ∈ pax_number_fields) l -> ("size", 12) ∈ l ->
  fold_left (pax_number_step c) l (Ok (info, pax)) = Panic int64_not_int.
Proof.
  revert info pax. induction l as [|f l IH]; intros info pax Hty Hall Hin.
  { by apply elem_of_nil in Hin. }
  apply Forall_cons in Hall as [Hf Hall]. cbn [fold_left].
  destruct Hty as ((u & Hu) & (g & Hg) & (s & Hs)).
  unfold pax_number_fields in Hf.
  apply elem_of_cons in Hf as [->|Hf]; [|apply elem_of_cons in Hf as [->|Hf];
    [|apply elem_of_cons in Hf as [->|Hf]; [|apply list_elem_of_singleton in Hf as ->]]].
  - (* uid *)
    apply elem_of_cons in Hin as [Hin|Hin]; [done|].
    unfold pax_number_step at 2, mbind, result_bind. rewrite Hu.
    cbn [bool_decide decide_rel as_int]. rewrite bool_decide_eq_false_2 by done.
    cbv beta iota.
    destruct (_ || _); apply IH; try done.
    all: repeat split; eexists; simplify_map_eq; eauto.
  - (* gid *)
    apply elem_of_cons in Hin as [Hin|Hin]; [done|].
    unfold pax_number_step at 2, mbind, result_bind. rewrite Hg.
    rewrite bool_decide_eq_false_2 by done. cbn [as_int]. cbv beta iota.
    destruct (_ || _); apply IH; try done.
    all: repeat split; eexists; simplify_map_eq; eauto.
  - (* size *)
    unfold pax_number_step at 2, mbind, result_bind. rewrite Hs.
    rewrite bool_decide_eq_false_2 by done.
    apply pax_number_fold_Panic.
  - (* mtime *)
    apply elem_of_cons in Hin as [Hin|Hin]; [done|].
    unfold pax_number_step at 2, mbind, result_bind.
    rewrite bool_decide_eq_true_2 by done. apply IH; try done.
    repeat split; eauto.
Qed.

(** C7, on the code: serializing any record under PAX panics.  The loop
    over the numeric fields asserts that each value is an int, and the
    size is an int64; this holds whatever order the loop takes, so no
    extended header and no primary header are produced. *)
Theorem ToBuf_pax_panics (ti : TarInfo) :
  rf ≡ₚ pax_number_fields ->
  ToBuf c rf rp ti PAX_FORMAT = Panic int64_not_int.
Proof.
  intros Hperm. unfold ToBuf. cbn [Z.eqb USTAR_FORMAT GNU_FORMAT PAX_FORMAT].
  change (2 =? 0) with false. change (2 =? 1) with false. change (2 =? 2) with true.
  cbv iota. unfold createPaxHeader.
  destruct (pax_text_fold_Ok ti (PaxHeaders ti)) as [pax ->].
  unfold mbind at 1, result_bind at 1. unfold mbind at 1, result_bind at 1.
  rewrite pax_number_fold_size; [done | | |].
  - repeat split; eexists; reflexivity.
  - apply Forall_forall. intros f Hf. by rewrite <- Hperm.
  - rewrite Hperm. unfold pax_number_fields. set_solver.
Qed.
End Pax.

(** ** ExFileObject.Read *)

Section ReadFacts.
Context {S : Type} `{io.ReadWriteSeeker S}.
Import ExFileObject.



End ReadFacts.

(** * The claims *)

(** C3 (as amended).  For every 512-byte block the checksum the codec
    computes is 256 plus the sum of the 504 bytes outside offsets 148..155,
    which is the sum of all 512 bytes with the eight bytes of the checksum
    field counted as spaces; and decoding a block that is not all null and
    whose stored checksum field does not parse to that value fails with
    InvalidHeader. *)
Theorem checksum_rule (buf : bytes) :
  length buf = BLOCKSIZE ->
  calcChecksum buf = 256 + header_sum 0 buf
  /\ calcChecksum buf = header_sum 32 buf
  /\ (Count buf NUL <> BLOCKSIZE ->
      nti (slice buf 148 156) <> Ok (calcChecksum buf) ->
      exists msg, FromBuf buf = Err (InvalidHeaderError msg)).
Proof.
  intros Hl. unfold BLOCKSIZE in *.
  assert (Hs : calcChecksum buf = 256 + header_sum 0 buf).
  { apply calcChecksum_sum. rewrite Hl. lia. }
  split; [done|]. split.
  - rewrite header_sum_blank by lia. lia.
  - intros Hn Hc. by apply FromBuf_bad_checksum.
Qed.

(** C3, the witness: the header block of "hello.txt". *)
Lemma checksum_rule_witness :
  length (header_block hello_txt) = BLOCKSIZE
  /\ calcChecksum (header_block hello_txt) = 256 + header_sum 0 (header_block hello_txt)
  /\ calcChecksum (header_block hello_txt) = header_sum 32 (header_block hello_txt)
  /\ (Count (header_block hello_txt) NUL <> BLOCKSIZE ->
      nti (slice (header_block hello_txt) 148 156)
      <> Ok (calcChecksum (header_block hello_txt)) ->
      exists msg, FromBuf (header_block hello_txt) = Err (InvalidHeaderError msg)).
Proof.
  split; [by vm_compute|].
  apply (checksum_rule (header_block hello_txt)). by vm_compute.
Defined.

(** C3 as stated fails: on the all-null block the codec computes 256,
    not 256 plus the sum with the field counted as spaces (512); and that
    block, whose stored checksum parses to 0, decodes to EOFHeader, not
    to InvalidHeader.  On a real header the stored checksum is the codec's
    value, 256 less than the stated one. *)
Lemma checksum_rule_as_stated_fails :
  length (zeros BLOCKSIZE) = BLOCKSIZE
  /\ calcChecksum (zeros BLOCKSIZE) = 256
  /\ 256 + header_sum 32 (zeros BLOCKSIZE) = 512
  /\ nti (slice (zeros BLOCKSIZE) 148 156) = Ok 0
  /\ FromBuf (zeros BLOCKSIZE) = Err (EOFHeaderError "end of file header")
  /\ nti (slice (header_block hello_txt) 148 156)
     = Ok (calcChecksum (header_block hello_txt))
  /\ calcChecksum (header_block hello_txt)
     <> 256 + header_sum 32 (header_block hello_txt).
Proof. by vm_compute. Qed.




(** C6 (as amended).  Serializing under USTAR a record whose serialized
    name (its name, with a slash appended when the record is a directory
    and the name does not end in one) exceeds 100 bytes: when the link
    name exceeds 100 bytes it fails with the error "linkname is too long";
    otherwise it tries the splits of the serialized name at its slashes
    from the left and uses the first that fits, that is the shortest
    prefix of at most 155 bytes whose remainder is at most 100 bytes, as
    the prefix and name fields of the header; when no split at a slash
    fits it fails with the error "name is too long". *)
Theorem ustar_split_rule (c : Z -> Z) (rf : list (string * Z))
    (rp : gmap string bytes -> list (string * bytes)) (ti : TarInfo) :
  (LENGTH_NAME < length (wire_name ti))%nat ->
  ustar_split_outcome c rf rp ti.
Proof.
  intros Hlong. unfold ustar_split_outcome.
  pose proof (posixSplitName_spec (wire_name ti)) as Hspec.
  assert (Hto : ToBuf c rf rp ti USTAR_FORMAT
                = if (LENGTH_LINK <? length (Linkname ti))%nat
                  then Err (ErrorString "linkname is too long")
                  else match posixSplitName (wire_name ti) with
                       | Ok (p, r) =>
                           createHeader c (<["name" := VString r]> (<["prefix" := VString p]>
                             (<["magic" := VString POSIX_MAGIC]> (GetInfo ti)))) USTAR_FORMAT
                       | Err e => Err e
                       | Panic m => Panic m
                       end).
  { unfold ToBuf. change (USTAR_FORMAT =? USTAR_FORMAT) with true. cbv iota.
    unfold createUstarHeader.
    assert (Hl : (<["magic" := VString POSIX_MAGIC]> (GetInfo ti)) !! "linkname"
                 = Some (VString (Linkname ti))) by reflexivity.
    assert (Hn : (<["magic" := VString POSIX_MAGIC]> (GetInfo ti)) !! "name"
                 = Some (VString (wire_name ti))) by reflexivity.
    rewrite Hl, Hn. cbn [as_string]. unfold mbind at 1, result_bind at 1.
    destruct (LENGTH_LINK <? length (Linkname ti))%nat; [reflexivity|].
    unfold mbind at 1, result_bind at 1.
    destruct (Nat.ltb_spec LENGTH_NAME (length (wire_name ti))) as [_|?]; [|lia].
    destruct (posixSplitName (wire_name ti)) as [[p r]| |]; reflexivity. }
  destruct (LENGTH_LINK <? length (Linkname ti))%nat; [exact Hto|].
  destruct (posixSplitName (wire_name ti)) as [[p r]|e|m].
  - destruct Hspec as (H1 & H2 & H3).
    split; [exact H1|]. split; [exact H2|]. split; [exact H3|exact Hto].
  - destruct Hspec as (-> & H2). split; [reflexivity|]. split; [exact H2|exact Hto].
  - exact Hspec.
Qed.

(** C6, the witness: a name of 150 bytes without a slash. *)
Lemma ustar_split_rule_witness :
  (LENGTH_NAME < length (wire_name unsplittable))%nat
  /\ ustar_split_outcome int64_of_big_amd64 pax_number_fields range_sorted unsplittable.
Proof.
  assert (H1 : (LENGTH_NAME < length (wire_name unsplittable))%nat) by (vm_compute; lia).
  split; [exact H1|].
  exact (ustar_split_rule int64_of_big_amd64 pax_number_fields range_sorted
                          unsplittable H1).
Defined.

(** The three outcomes at work: the file with a name of 150 bytes without
    a slash is refused; the directory with the same name is serialized,
    its name split at the slash that [GetInfo] appends, with an empty
    name field; a link name of 101 bytes is refused before the name is
    looked at. *)
Example ustar_split_cases :
  ToBuf int64_of_big_amd64 pax_number_fields range_sorted unsplittable USTAR_FORMAT
  = Err (ErrorString "name is too long")
  /\ posixSplitName (wire_name long_dir) = Ok (replicate 150 "d"%char, [])
  /\ (exists b, ToBuf int64_of_big_amd64 pax_number_fields range_sorted long_dir USTAR_FORMAT
                = Ok b /\ length b = 512%nat)
  /\ ToBuf int64_of_big_amd64 pax_number_fields range_sorted long_link USTAR_FORMAT
     = Err (ErrorString "linkname is too long").
Proof.
  split; [vm_compute; reflexivity|]. split; [vm_compute; reflexivity|]. split.
  - eexists. split; vm_compute; reflexivity.
  - vm_compute; reflexivity.
Qed.

(** C6 as stated fails: for "a/" followed by 98 "b" and "/c", both "a" and
    "a/bbb..." are prefixes that fit; the encoder uses "a", not the longest. *)
Lemma ustar_split_is_not_the_longest :
  posixSplitName two_splits = Ok (bs "a", replicate 98 "b"%char ++ bs "/c")
  /\ two_splits = (bs "a/" ++ replicate 98 "b"%char) ++ "/"%char :: bs "c"
  /\ fits (bs "a/" ++ replicate 98 "b"%char) (bs "c")
  /\ (length (bs "a") < length (bs "a/" ++ replicate 98 "b"%char))%nat.
Proof.
  split; [by vm_compute|]. split; [by vm_compute|]. split.
  - unfold fits. vm_compute. lia.
  - vm_compute. lia.
Qed.




(** C4, the witness: the first byte of the block of a record with a long
    name, changed from "f" to "x". *)
Lemma tamper_detected_witness :
  length (Type_ ustar_long) = 1%nat
  /\ ToBuf int64_of_big_amd64 pax_number_fields range_sorted ustar_long USTAR_FORMAT
     = Ok ustar_block
  /\ ustar_block !! 0%nat = Some "f"%char
  /\ in_chksum_field 0 = false
  /\ "x"%char <> "f"%char
  /\ length ustar_block = 512%nat
  /\ FromBuf (<[0%nat:="x"%char]> ustar_block) = Err (InvalidHeaderError "bad checksum").
Proof.
  assert (H1 : length (Type_ ustar_long) = 1%nat) by reflexivity.
  assert (H2 : ToBuf int64_of_big_amd64 pax_number_fields range_sorted ustar_long
                     USTAR_FORMAT = Ok ustar_block) by (vm_compute; reflexivity).
  assert (H3 : ustar_block !! 0%nat = Some "f"%char) by (vm_compute; reflexivity).
  assert (H4 : in_chksum_field 0 = false) by reflexivity.
  assert (H5 : "x"%char <> "f"%char) by discriminate.
  split; [exact H1|]. split; [exact H2|]. split; [exact H3|].
  split; [exact H4|]. split; [exact H5|].
  exact (tamper_detected int64_of_big_amd64 pax_number_fields range_sorted
                         ustar_long USTAR_FORMAT ustar_block 0 "f" "x" H1 H2 H3 H4 H5).
Defined.

(** C4 as stated fails: serializing the record whose type tag has 15
    bytes gives a block of 512 bytes whose stored checksum also counts a
    513th byte, the "d" (100) that is cut off.  Decoding the block as it
    is fails; changing its first byte from "f" (102) to the byte 202 makes
    up for the missing 100 and the block decodes. *)
Lemma tamper_undetected_with_long_type :
  ToBuf int64_of_big_amd64 pax_number_fields range_sorted long_type USTAR_FORMAT
  = Ok long_type_block
  /\ length long_type_block = 512%nat
  /\ long_type_block !! 0%nat = Some "f"%char
  /\ in_chksum_field 0 = false
  /\ byte_of 202 <> "f"%char
  /\ FromBuf long_type_block = Err (InvalidHeaderError "bad checksum")
  /\ exists ti, FromBuf (<[0%nat := byte_of 202]> long_type_block) = Ok ti
                /\ Chksum ti = 19215.
Proof.
  split; [vm_compute; reflexivity|]. split; [vm_compute; reflexivity|].
  split; [vm_compute; reflexivity|]. split; [reflexivity|].
  split; [vm_compute; discriminate|]. split; [vm_compute; reflexivity|].
  eexists. split; vm_compute; reflexivity.
Qed.

(** C7, the witness: the record whose uid is 2^40. *)
Lemma ToBuf_pax_panics_witness :
  pax_number_fields ≡ₚ pax_number_fields
  /\ ToBuf int64_of_big_amd64 pax_number_fields range_sorted big_uid PAX_FORMAT
     = Panic int64_not_int.
Proof.
  split; [reflexivity|].
  exact (ToBuf_pax_panics int64_of_big_amd64 pax_number_fields range_sorted big_uid
                          (reflexivity pax_number_fields)).
Defined.

(** C1, on the code.  The archive holds the header of "hello.txt", its
    payload block, the header of "data" and the trailer; both headers
    decode.  After the first header the archive offset is 512, the start of
    the payload; the scan decodes the payload block as a header, which
    fails on its checksum at a non-zero offset and ends the scan: one
    member is reported, not two. *)
Theorem two_member_scan_stops_at_payload :
  Name <$> FromBuf (slice two_member_archive 0 512) = Ok (bs "hello.txt")
  /\ Name <$> FromBuf (slice two_member_archive 1024 1536) = Ok (bs "data")
  /\ FromBuf (slice two_member_archive 512 1024) = Err (InvalidHeaderError "bad checksum")
  /\ (exists tf, open_r two_member_archive false = Some (Ok tf) /\ TarFile_Offset tf = 512)
  /\ exists ms, scan two_member_archive false = Some (Ok ms)
                /\ map Name ms = [bs "hello.txt"] /\ map Size ms = [13].
Proof.
  split; [(vm_compute; reflexivity)|]. split; [(vm_compute; reflexivity)|]. split; [(vm_compute; reflexivity)|].
  split; eexists; (split; [vm_compute; reflexivity|]); [|split]; vm_compute; reflexivity.
Qed.

(** C2, on the code.  In an archive with a GNU long-name entry the scan
    yields the entry itself, named "././@LongLink" with type "L", then
    fails to decode its payload as a header and stops: the real header,
    which decodes, is never yielded, and no name is substituted.  The same
    happens with a PAX extended header of type "x". *)
Theorem continuation_blocks_are_yielded :
  (exists ms, scan long_name_archive false = Some (Ok ms)
              /\ map Name ms = [bs "././@LongLink"]
              /\ map Type_ ms = [GNUTYPE_LONGNAME])
  /\ Name <$> FromBuf (slice long_name_archive 1024 1536) = Ok (take 100 long_name)
  /\ (exists ms, scan pax_archive false = Some (Ok ms)
                 /\ map Name ms = [bs "././@PaxHeader"]
                 /\ map Type_ ms = [XHDTYPE])
  /\ Name <$> FromBuf (slice pax_archive 1024 1536) = Ok (bs "a.txt").
Proof.
  split; [eexists; split; [vm_compute; reflexivity|]; split; vm_compute; reflexivity|].
  split; [(vm_compute; reflexivity)|].
  split; [eexists; split; [vm_compute; reflexivity|]; split; vm_compute; reflexivity|].
  (vm_compute; reflexivity).
Qed.

(** C5, on the code.  Serializing the sparse record of the documentation
    panics in each format, on the key "prefix" that no one has set or on
    the type of the size; and the header block of the record, written with
    every key set, carries no sparse map: it decodes with Size 1048576 and
    no segments, with the type "S" as with the type "0". *)
Theorem sparse_map_is_not_serialized :
  ToBuf int64_of_big_amd64 pax_number_fields range_sorted (sparse_rec REGTYPE) GNU_FORMAT
  = Panic "interface conversion: interface {} is nil, not string"
  /\ ToBuf int64_of_big_amd64 pax_number_fields range_sorted (sparse_rec REGTYPE) USTAR_FORMAT
     = Panic "interface conversion: interface {} is nil, not string"
  /\ ToBuf int64_of_big_amd64 pax_number_fields range_sorted (sparse_rec REGTYPE) PAX_FORMAT
     = Panic int64_not_int
  /\ (fun ti => (Size ti, Sparse ti)) <$> FromBuf (header_block (sparse_rec GNUTYPE_SPARSE))
     = Ok (1048576, None)
  /\ (fun ti => (Size ti, Sparse ti)) <$> FromBuf (header_block (sparse_rec REGTYPE))
     = Ok (1048576, None).
Proof. repeat split; vm_compute; reflexivity. Qed.

(** C9, on the code.  For a field of 2 to 8 bytes, [itn] accepts the
    lower bound of its base-256 range, minus 256^(digits-1), and encodes
    it as 0xFF followed by null bytes, which [nti] decodes as 0. *)
Theorem itn_negative_boundary_is_lost (c : Z -> Z) (digits : Z) :
  2 <= digits <= 8 ->
  itn c (- 256 ^ (digits - 1)) digits GNU_FORMAT
  = Ok (byte_of 255 :: zeros (Z.to_nat digits - 1))
  /\ nti (byte_of 255 :: zeros (Z.to_nat digits - 1)) = Ok 0.
Proof.
  intros Hd.
  assert (Hc : digits = 2 \/ digits = 3 \/ digits = 4 \/ digits = 5
               \/ digits = 6 \/ digits = 7 \/ digits = 8) by lia.
  destruct Hc as [->|[->|[->|[->|[->|[->| ->]]]]]]; split; vm_compute; reflexivity.
Qed.

(** C9, the witness: the 8-byte fields (mode, uid, gid) and -2^56. *)
Lemma itn_negative_boundary_is_lost_witness :
  2 <= 8 <= 8
  /\ itn int64_of_big_amd64 (- 2 ^ 56) 8 GNU_FORMAT = Ok (byte_of 255 :: zeros 7)
  /\ nti (byte_of 255 :: zeros 7) = Ok 0.
Proof.
  assert (H : 2 <= 8 <= 8) by lia.
  split; [exact H|].
  exact (itn_negative_boundary_is_lost int64_of_big_amd64 8 H).
Defined.


(** * Further properties *)

(** ** Text fields *)

Lemma byte_eqb_eq (a b : ascii) : byte_eqb a b = true <-> a = b.
Proof. unfold byte_eqb. apply Ascii.eqb_eq. Qed.

Lemma IndexByte_None (s : bytes) (c : ascii) : IndexByte s c = None -> c ∉ s.
Proof.
  induction s as [|x t IH]; cbn [IndexByte]; intros Hi.
  - apply not_elem_of_nil.
  - destruct (byte_eqb x c) eqn:E; [done|].
    destruct (IndexByte t c); [done|].
    apply not_elem_of_cons. split; [|by apply IH].
    intros ->. by rewrite (proj2 (byte_eqb_eq x x)) in E.
Qed.

Lemma IndexByte_Some (s : bytes) (c : ascii) (p : nat) :
  IndexByte s c = Some p -> (c ∉ take p s) /\ s = take p s ++ c :: drop (S p) s.
Proof.
  revert p. induction s as [|x t IH]; cbn [IndexByte]; intros p Hi; [done|].
  destruct (byte_eqb x c) eqn:E.
  - injection Hi as <-. apply byte_eqb_eq in E as ->. split; [apply not_elem_of_nil|done].
  - destruct (IndexByte t c) as [q|] eqn:Eq; [|done]. injection Hi as <-.
    destruct (IH q eq_refl) as [Hn Ht]. cbn [take drop]. split.
    + apply not_elem_of_cons. split; [|done].
      intros ->. by rewrite (proj2 (byte_eqb_eq x x)) in E.
    + cbn [app]. by rewrite <- Ht.
Qed.

Lemma IndexByte_first (d r : bytes) (c : ascii) :
  c ∉ d -> IndexByte (d ++ c :: r) c = Some (length d).
Proof.
  induction d as [|x d IH]; intros Hn; cbn [app IndexByte length].
  - by rewrite (proj2 (byte_eqb_eq c c)).
  - apply not_elem_of_cons in Hn as [Hx Hd].
    destruct (byte_eqb x c) eqn:E; [by apply byte_eqb_eq in E as ->|].
    by rewrite IH.
Qed.

Lemma IndexByte_absent (s : bytes) (c : ascii) : c ∉ s -> IndexByte s c = None.
Proof.
  induction s as [|x t IH]; intros Hn; cbn [IndexByte]; [done|].
  apply not_elem_of_cons in Hn as [Hx Hd].
  destruct (byte_eqb x c) eqn:E; [by apply byte_eqb_eq in E as ->|].
  by rewrite IH.
Qed.

Lemma nts_app_NUL (d r : bytes) : NUL ∉ d -> nts (d ++ NUL :: r) = d.
Proof.
  intros Hn. unfold nts. rewrite IndexByte_first by done. by rewrite take_app_length.
Qed.

Lemma nts_no_NUL (s : bytes) : NUL ∉ s -> nts s = s.
Proof. intros Hn. unfold nts. by rewrite IndexByte_absent. Qed.

(** X1.  [nts] cuts a field at its first NUL: the text it returns holds no
    NUL; a field without NUL is returned whole; otherwise the field is the
    text, a NUL, and a rest that is dropped. *)
Theorem nts_cuts_at_first_NUL (s : bytes) :
  (NUL ∉ nts s)
  /\ ((NUL ∉ s) /\ nts s = s \/ exists rest, s = nts s ++ NUL :: rest).
Proof.
  unfold nts. destruct (IndexByte s NUL) as [p|] eqn:E.
  - apply IndexByte_Some in E as [Hn Hs]. split; [done|]. right. by eexists.
  - apply IndexByte_None in E. split; [done|]. by left.
Qed.

Lemma take_no_NUL (s : bytes) (n : nat) : NUL ∉ s -> NUL ∉ take n s.
Proof.
  intros Hn. rewrite <- (take_drop n s) in Hn. by apply not_elem_of_app in Hn as [? _].
Qed.

Lemma nts_stn (s : bytes) (n : nat) : NUL ∉ s -> nts (stn s n) = take n s.
Proof.
  intros Hn. unfold stn. cbv zeta.
  destruct (n - length (take n s))%nat as [|k] eqn:Ek; cbn [zeros replicate].
  - rewrite app_nil_r. apply nts_no_NUL. by apply take_no_NUL.
  - apply nts_app_NUL. by apply take_no_NUL.
Qed.

(** X2.  A text without NUL that is stored in a field of [n] bytes with
    [stn] fills exactly [n] bytes and is read back by [nts] cut to [n]
    bytes, so unchanged when it fits. *)
Theorem stn_nts_round_trip (s : bytes) (n : nat) :
  NUL ∉ s ->
  length (stn s n) = n
  /\ nts (stn s n) = take n s
  /\ ((length s <= n)%nat -> nts (stn s n) = s).
Proof.
  intros Hn. split; [apply stn_length|]. split; [by apply nts_stn|].
  intros Hl. rewrite nts_stn by done. by apply take_ge.
Qed.

(** X2, an instance: "hello.txt" in the name field. *)
Lemma stn_nts_round_trip_witness :
  (NUL ∉ bs "hello.txt")
  /\ length (stn (bs "hello.txt") 100) = 100%nat
  /\ nts (stn (bs "hello.txt") 100) = take 100 (bs "hello.txt")
  /\ ((length (bs "hello.txt") <= 100)%nat -> nts (stn (bs "hello.txt") 100) = bs "hello.txt").
Proof.
  assert (Hn : NUL ∉ bs "hello.txt").
  { intros Hin. vm_compute in Hin. repeat (apply elem_of_cons in Hin as [Hin|Hin]; [discriminate Hin|]).
    by apply elem_of_nil in Hin. }
  split; [exact Hn|]. exact (stn_nts_round_trip (bs "hello.txt") 100 Hn).
Defined.

(** ** Numeric fields *)

Lemma pow_int64_exact (c : Z -> Z) (base k : Z) :
  0 <= base ^ k < two63 -> pow_int64 c base k = base ^ k.
Proof.
  intros Hb. unfold pow_int64.
  destruct (Z.ltb_spec k 0) as [Hk|Hk].
  - rewrite Z.pow_neg_r by lia. done.
  - destruct (Z.ltb_spec (base ^ k) two63); [done|lia].
Qed.

Lemma pow8_small (k : Z) : k <= 20 -> 0 <= 8 ^ k < two63.
Proof.
  intros Hk. destruct (Z.ltb_spec k 0) as [H0|H0].
  - rewrite Z.pow_neg_r by lia. by vm_compute.
  - split; [apply Z.pow_nonneg; lia|].
    apply Z.le_lt_trans with (8 ^ 20); [|by vm_compute].
    apply Z.pow_le_mono_r; lia.
Qed.

Lemma pow256_small (k : Z) : k <= 7 -> 0 <= 256 ^ k < two63.
Proof.
  intros Hk. destruct (Z.ltb_spec k 0) as [H0|H0].
  - rewrite Z.pow_neg_r by lia. by vm_compute.
  - split; [apply Z.pow_nonneg; lia|].
    apply Z.le_lt_trans with (256 ^ 7); [|by vm_compute].
    apply Z.pow_le_mono_r; lia.
Qed.

Lemma base256_app (k : nat) (n : Z) (acc : bytes) :
  base256 k n acc = base256 k n [] ++ acc.
Proof.
  revert n acc. induction k as [|k IH]; intros n acc; cbn [base256]; [done|].
  rewrite (IH _ (_ :: acc)), (IH _ [_]). by rewrite <- app_assoc.
Qed.

Lemma decode256_base256 (k : nat) (n a : Z) :
  0 <= n -> 0 <= a -> (a + 1) * 256 ^ Z.of_nat k <= two63 ->
  decode256 (base256 k n []) a = a * 256 ^ Z.of_nat k + n mod 256 ^ Z.of_nat k.
Proof.
  revert n. induction k as [|k IH]; intros n Hn Ha Hb.
  - cbn. rewrite Z.mod_1_r. lia.
  - cbn [base256]. rewrite base256_app. unfold decode256. rewrite fold_left_app.
    fold (decode256 (base256 k (n ≫ 8) []) a).
    assert (H256 : 256 ^ Z.of_nat (S k) = 256 * 256 ^ Z.of_nat k).
    { rewrite Nat2Z.inj_succ, Z.pow_succ_r by lia. done. }
    assert (Hp : 0 < 256 ^ Z.of_nat k) by (apply Z.pow_pos_nonneg; lia).
    rewrite IH; [|by apply Z.shiftr_nonneg|done|nia].
    cbn [fold_left].
    rewrite Z.shiftr_div_pow2 by lia. change (2 ^ 8) with 256.
    assert (Hl : Z.land n 255 = n mod 256).
    { change 255 with (Z.ones 8). rewrite Z.land_ones by lia. done. }
    rewrite Hl, byte_val_of by (apply Z.mod_pos_bound; lia).
    pose proof (Z.mod_pos_bound (n / 256) (256 ^ Z.of_nat k) Hp) as Hm.
    pose proof (Z.mod_pos_bound n 256 ltac:(lia)) as Hm'.
    rewrite H256 in *.
    set (P := 256 ^ Z.of_nat k) in *. set (m := (n / 256) mod P) in *.
    set (r := n mod 256) in *.
    assert (Hn' : n mod (256 * P) = r + 256 * m).
    { unfold r, m. rewrite Z.rem_mul_r by lia. done. }
    assert (H1 : 0 <= (a * P + m) * 256 /\ (a * P + m) * 256 + r < (a + 1) * (256 * P)) by nia.
    assert (H63 : 0 < two63) by done.
    rewrite (wrap64_small ((a * P + m) * 256)) by lia.
    rewrite wrap64_small by lia.
    rewrite Hn'. lia.
Qed.

Lemma nti_base256 (first : ascii) (k : nat) (n : Z) :
  byte_val first = 128 \/ byte_val first = 255 ->
  0 <= n < 256 ^ Z.of_nat k -> (k <= 7)%nat ->
  nti (first :: base256 k n []) = Ok (if byte_val first =? 255 then - n else n).
Proof.
  intros Hf Hn Hk. cbn [nti].
  assert (Hp := pow256_small (Z.of_nat k) ltac:(lia)).
  replace ((byte_val first =? 128) || (byte_val first =? 255)) with true
    by (destruct Hf as [-> | ->]; done).
  fold (decode256 (base256 k n []) 0).
  rewrite decode256_base256 by lia.
  rewrite Z.mod_small by lia. cbn [Z.mul Z.add].
  destruct (byte_val first =? 255); [|done].
  rewrite wrap64_small; [done|]. unfold two63 in *. lia.
Qed.

Lemma itn_octal (c : Z -> Z) (n digits fmt : Z) :
  digits <= 21 -> 0 <= n < 8 ^ (digits - 1) ->
  itn c n digits fmt = Ok (Sprintf_0o (digits - 1) n ++ [NUL]).
Proof.
  intros Hd Hn. unfold itn. rewrite pow_int64_exact by (apply pow8_small; lia).
  replace (0 <=? n) with true by lia. replace (n <? 8 ^ (digits - 1)) with true by lia.
  done.
Qed.

Lemma octal_field (n digits : Z) :
  2 <= digits <= 21 -> 0 <= n < 8 ^ (digits - 1) ->
  length (Sprintf_0o (digits - 1) n ++ [NUL]) = Z.to_nat digits
  /\ nti (Sprintf_0o (digits - 1) n ++ [NUL]) = Ok n.
Proof.
  intros Hd Hn. pose proof (pow8_small (digits - 1) ltac:(lia)) as Hp. split.
  - rewrite length_app, Sprintf_0o_length by lia. cbn [length]. lia.
  - apply (nti_Sprintf_0o _ _ []). lia.
Qed.

(** X3.  A number that fits the octal digits of a field is written by
    [itn] as exactly [digits] bytes, in every format, and [nti] reads the
    same number back. *)
Theorem itn_nti_octal_round_trip (c : Z -> Z) (n digits fmt : Z) :
  2 <= digits <= 21 -> 0 <= n < 8 ^ (digits - 1) ->
  exists p, itn c n digits fmt = Ok p
            /\ length p = Z.to_nat digits /\ nti p = Ok n.
Proof.
  intros Hd Hn. exists (Sprintf_0o (digits - 1) n ++ [NUL]).
  split; [apply itn_octal; lia|]. by apply octal_field.
Qed.

(** X3, an instance: a size of 1 MiB. *)
Lemma itn_nti_octal_round_trip_witness :
  2 <= 12 <= 21 /\ 0 <= 1048576 < 8 ^ (12 - 1)
  /\ exists p, itn int64_of_big_amd64 1048576 12 USTAR_FORMAT = Ok p
               /\ length p = Z.to_nat 12 /\ nti p = Ok 1048576.
Proof.
  assert (H1 : 2 <= 12 <= 21) by lia.
  assert (H2 : 0 <= 1048576 < 8 ^ (12 - 1)) by (vm_compute; split; [discriminate|reflexivity]).
  split; [exact H1|]. split; [exact H2|].
  exact (itn_nti_octal_round_trip int64_of_big_amd64 1048576 12 USTAR_FORMAT H1 H2).
Defined.

Lemma itn_base256 (c : Z -> Z) (n digits : Z) :
  2 <= digits <= 8 -> - 256 ^ (digits - 1) <= n < 256 ^ (digits - 1) ->
  n < 0 \/ 8 ^ (digits - 1) <= n ->
  itn c n digits GNU_FORMAT
  = Ok ((if 0 <=? n then byte_of 128 else byte_of 255)
        :: base256 (Z.to_nat digits - 1) (Z.abs n) []).
Proof.
  intros Hd Hn Ho. unfold itn.
  pose proof (pow256_small (digits - 1) ltac:(lia)) as Hp.
  rewrite pow_int64_exact by (apply pow8_small; lia).
  rewrite pow_int64_exact by done.
  replace ((0 <=? n) && (n <? 8 ^ (digits - 1))) with false by lia.
  rewrite wrap64_small by (unfold two63 in *; lia).
  change (GNU_FORMAT =? GNU_FORMAT) with true.
  replace (- 256 ^ (digits - 1) <=? n) with true by lia.
  replace (n <? 256 ^ (digits - 1)) with true by lia.
  replace (digits <? 0) with false by lia. replace (digits =? 0) with false by lia.
  cbn [andb]. f_equal. f_equal. f_equal.
  destruct (Z.leb_spec 0 n); [lia|].
  rewrite wrap64_small by (unfold two63 in *; lia). lia.
Qed.

Lemma base256_field (c : Z -> Z) (n digits : Z) :
  2 <= digits <= 8 -> - 256 ^ (digits - 1) < n < 256 ^ (digits - 1) ->
  n < 0 \/ 8 ^ (digits - 1) <= n ->
  exists p, itn c n digits GNU_FORMAT = Ok p
            /\ length p = Z.to_nat digits /\ nti p = Ok n.
Proof.
  intros Hd Hn Ho.
  eexists. split; [apply itn_base256; lia|].
  split; [cbn [length]; rewrite base256_length; cbn [length]; lia|].
  destruct (Z.leb_spec 0 n) as [H0|H0].
  - rewrite nti_base256; [by rewrite Z.abs_eq by lia|by left| |lia].
    replace (Z.of_nat (Z.to_nat digits - 1)) with (digits - 1) by lia. lia.
  - rewrite nti_base256; [|by right| |lia].
    + change (byte_val (byte_of 255) =? 255) with true. cbv iota. f_equal. lia.
    + replace (Z.of_nat (Z.to_nat digits - 1)) with (digits - 1) by lia. lia.
Qed.

(** X4.  Under the GNU format a field of 2 to 8 bytes holds every number
    strictly between minus and plus 256^(digits-1): [itn] writes exactly
    [digits] bytes and [nti] reads the same number back, in octal when it
    fits and in base 256 otherwise. *)
Theorem itn_nti_gnu_round_trip (c : Z -> Z) (n digits : Z) :
  2 <= digits <= 8 -> - 256 ^ (digits - 1) < n < 256 ^ (digits - 1) ->
  exists p, itn c n digits GNU_FORMAT = Ok p
            /\ length p = Z.to_nat digits /\ nti p = Ok n.
Proof.
  intros Hd Hn.
  destruct (Z_lt_le_dec n 0) as [H0|H0]; [apply base256_field; lia|].
  destruct (Z_lt_le_dec n (8 ^ (digits - 1))) as [H8|H8]; [|apply base256_field; lia].
  exists (Sprintf_0o (digits - 1) n ++ [NUL]).
  split; [apply itn_octal; lia|]. apply octal_field; lia.
Qed.

(** X4, an instance: -5 in a field of 8 bytes. *)
Lemma itn_nti_gnu_round_trip_witness :
  2 <= 8 <= 8 /\ - 256 ^ (8 - 1) < -5 < 256 ^ (8 - 1)
  /\ exists p, itn int64_of_big_amd64 (-5) 8 GNU_FORMAT = Ok p
               /\ length p = Z.to_nat 8 /\ nti p = Ok (-5).
Proof.
  assert (H1 : 2 <= 8 <= 8) by lia.
  assert (H2 : - 256 ^ (8 - 1) < -5 < 256 ^ (8 - 1)) by (vm_compute; split; reflexivity).
  split; [exact H1|]. split; [exact H2|].
  exact (itn_nti_gnu_round_trip int64_of_big_amd64 (-5) 8 H1 H2).
Defined.

(** X5.  [itn] refuses what it cannot write: outside the GNU format every
    negative number and every number of more than [digits - 1] octal
    digits, and under the GNU format, for fields of 2 to 8 bytes, every
    number below minus 256^(digits-1) or from 256^(digits-1) up, fail with
    "overflow in number field". *)
Theorem itn_overflow (c : Z -> Z) (n digits fmt : Z) :
  digits <= 21 ->
  (fmt <> GNU_FORMAT /\ (n < 0 \/ 8 ^ (digits - 1) <= n))
  \/ (fmt = GNU_FORMAT /\ 2 <= digits <= 8
      /\ (n < - 256 ^ (digits - 1) \/ 256 ^ (digits - 1) <= n)) ->
  itn c n digits fmt = Err (ErrorString "overflow in number field").
Proof.
  intros Hd Hc. unfold itn.
  rewrite pow_int64_exact by (apply pow8_small; lia).
  destruct Hc as [[Hf Hn] | (-> & Hd2 & Hn)].
  - replace ((0 <=? n) && (n <? 8 ^ (digits - 1))) with false by lia.
    replace (fmt =? GNU_FORMAT) with false; [done|].
    symmetry. by apply Z.eqb_neq.
  - pose proof (pow256_small (digits - 1) ltac:(lia)) as Hp.
    assert (H8 : 8 ^ (digits - 1) <= 256 ^ (digits - 1)).
    { apply Z.pow_le_mono_l. lia. }
    rewrite pow_int64_exact by done.
    rewrite wrap64_small by (unfold two63 in *; lia).
    replace ((0 <=? n) && (n <? 8 ^ (digits - 1))) with false by lia.
    destruct (Z.leb_spec (- 256 ^ (digits - 1)) n), (Z.ltb_spec n (256 ^ (digits - 1)));
      try lia; reflexivity.
Qed.

(** X5, an instance: a uid of 2^40 under USTAR. *)
Lemma itn_overflow_witness :
  8 <= 21
  /\ ((USTAR_FORMAT <> GNU_FORMAT /\ (2 ^ 40 < 0 \/ 8 ^ (8 - 1) <= 2 ^ 40))
      \/ (USTAR_FORMAT = GNU_FORMAT /\ 2 <= 8 <= 8
          /\ (2 ^ 40 < - 256 ^ (8 - 1) \/ 256 ^ (8 - 1) <= 2 ^ 40)))
  /\ itn int64_of_big_amd64 (2 ^ 40) 8 USTAR_FORMAT
     = Err (ErrorString "overflow in number field").
Proof.
  assert (H1 : 8 <= 21) by lia.
  assert (H2 : (USTAR_FORMAT <> GNU_FORMAT /\ (2 ^ 40 < 0 \/ 8 ^ (8 - 1) <= 2 ^ 40))
      \/ (USTAR_FORMAT = GNU_FORMAT /\ 2 <= 8 <= 8
          /\ (2 ^ 40 < - 256 ^ (8 - 1) \/ 256 ^ (8 - 1) <= 2 ^ 40))).
  { left. split; [discriminate|]. right. vm_compute. discriminate. }
  split; [exact H1|]. split; [exact H2|].
  exact (itn_overflow int64_of_big_amd64 (2 ^ 40) 8 USTAR_FORMAT H1 H2).
Defined.

(** X6.  Where the conversion to int64 of a float64 that is too large
    gives the least int64 (as on amd64), the 12-byte fields, size and
    mtime, have no base-256 form: under the GNU format too, a negative
    number and a number from 8^11 up (8 GiB for a size) overflow. *)
Theorem itn_wide_field_has_no_base256 (c : Z -> Z) (n : Z) :
  c (256 ^ 11) = - two63 ->
  n < 0 \/ 8 ^ 11 <= n ->
  itn c n 12 GNU_FORMAT = Err (ErrorString "overflow in number field").
Proof.
  intros Hc Hn. unfold itn.
  rewrite pow_int64_exact by (by vm_compute).
  change (12 - 1) with 11.
  replace ((0 <=? n) && (n <? 8 ^ 11)) with false by lia.
  assert (Hp : pow_int64 c 256 11 = - two63).
  { unfold pow_int64. change (11 <? 0) with false. change (256 ^ 11 <? two63) with false.
    cbv iota. rewrite Hc. by vm_compute. }
  rewrite Hp. change (wrap64 (- - two63)) with (- two63).
  destruct (Z.leb_spec (- two63) n), (Z.ltb_spec n (- two63)); try lia; reflexivity.
Qed.

(** X6, an instance: a size of 8 GiB on amd64. *)
Lemma itn_wide_field_has_no_base256_witness :
  int64_of_big_amd64 (256 ^ 11) = - two63
  /\ (8 ^ 11 < 0 \/ 8 ^ 11 <= 8 ^ 11)
  /\ itn int64_of_big_amd64 (8 ^ 11) 12 GNU_FORMAT
     = Err (ErrorString "overflow in number field").
Proof.
  assert (H1 : int64_of_big_amd64 (256 ^ 11) = - two63) by reflexivity.
  assert (H2 : 8 ^ 11 < 0 \/ 8 ^ 11 <= 8 ^ 11) by (right; lia).
  split; [exact H1|]. split; [exact H2|].
  exact (itn_wide_field_has_no_base256 int64_of_big_amd64 (8 ^ 11) H1 H2).
Defined.

(** ** A header block, written and read back *)

Lemma storable_itn (c : Z -> Z) (fmt digits n : Z) :
  2 <= digits <= 21 -> storable fmt digits n ->
  exists p, itn c n digits fmt = Ok p /\ length p = Z.to_nat digits /\ nti p = Ok n.
Proof.
  intros Hd [Hn | (-> & Hd' & Hn)].
  - exists (Sprintf_0o (digits - 1) n ++ [NUL]).
    split; [apply itn_octal; lia|]. by apply octal_field.
  - destruct (Z_lt_le_dec n 0) as [H0|H0]; [apply base256_field; lia|].
    destruct (Z_lt_le_dec n (8 ^ (digits - 1))) as [H8|H8]; [|apply base256_field; lia].
    exists (Sprintf_0o (digits - 1) n ++ [NUL]).
    split; [apply itn_octal; lia|]. apply octal_field; lia.
Qed.

Lemma slice_skip (f rest : bytes) (n lo hi : nat) :
  length f = n -> (n <= lo)%nat ->
  slice (f ++ rest) lo hi = slice rest (lo - n) (hi - n).
Proof.
  intros Hf Hl. unfold slice. subst n.
  rewrite drop_app_ge by lia. f_equal. lia.
Qed.

Lemma slice_head (x rest : bytes) (lo hi : nat) :
  lo = 0%nat -> hi = length x -> slice (x ++ rest) lo hi = x.
Proof.
  intros -> ->. unfold slice. rewrite drop_0, Nat.sub_0_r. by rewrite take_app_length.
Qed.

Lemma seal_not_null (buf : bytes) :
  length buf = 512%nat -> Count (seal buf) NUL <> BLOCKSIZE.
Proof.
  intros Hl. pose proof (seal_length buf Hl) as Hs.
  unfold BLOCKSIZE. rewrite <- Hs.
  pose proof (seal_field buf Hl) as Hfld. unfold slice, checksum_text in Hfld.
  pose proof (Sprintf_0o_octal 6 (calcChecksum buf)) as Ho.
  pose proof (Sprintf_0o_nonempty 6 (calcChecksum buf)) as Hne.
  destruct (Sprintf_0o 6 (calcChecksum buf)) as [|d ds]; [done|].
  apply (Count_not_full _ 148 d).
  - apply (f_equal (fun l => l !! 0%nat)) in Hfld.
    rewrite lookup_take_lt, lookup_drop in Hfld by lia. by rewrite Nat.add_0_r in Hfld.
  - apply Forall_cons in Ho as [Ho _]. intros ->. unfold is_octal in Ho.
    by vm_compute in Ho; destruct Ho.
Qed.

Lemma seal_verifies (buf : bytes) :
  length buf = 512%nat -> nti (slice (seal buf) 148 156) = Ok (calcChecksum (seal buf)).
Proof.
  intros Hl. rewrite seal_field, seal_checksum by done.
  pose proof (calcChecksum_bound buf Hl) as Hb.
  unfold checksum_text. apply nti_Sprintf_0o. unfold two63. lia.
Qed.

(** How [FromBuf] maps the fields of a block that passes its checks. *)
Lemma FromBuf_fields (B : bytes)
    (name typ linkname uname gname prefix : bytes) (mode uid gid size mtime dM dm : Z) :
  length B = 512%nat -> Count B NUL <> BLOCKSIZE ->
  nti (slice B 148 156) = Ok (calcChecksum B) ->
  nts (slice B 0 100) = name ->
  nti (slice B 100 108) = Ok mode -> nti (slice B 108 116) = Ok uid ->
  nti (slice B 116 124) = Ok gid -> nti (slice B 124 136) = Ok size ->
  nti (slice B 136 148) = Ok mtime ->
  slice B 156 157 = typ ->
  nts (slice B 157 257) = linkname ->
  nts (slice B 265 297) = uname -> nts (slice B 297 329) = gname ->
  nti (slice B 329 337) = Ok dM -> nti (slice B 337 345) = Ok dm ->
  nts (slice B 345 500) = prefix ->
  typ <> GNUTYPE_SPARSE ->
  FromBuf B =
  let typ' := if bool_decide (typ = AREGTYPE) && HasSuffix name (bs "/") then DIRTYPE else typ in
  let name' := if bool_decide (typ' = DIRTYPE) then TrimSuffix name (bs "/") else name in
  let name'' :=
    if negb (bool_decide (prefix = [])) && negb (contains typ' GNU_TYPES)
    then prefix ++ bs "/" ++ name' else name' in
  Ok {| Name := name''; Mode := mode; UID := uid; GID := gid; Size := size;
        Mtime := mtime; Chksum := calcChecksum B; Type_ := typ'; Linkname := linkname;
        Uname := uname; Gname := gname; DevMajor := dM; DevMinor := dm;
        Offset := 0; OffsetData := 0; PaxHeaders := ∅; Sparse := None |}.
Proof.
  intros Hl Hc Hchk Hname Hmode Huid Hgid Hsize Hmtime Htyp Hlink Hun Hgn HdM Hdm Hpre Hsp.
  unfold FromBuf. rewrite Hl.
  change (512 =? 0)%nat with false. change (512 =? BLOCKSIZE)%nat with true.
  cbn [negb]. cbv iota.
  destruct (Nat.eqb_spec (Count B NUL) BLOCKSIZE) as [E|_]; [done|].
  rewrite Hchk. unfold mbind, result_bind. rewrite Z.eqb_refl. cbn [negb]. cbv iota.
  rewrite Hname, Hmode, Huid, Hgid, Hsize, Hmtime, Htyp, Hlink, Hun, Hgn, HdM, Hdm, Hpre.
  cbv beta iota zeta.
  destruct (bool_decide (typ = AREGTYPE) && HasSuffix name (bs "/")) eqn:Ea.
  - rewrite (bool_decide_eq_false_2 (DIRTYPE = GNUTYPE_SPARSE)) by done. reflexivity.
  - rewrite (bool_decide_eq_false_2 (typ = GNUTYPE_SPARSE)) by done. reflexivity.
Qed.

Lemma complete_info_lookup (ti : TarInfo) :
  complete_info ti !! "type" = Some (VString (Type_ ti))
  /\ complete_info ti !! "name" = Some (VString (wire_name ti))
  /\ complete_info ti !! "mode" = Some (VInt64 (Z.land (Mode ti) 4095))
  /\ complete_info ti !! "uid" = Some (VInt (UID ti))
  /\ complete_info ti !! "gid" = Some (VInt (GID ti))
  /\ complete_info ti !! "size" = Some (VInt64 (Size ti))
  /\ complete_info ti !! "mtime" = Some (VInt64 (Mtime ti))
  /\ complete_info ti !! "linkname" = Some (VString (Linkname ti))
  /\ complete_info ti !! "magic" = Some (VString GNU_MAGIC)
  /\ complete_info ti !! "uname" = Some (VString (Uname ti))
  /\ complete_info ti !! "gname" = Some (VString (Gname ti))
  /\ complete_info ti !! "devmajor" = Some (VInt (DevMajor ti))
  /\ complete_info ti !! "devminor" = Some (VInt (DevMinor ti))
  /\ complete_info ti !! "prefix" = Some (VString []).
Proof. repeat split; reflexivity. Qed.

Lemma bool_decide_VString (t u : bytes) :
  bool_decide (Some (VString t) = Some (VString u)) = bool_decide (t = u).
Proof. apply bool_decide_ext. split; [by intros [= ->]|by intros ->]. Qed.

Lemma TrimSuffix_app (s x : bytes) : TrimSuffix (s ++ x) x = s.
Proof.
  unfold TrimSuffix, HasSuffix. rewrite length_app.
  replace (length s + length x - length x)%nat with (length s) by lia.
  rewrite drop_app_length, take_app_length. by rewrite bool_decide_eq_true_2.
Qed.

(** The block [createHeader] lays out, field by field. *)
Lemma createHeader_complete (c : Z -> Z) (fmt : Z) (ti : TarInfo)
    (p1 p2 p3 p4 p5 dM dm : bytes) :
  itn c (Z.land (Mode ti) 4095) 8 fmt = Ok p1 -> itn c (UID ti) 8 fmt = Ok p2 ->
  itn c (GID ti) 8 fmt = Ok p3 -> itn c (Size ti) 12 fmt = Ok p4 ->
  itn c (Mtime ti) 12 fmt = Ok p5 ->
  (if has_device_fields ti
   then itn c (DevMajor ti) 8 fmt = Ok dM /\ itn c (DevMinor ti) 8 fmt = Ok dm
   else dM = stn [] 8 /\ dm = stn [] 8) ->
  createHeader c (complete_info ti) fmt
  = let buf := concat [ stn (wire_name ti) 100; p1; p2; p3; p4; p5; bs "        ";
                        Type_ ti; stn (Linkname ti) 100; GNU_MAGIC; stn (Uname ti) 32;
                        stn (Gname ti) 32; dM; dm; stn [] 155 ] in
    Ok (seal (buf ++ zeros (BLOCKSIZE - length buf))).
Proof.
  intros E1 E2 E3 E4 E5 Edev.
  destruct (complete_info_lookup ti)
    as (Lt & Ln & Lm & Lu & Lg & Ls & Lmt & Ll & Lmg & Lun & Lgn & LdM & Ldm & Lp).
  unfold createHeader.
  rewrite Lt, Ln, Lm, Lu, Lg, Ls, Lmt, Ll, Lmg, Lun, Lgn, LdM, Ldm, Lp.
  rewrite !bool_decide_VString. fold (has_device_fields ti).
  unfold mbind, result_bind. cbn [as_string as_int as_int64].
  destruct (has_device_fields ti).
  - destruct Edev as [EM Em]. rewrite EM, Em. cbv beta iota.
    rewrite E1. cbn [wrap_err]. cbv beta iota.
    rewrite E2. cbn [wrap_err]. cbv beta iota.
    rewrite E3. cbn [wrap_err]. cbv beta iota.
    rewrite E4. cbn [wrap_err]. cbv beta iota.
    rewrite E5. cbn [wrap_err]. cbv beta iota. reflexivity.
  - destruct Edev as [-> ->]. cbv beta iota.
    rewrite E1. cbn [wrap_err]. cbv beta iota.
    rewrite E2. cbn [wrap_err]. cbv beta iota.
    rewrite E3. cbn [wrap_err]. cbv beta iota.
    rewrite E4. cbn [wrap_err]. cbv beta iota.
    rewrite E5. cbn [wrap_err]. cbv beta iota. reflexivity.
Qed.

Lemma nts_stn_fits (n : nat) (s : bytes) : text_fits n s -> nts (stn s n) = s.
Proof. intros [Hn Hl]. rewrite nts_stn by done. by apply take_ge. Qed.

Lemma land_perm_bits (m : Z) : 0 <= Z.land m 4095 < 4096.
Proof.
  change 4095 with (Z.ones 12). rewrite Z.land_ones by lia.
  apply Z.mod_pos_bound. lia.
Qed.

(** X7.  A header block written by [createHeader] from the attributes of
    a record, with an 8-byte magic and an empty prefix, is 512 bytes long
    and [FromBuf] reads the record back from it: name, permission bits,
    owner, size, time, type, link and owner names, and for a device its
    numbers.  The texts must fit their fields and hold no NUL, the name
    must not end with a slash, the numbers must be storable in the format,
    and the type must be one byte other than "S". *)
Theorem header_round_trip (c : Z -> Z) (fmt : Z) (ti : TarInfo) :
  length (Type_ ti) = 1%nat -> Type_ ti <> GNUTYPE_SPARSE ->
  HasSuffix (Name ti) (bs "/") = false ->
  text_fits (if IsDir ti then 99 else 100) (Name ti) ->
  text_fits 100 (Linkname ti) -> text_fits 32 (Uname ti) -> text_fits 32 (Gname ti) ->
  storable fmt 8 (UID ti) -> storable fmt 8 (GID ti) ->
  storable fmt 12 (Size ti) -> storable fmt 12 (Mtime ti) ->
  (has_device_fields ti = true ->
   storable fmt 8 (DevMajor ti) /\ storable fmt 8 (DevMinor ti)) ->
  exists b, createHeader c (complete_info ti) fmt = Ok b
            /\ length b = 512%nat
            /\ FromBuf b = Ok (kept ti (calcChecksum b)).
Proof.
  intros Hty Hsp Hsl Hname Hlink Hun Hgn Suid Sgid Ssize Smtime Sdev.
  assert (Smode : storable fmt 8 (Z.land (Mode ti) 4095)).
  { left. pose proof (land_perm_bits (Mode ti)). change (8 ^ (8 - 1)) with 2097152. lia. }
  destruct (storable_itn c fmt 8 _ ltac:(lia) Smode) as (p1 & E1 & L1 & N1).
  destruct (storable_itn c fmt 8 _ ltac:(lia) Suid) as (p2 & E2 & L2 & N2).
  destruct (storable_itn c fmt 8 _ ltac:(lia) Sgid) as (p3 & E3 & L3 & N3).
  destruct (storable_itn c fmt 12 _ ltac:(lia) Ssize) as (p4 & E4 & L4 & N4).
  destruct (storable_itn c fmt 12 _ ltac:(lia) Smtime) as (p5 & E5 & L5 & N5).
  assert (Hdev : exists dM dm,
    (if has_device_fields ti
     then itn c (DevMajor ti) 8 fmt = Ok dM /\ itn c (DevMinor ti) 8 fmt = Ok dm
     else dM = stn [] 8 /\ dm = stn [] 8)
    /\ length dM = 8%nat /\ length dm = 8%nat
    /\ nti dM = Ok (if has_device_fields ti then DevMajor ti else 0)
    /\ nti dm = Ok (if has_device_fields ti then DevMinor ti else 0)).
  { destruct (has_device_fields ti).
    - destruct (Sdev eq_refl) as [SM Sm].
      destruct (storable_itn c fmt 8 _ ltac:(lia) SM) as (dM & EM & LM & NM).
      destruct (storable_itn c fmt 8 _ ltac:(lia) Sm) as (dm & Em & Lm & Nm).
      exists dM, dm. done.
    - exists (stn [] 8), (stn [] 8). done. }
  destruct Hdev as (dM & dm & Edev & LM & Lm & NM & Nm).
  change (Z.to_nat 8) with 8%nat in *. change (Z.to_nat 12) with 12%nat in *.
  rewrite (createHeader_complete c fmt ti p1 p2 p3 p4 p5 dM dm) by done.
  cbv zeta.
  set (w := wire_name ti).
  assert (Hw : w = if IsDir ti then Name ti ++ bs "/" else Name ti).
  { unfold w, wire_name. rewrite Hsl. by destruct (IsDir ti). }
  assert (Hwf : text_fits 100 w).
  { rewrite Hw. destruct Hname as [Hn Hl]. destruct (IsDir ti); [|done]. split.
    - intros Hin. apply elem_of_app in Hin as [Hin|Hin]; [done|].
      apply list_elem_of_singleton in Hin. discriminate Hin.
    - rewrite length_app. cbn [length bs list_ascii_of_string]. lia. }
  set (A := stn w 100 ++ p1 ++ p2 ++ p3 ++ p4 ++ p5).
  set (T := Type_ ti ++ stn (Linkname ti) 100 ++ GNU_MAGIC ++ stn (Uname ti) 32
            ++ stn (Gname ti) 32 ++ dM ++ dm ++ stn [] 155 ++ zeros 12).
  assert (Lmg : length GNU_MAGIC = 8%nat) by reflexivity.
  assert (Lsp : length (bs "        ") = 8%nat) by reflexivity.
  assert (LA : length A = 148%nat).
  { unfold A. rewrite !length_app, stn_length, L1, L2, L3, L4, L5. lia. }
  assert (LT : length T = 356%nat).
  { unfold T. rewrite !length_app, !stn_length, Hty, Lmg, LM, Lm. unfold zeros.
    rewrite length_replicate. lia. }
  match goal with
  | |- context [seal (?cat ++ zeros (BLOCKSIZE - length ?cat))] =>
      assert (Hbuf : cat ++ zeros (BLOCKSIZE - length cat) = A ++ bs "        " ++ T)
  end.
  { cbn [concat]. rewrite app_nil_r.
    repeat (rewrite length_app). rewrite !stn_length, L1, L2, L3, L4, L5, Hty, Lmg, LM, Lm, Lsp.
    change (BLOCKSIZE - _)%nat with 12%nat.
    unfold A, T. by rewrite <- !app_assoc. }
  rewrite Hbuf. clear Hbuf.
  set (buf := A ++ bs "        " ++ T).
  assert (Lbuf : length buf = 512%nat).
  { unfold buf. rewrite !length_app, LA, LT, Lsp. lia. }
  pose proof (seal_length buf Lbuf) as LB.
  pose proof (seal_not_null buf Lbuf) as HnB.
  pose proof (seal_verifies buf Lbuf) as HvB.
  pose proof (checksum_text_length buf Lbuf) as Lchk.
  assert (HB : seal buf = stn w 100 ++ p1 ++ p2 ++ p3 ++ p4 ++ p5 ++ checksum_text buf
                 ++ Type_ ti ++ stn (Linkname ti) 100 ++ GNU_MAGIC ++ stn (Uname ti) 32
                 ++ stn (Gname ti) 32 ++ dM ++ dm ++ stn [] 155 ++ zeros 12).
  { rewrite seal_block by done.
    assert (Htk : take 148 buf = A) by (unfold buf; by rewrite take_app_length').
    assert (Hdr : drop 156 buf = T).
    { unfold buf. rewrite app_assoc. apply drop_app_length'.
      rewrite length_app, LA, Lsp. lia. }
    rewrite Htk, Hdr. unfold A, T. by rewrite <- !app_assoc. }
  set (chk := checksum_text buf) in *.
  set (B := seal buf) in *.
  exists B. split; [done|]. split; [done|].
  assert (F0 : slice B 0 100 = stn w 100).
  { rewrite HB. apply slice_head; [done|by rewrite stn_length]. }
  assert (F1 : slice B 100 108 = p1).
  { rewrite HB. rewrite (slice_skip _ _ 100) by (rewrite ?stn_length; lia).
    apply slice_head; [done|by rewrite L1]. }
  assert (F2 : slice B 108 116 = p2).
  { rewrite HB. rewrite (slice_skip _ _ 100), (slice_skip _ _ 8) by (rewrite ?stn_length; lia).
    apply slice_head; [done|by rewrite L2]. }
  assert (F3 : slice B 116 124 = p3).
  { rewrite HB. rewrite (slice_skip _ _ 100), !(slice_skip _ _ 8) by (rewrite ?stn_length; lia).
    apply slice_head; [done|by rewrite L3]. }
  assert (F4 : slice B 124 136 = p4).
  { rewrite HB. rewrite (slice_skip _ _ 100), !(slice_skip _ _ 8) by (rewrite ?stn_length; lia).
    apply slice_head; [done|by rewrite L4]. }
  assert (F5 : slice B 136 148 = p5).
  { rewrite HB.
    rewrite (slice_skip _ _ 100), !(slice_skip _ _ 8), (slice_skip _ _ 12)
      by (rewrite ?stn_length; lia).
    apply slice_head; [done|by rewrite L5]. }
  assert (HT : forall lo hi, (156 <= lo)%nat -> slice B lo hi = slice T (lo - 156) (hi - 156)).
  { intros lo hi Hlo. rewrite HB. fold T.
    rewrite (slice_skip _ _ 100), !(slice_skip _ _ 8), !(slice_skip _ _ 12), (slice_skip _ _ 8)
      by (rewrite ?stn_length; lia).
    f_equal; lia. }
  assert (F7 : slice B 156 157 = Type_ ti).
  { rewrite HT by lia. unfold T. apply slice_head; [done|by rewrite Hty]. }
  assert (F8 : slice B 157 257 = stn (Linkname ti) 100).
  { rewrite HT by lia. unfold T. rewrite (slice_skip _ _ 1) by (rewrite ?stn_length; lia).
    apply slice_head; [done|by rewrite stn_length]. }
  assert (F10 : slice B 265 297 = stn (Uname ti) 32).
  { rewrite HT by lia. unfold T.
    rewrite (slice_skip _ _ 1), (slice_skip _ _ 100), (slice_skip _ _ 8)
      by (rewrite ?stn_length; lia).
    apply slice_head; [done|by rewrite stn_length]. }
  assert (F11 : slice B 297 329 = stn (Gname ti) 32).
  { rewrite HT by lia. unfold T.
    rewrite (slice_skip _ _ 1), (slice_skip _ _ 100), (slice_skip _ _ 8), (slice_skip _ _ 32)
      by (rewrite ?stn_length; lia).
    apply slice_head; [done|by rewrite stn_length]. }
  assert (F12 : slice B 329 337 = dM).
  { rewrite HT by lia. unfold T.
    rewrite (slice_skip _ _ 1), (slice_skip _ _ 100), (slice_skip _ _ 8), !(slice_skip _ _ 32)
      by (rewrite ?stn_length; lia).
    apply slice_head; [done|by rewrite LM]. }
  assert (F13 : slice B 337 345 = dm).
  { rewrite HT by lia. unfold T.
    rewrite (slice_skip _ _ 1), (slice_skip _ _ 100), (slice_skip _ _ 8), !(slice_skip _ _ 32),
      (slice_skip _ _ 8) by (rewrite ?stn_length; lia).
    apply slice_head; [done|by rewrite Lm]. }
  assert (F14 : slice B 345 500 = stn [] 155).
  { rewrite HT by lia. unfold T.
    rewrite (slice_skip _ _ 1), (slice_skip _ _ 100), (slice_skip _ _ 8), !(slice_skip _ _ 32),
      !(slice_skip _ _ 8) by (rewrite ?stn_length; lia).
    apply slice_head; [done|by rewrite stn_length]. }
  clearbody B. clear HB HT.
  rewrite (FromBuf_fields B w (Type_ ti) (Linkname ti) (Uname ti) (Gname ti) []
             (Z.land (Mode ti) 4095) (UID ti) (GID ti) (Size ti) (Mtime ti)
             (if has_device_fields ti then DevMajor ti else 0)
             (if has_device_fields ti then DevMinor ti else 0));
    [|done|done|done
     |by rewrite F0; apply nts_stn_fits
     |by rewrite F1|by rewrite F2|by rewrite F3|by rewrite F4|by rewrite F5
     |done
     |by rewrite F8; apply nts_stn_fits
     |by rewrite F10; apply nts_stn_fits
     |by rewrite F11; apply nts_stn_fits
     |by rewrite F12|by rewrite F13
     |by rewrite F14
     |done].
  cbv zeta.
  assert (Htyp : (if bool_decide (Type_ ti = AREGTYPE) && HasSuffix w (bs "/")
                  then DIRTYPE else Type_ ti) = Type_ ti).
  { destruct (decide (Type_ ti = AREGTYPE)) as [Ea|Ea]; [|by rewrite bool_decide_eq_false_2].
    rewrite Hw. unfold IsDir. rewrite (bool_decide_eq_false_2 (Type_ ti = DIRTYPE)).
    - by rewrite Hsl, andb_false_r.
    - by rewrite Ea. }
  rewrite Htyp. rewrite (bool_decide_eq_true_2 ([] = [])) by done. cbn [andb negb].
  f_equal. unfold kept. f_equal.
  rewrite Hw. unfold IsDir.
  destruct (decide (Type_ ti = DIRTYPE)) as [Ed|Ed].
  - rewrite (bool_decide_eq_true_2 (Type_ ti = DIRTYPE)) by done.
    by rewrite TrimSuffix_app.
  - by rewrite (bool_decide_eq_false_2 (Type_ ti = DIRTYPE)) by done.
Qed.

(** ** What decoding can answer *)

Lemma slice_nonempty (b : bytes) (lo hi : nat) :
  (lo < hi)%nat -> (hi <= length b)%nat -> slice b lo hi <> [].
Proof.
  intros H1 H2 E. apply (f_equal length) in E. rewrite slice_length in E by lia.
  cbn in E. lia.
Qed.

Lemma nti_cases (b : bytes) (lo hi : nat) :
  (lo < hi)%nat -> (hi <= length b)%nat ->
  (exists n, nti (slice b lo hi) = Ok n)
  \/ nti (slice b lo hi) = Err (InvalidHeaderError "invalid number field").
Proof.
  intros H1 H2. destruct (nti (slice b lo hi)) as [n|e|m] eqn:E.
  - left. by exists n.
  - right. by apply nti_err in E as ->.
  - exfalso. eapply nti_nonempty_not_panic; [|exact E]. by apply slice_nonempty.
Qed.

Lemma read_sparse_cases (k : nat) (b : bytes) (pos : nat) (st : list (Z * Z)) :
  (pos + 24 * k <= length b)%nat ->
  (exists l, read_sparse k b pos st = Ok l)
  \/ read_sparse k b pos st = Err (InvalidHeaderError "invalid number field").
Proof.
  revert pos st. induction k as [|k IH]; intros pos st Hl; cbn [read_sparse].
  - left. by eexists.
  - destruct (nti_cases b pos (pos + 12)) as [[o ->] | ->]; [lia|lia| |by right].
    destruct (nti_cases b (pos + 12) (pos + 24)) as [[n ->] | ->]; [lia|lia| |by right].
    unfold mbind, result_bind.
    destruct (_ && _); [left; by eexists|].
    apply IH. lia.
Qed.

(** X8.  [FromBuf] never panics, whatever bytes it is given: it answers
    with a record, which then comes from a block of 512 bytes whose
    checksum it carries, with offsets still zero and no PAX records, or
    with one of five header errors. *)
Theorem FromBuf_never_panics (buf : bytes) :
  match FromBuf buf with
  | Ok ti =>
      length buf = 512%nat /\ Chksum ti = calcChecksum buf
      /\ Offset ti = 0 /\ OffsetData ti = 0 /\ PaxHeaders ti = ∅
  | Err e => e ∈ header_errors
  | Panic _ => False
  end.
Proof.
  unfold FromBuf.
  destruct (Nat.eqb_spec (length buf) 0) as [|H0]; [set_solver|].
  destruct (Nat.eqb_spec (length buf) BLOCKSIZE) as [Hl|]; cbn [negb]; [|set_solver].
  destruct (Nat.eqb_spec (Count buf NUL) BLOCKSIZE) as [|Hc]; [set_solver|].
  unfold BLOCKSIZE in Hl. unfold mbind, result_bind.
  destruct (nti_cases buf 148 156) as [[chk ->] | ->]; [lia|lia| |set_solver].
  destruct (Z.eqb_spec chk (calcChecksum buf)) as [->|]; cbn [negb]; [|set_solver].
  destruct (nti_cases buf 100 108) as [[mode ->] | ->]; [lia|lia| |set_solver].
  destruct (nti_cases buf 108 116) as [[uid ->] | ->]; [lia|lia| |set_solver].
  destruct (nti_cases buf 116 124) as [[gid ->] | ->]; [lia|lia| |set_solver].
  destruct (nti_cases buf 124 136) as [[size ->] | ->]; [lia|lia| |set_solver].
  destruct (nti_cases buf 136 148) as [[mtime ->] | ->]; [lia|lia| |set_solver].
  destruct (nti_cases buf 329 337) as [[dM ->] | ->]; [lia|lia| |set_solver].
  destruct (nti_cases buf 337 345) as [[dm ->] | ->]; [lia|lia| |set_solver].
  cbv beta iota zeta.
  match goal with |- context [bool_decide (?t = GNUTYPE_SPARSE)] =>
    destruct (bool_decide (t = GNUTYPE_SPARSE)) end; [|done].
  destruct (read_sparse_cases 4 buf 386 []) as [[l ->] | ->]; [lia| |set_solver].
  destruct (nti_cases buf 483 495) as [[orig ->] | ->]; [lia|lia| |set_solver].
  by destruct (_ || _).
Qed.

(** ** What serializing can answer *)

Lemma createHeader_needs_mode (c : Z -> Z) (info : gmap string value) (fmt : Z) :
  info !! "mode" = None -> info !! "devmajor" = None ->
  exists m, createHeader c info fmt = Panic m.
Proof.
  intros Hm Hd. unfold createHeader. rewrite Hm, Hd.
  destruct (_ || _).
  - by eexists.
  - unfold mbind, result_bind. cbv beta iota.
    destruct (info !! "type") as [[t| |]|]; try by eexists.
    cbn [as_string].
    destruct (info !! "name") as [[n| |]|]; by eexists.
Qed.

Lemma createHeader_nil_mode (c : Z -> Z) (info : gmap string value) (fmt : Z) (t n : bytes) :
  info !! "type" = Some (VString t) -> t <> CHRTYPE -> t <> BLKTYPE ->
  info !! "name" = Some (VString n) -> info !! "mode" = None ->
  createHeader c info fmt = Panic "interface conversion: interface {} is nil, not int64".
Proof.
  intros Ht H1 H2 Hn Hm. unfold createHeader. rewrite Ht, Hn, Hm.
  rewrite !bool_decide_VString.
  rewrite (bool_decide_eq_false_2 (t = CHRTYPE)), (bool_decide_eq_false_2 (t = BLKTYPE)) by done.
  reflexivity.
Qed.

Lemma createGnuLongHeader_panics (c : Z -> Z) (name typ : bytes) :
  typ <> CHRTYPE -> typ <> BLKTYPE ->
  createGnuLongHeader c name typ
  = Panic "interface conversion: interface {} is nil, not int64".
Proof.
  intros H1 H2. unfold createGnuLongHeader.
  rewrite (createHeader_nil_mode c _ _ typ (bs "././@LongLink")); done.
Qed.

(** X9.  The builders of continuation headers never return: the map they
    hand to [createHeader] has no mode, so building a GNU long-name or
    long-link entry, a PAX extended header or a PAX global header panics
    on the type assertion, for every name, type tag and set of records. *)
Theorem continuation_headers_panic (c : Z -> Z)
    (rp : gmap string bytes -> list (string * bytes))
    (name typ : bytes) (headers : gmap string bytes) :
  (exists m, createGnuLongHeader c name typ = Panic m)
  /\ (exists m, createPaxGenericHeader c rp headers typ = Panic m)
  /\ createGnuLongHeader c name GNUTYPE_LONGNAME
     = Panic "interface conversion: interface {} is nil, not int64"
  /\ createGnuLongHeader c name GNUTYPE_LONGLINK
     = Panic "interface conversion: interface {} is nil, not int64"
  /\ CreatePaxGlobalHeader c rp headers
     = Panic "interface conversion: interface {} is nil, not int64".
Proof.
  split; [|split; [|split; [|split]]].
  - unfold createGnuLongHeader.
    edestruct (createHeader_needs_mode c) as [m ->]; [| |by eexists]; done.
  - unfold createPaxGenericHeader.
    edestruct (createHeader_needs_mode c) as [m ->]; [| |by eexists]; done.
  - by apply createGnuLongHeader_panics.
  - by apply createGnuLongHeader_panics.
  - unfold CreatePaxGlobalHeader, createPaxGenericHeader.
    rewrite (createHeader_nil_mode c _ _ XGLTYPE (bs "././@PaxHeader")); done.
Qed.

Lemma GetInfo_lookup (ti : TarInfo) :
  GetInfo ti !! "name" = Some (VString (wire_name ti))
  /\ GetInfo ti !! "linkname" = Some (VString (Linkname ti)).
Proof. split; reflexivity. Qed.

(** X10.  Under the GNU format a record whose name or link name is longer
    than 100 bytes cannot be serialized: [ToBuf] panics while it builds
    the long-name entry. *)
Theorem ToBuf_gnu_long_name_panics (c : Z -> Z) (rf : list (string * Z))
    (rp : gmap string bytes -> list (string * bytes)) (ti : TarInfo) :
  (LENGTH_NAME < length (wire_name ti))%nat \/ (LENGTH_LINK < length (Linkname ti))%nat ->
  ToBuf c rf rp ti GNU_FORMAT
  = Panic "interface conversion: interface {} is nil, not int64".
Proof.
  intros Hl. unfold ToBuf. change (GNU_FORMAT =? USTAR_FORMAT) with false.
  change (GNU_FORMAT =? GNU_FORMAT) with true. cbv iota.
  unfold createGnuHeader. destruct (GetInfo_lookup ti) as [Ln Ll].
  rewrite !lookup_insert_ne by done. rewrite Ln, Ll. cbn [as_string].
  unfold mbind, result_bind.
  destruct (Nat.ltb_spec LENGTH_LINK (length (Linkname ti))) as [H1|H1].
  - by rewrite createGnuLongHeader_panics.
  - destruct (Nat.ltb_spec LENGTH_NAME (length (wire_name ti))) as [H2|H2]; [|lia].
    by rewrite createGnuLongHeader_panics.
Qed.

(** X10, an instance: a name of 150 bytes. *)
Lemma ToBuf_gnu_long_name_panics_witness :
  ((LENGTH_NAME < length (wire_name long_file))%nat
   \/ (LENGTH_LINK < length (Linkname long_file))%nat)
  /\ ToBuf int64_of_big_amd64 pax_number_fields range_sorted long_file GNU_FORMAT
     = Panic "interface conversion: interface {} is nil, not int64".
Proof.
  assert (H1 : (LENGTH_NAME < length (wire_name long_file))%nat
               \/ (LENGTH_LINK < length (Linkname long_file))%nat).
  { left. vm_compute. lia. }
  split; [exact H1|].
  exact (ToBuf_gnu_long_name_panics int64_of_big_amd64 pax_number_fields range_sorted
           long_file H1).
Defined.





(** ** Payloads *)

(** X12.  [createPayload] appends fewer than 512 null bytes, so that the
    payload fills whole blocks; a payload that already does is returned
    as it is. *)
Theorem createPayload_pads_to_block (p : bytes) :
  exists k, createPayload p = p ++ zeros k
            /\ (k < BLOCKSIZE)%nat
            /\ (length (createPayload p) mod BLOCKSIZE = 0)%nat
            /\ createPayload (createPayload p) = createPayload p.
Proof.
  assert (Hk : exists k, createPayload p = p ++ zeros k /\ (k < BLOCKSIZE)%nat
                         /\ (length (createPayload p) mod BLOCKSIZE = 0)%nat).
  { unfold createPayload. cbv zeta. unfold BLOCKSIZE.
    pose proof (Nat.mod_upper_bound (length p) 512 ltac:(lia)) as Hm.
    pose proof (Nat.div_mod_eq (length p) 512) as Hd.
    destruct (Nat.ltb_spec 0 (length p mod 512)) as [H0|H0].
    - eexists. split; [done|]. split; [lia|].
      rewrite length_app. unfold zeros. rewrite length_replicate.
      replace (length p + (512 - length p mod 512))%nat
        with (512 * (length p / 512 + 1))%nat by lia.
      by rewrite Nat.mul_comm, Nat.Div0.mod_mul.
    - exists 0%nat. cbn [zeros replicate]. rewrite app_nil_r. split; [done|]. split; lia. }
  destruct Hk as (k & E & Hlt & Hmod). exists k. repeat split; try done.
  unfold createPayload at 1. cbv zeta. rewrite Hmod. done.
Qed.

(** ** Types *)

(** X13.  The type predicates partition the types: a record is at most
    one of regular file, directory, symbolic link, hard link, character
    device, block device and FIFO; [IsFile] is [IsReg], and [IsDev] holds
    exactly for the two devices and the FIFO. *)
Theorem type_predicates_exclusive (ti : TarInfo) :
  (length (filter (fun b : bool => b = true)
             [IsReg ti; IsDir ti; IsSym ti; IsLnk ti; IsChr ti; IsBlk ti; IsFifo ti]) <= 1)%nat
  /\ IsFile ti = IsReg ti
  /\ IsDev ti = IsChr ti || IsBlk ti || IsFifo ti.
Proof.
  split; [|done].
  unfold IsReg, IsDir, IsSym, IsLnk, IsChr, IsBlk, IsFifo, contains, REGULAR_TYPES.
  generalize (Type_ ti). intros t.
  destruct (decide (t = DIRTYPE)) as [->|H1]; [vm_compute; lia|].
  destruct (decide (t = SYMTYPE)) as [->|H2]; [vm_compute; lia|].
  destruct (decide (t = LNKTYPE)) as [->|H3]; [vm_compute; lia|].
  destruct (decide (t = CHRTYPE)) as [->|H4]; [vm_compute; lia|].
  destruct (decide (t = BLKTYPE)) as [->|H5]; [vm_compute; lia|].
  destruct (decide (t = FIFOTYPE)) as [->|H6]; [vm_compute; lia|].
  rewrite (bool_decide_eq_false_2 (t = DIRTYPE)), (bool_decide_eq_false_2 (t = SYMTYPE)),
    (bool_decide_eq_false_2 (t = LNKTYPE)), (bool_decide_eq_false_2 (t = CHRTYPE)),
    (bool_decide_eq_false_2 (t = BLKTYPE)), (bool_decide_eq_false_2 (t = FIFOTYPE)) by done.
  destruct (bool_decide _); vm_compute; lia.
Qed.

(** ** A block written under USTAR, read back *)





Lemma nti_NUL_first (r : bytes) : nti (NUL :: r) = Ok 0.
Proof. reflexivity. Qed.





(** ** The index of members *)

Section Index.
Context {S : Type} `{io.ReadWriteSeeker S}.

Lemma FromTarFile_spec (tf tf' : TarFile S) (r : result TarInfo) :
  FromTarFile tf = (tf', r) ->
  Members tf' = Members tf /\ IgnoreZeros tf' = IgnoreZeros tf /\ Stream tf' = Stream tf
  /\ FirstMember tf' = FirstMember tf /\ Loaded tf' = Loaded tf
  /\ match r with
     | Ok ti =>
         Offset ti = TarFile_Offset tf
         /\ OffsetData ti = wrap64 (TarFile_Offset tf + Z.of_nat BLOCKSIZE)
         /\ TarFile_Offset tf' = wrap64 (TarFile_Offset tf + Z.of_nat BLOCKSIZE)
     | _ => TarFile_Offset tf' = TarFile_Offset tf
     end.
Proof.
  unfold FromTarFile.
  destruct (io.Read (FileObj tf) BLOCKSIZE) as [f [data err]].
  destruct err as [e|].
  - destruct (_ && _); intros [= <- <-]; done.
  - destruct (negb _); [intros [= <- <-]; done|].
    destruct (FromBuf _); intros [= <- <-]; done.
Qed.

Lemma Next_loop_spec (fuel : nat) (tf tf' : TarFile S) (r : result (option TarInfo)) :
  Next_loop fuel tf = Some (tf', r) ->
  Members tf' = Members tf /\ IgnoreZeros tf' = IgnoreZeros tf /\ Stream tf' = Stream tf
  /\ FirstMember tf' = FirstMember tf /\ Loaded tf' = Loaded tf
  /\ match r with
     | Ok (Some ti) =>
         OffsetData ti = wrap64 (Offset ti + Z.of_nat BLOCKSIZE)
         /\ TarFile_Offset tf' = OffsetData ti
         /\ (IgnoreZeros tf = false -> Offset ti = TarFile_Offset tf)
     | _ => IgnoreZeros tf = false -> TarFile_Offset tf' = TarFile_Offset tf
     end.
Proof.
  revert tf. induction fuel as [|k IH]; intros tf; cbn [Next_loop]; [done|].
  destruct (FromTarFile tf) as [tf1 r1] eqn:E.
  apply FromTarFile_spec in E as (Hm & Hz & Hs & Hf & Hl & Ho).
  assert (Hskip : Next_loop k (skip_block tf1) = Some (tf', r) -> IgnoreZeros tf1 = true ->
    Members tf' = Members tf /\ IgnoreZeros tf' = IgnoreZeros tf /\ Stream tf' = Stream tf
    /\ FirstMember tf' = FirstMember tf /\ Loaded tf' = Loaded tf
    /\ match r with
       | Ok (Some ti) =>
           OffsetData ti = wrap64 (Offset ti + Z.of_nat BLOCKSIZE)
           /\ TarFile_Offset tf' = OffsetData ti
           /\ (IgnoreZeros tf = false -> Offset ti = TarFile_Offset tf)
       | _ => IgnoreZeros tf = false -> TarFile_Offset tf' = TarFile_Offset tf
       end).
  { intros Hn Hi. apply IH in Hn as (Hm' & Hz' & Hs' & Hf' & Hl' & Ho'). cbn in *.
    rewrite Hm', Hz', Hs', Hf', Hl'. repeat (split; [done|]).
    rewrite <- Hz, Hi. destruct r as [[ti|]| |]; [|done..].
    destruct Ho' as (? & ? & _). done. }
  destruct r1 as [ti|e|m].
  - intros [= <- <-]. destruct Ho as (Ho1 & Ho2 & Ho3).
    repeat (split; [done|]). rewrite Ho2, Ho3, Ho1. done.
  - destruct e; try (intros [= <- <-]; done).
    + destruct (_ =? _); intros [= <- <-]; done.
    + destruct (_ =? _); intros [= <- <-]; done.
    + destruct (IgnoreZeros tf1) eqn:Hi; [intros Hn; by apply Hskip|].
      intros [= <- <-]. repeat split; congruence.
    + destruct (IgnoreZeros tf1) eqn:Hi; [intros Hn; by apply Hskip|].
      destruct (_ =? _); intros [= <- <-]; repeat split; congruence.
  - intros [= <- <-]. done.
Qed.

Lemma Next_first (fuel : nat) (tf : TarFile S) (m : TarInfo) :
  FirstMember tf = Some m -> Next fuel tf = Some (set_FirstMember tf None, Ok (Some m)).
Proof. intros Hf. unfold Next. by rewrite Hf. Qed.

Lemma Next_spec (fuel : nat) (tf tf' : TarFile S) (r : result (option TarInfo)) :
  Next fuel tf = Some (tf', r) -> FirstMember tf = None ->
  IgnoreZeros tf' = IgnoreZeros tf /\ Stream tf' = Stream tf /\ FirstMember tf' = None
  /\ match r with
     | Ok (Some ti) =>
         Members tf' = (if Stream tf then Members tf else Members tf ++ [ti])
         /\ OffsetData ti = wrap64 (Offset ti + Z.of_nat BLOCKSIZE)
         /\ TarFile_Offset tf' = OffsetData ti
         /\ (IgnoreZeros tf = false -> Offset ti = TarFile_Offset tf)
     | _ =>
         Members tf' = Members tf
         /\ (IgnoreZeros tf = false -> TarFile_Offset tf' = TarFile_Offset tf)
     end.
Proof.
  intros Hn Hf. unfold Next in Hn. rewrite Hf in Hn.
  destruct (tell (FileObj tf)) as [f pos].
  set (tf0 := set_FileObj tf f) in *.
  assert (Hloop : forall g : S,
    match Next_loop fuel (set_FileObj tf0 g) with
    | Some (tf1, Ok tarinfo) => Some (Next_finish tf1 tarinfo)
    | Some (tf1, r1) => Some (tf1, r1)
    | None => None
    end = Some (tf', r) ->
    IgnoreZeros tf' = IgnoreZeros tf /\ Stream tf' = Stream tf /\ FirstMember tf' = None
    /\ match r with
       | Ok (Some ti) =>
           Members tf' = (if Stream tf then Members tf else Members tf ++ [ti])
           /\ OffsetData ti = wrap64 (Offset ti + Z.of_nat BLOCKSIZE)
           /\ TarFile_Offset tf' = OffsetData ti
           /\ (IgnoreZeros tf = false -> Offset ti = TarFile_Offset tf)
       | _ =>
           Members tf' = Members tf
           /\ (IgnoreZeros tf = false -> TarFile_Offset tf' = TarFile_Offset tf)
       end).
  { intros g Hg.
    destruct (Next_loop fuel (set_FileObj tf0 g)) as [[tf1 r1]|] eqn:E; [|done].
    apply Next_loop_spec in E as (Hm & Hz & Hs & Hf1 & Hl & Ho).
    subst tf0. cbn in Hm, Hz, Hs, Hf1, Ho.
    destruct r1 as [[ti|]|e|m].
    - unfold Next_finish in Hg. rewrite Hs in Hg.
      destruct Ho as (Ho1 & Ho2 & Ho3).
      destruct (Stream tf) eqn:Est; cbn [negb] in Hg; injection Hg as <- <-; cbn;
        repeat split; try congruence; auto.
    - injection Hg as <- <-. cbn. repeat split; try congruence; auto.
    - injection Hg as <- <-. repeat split; try congruence; auto.
    - injection Hg as <- <-. repeat split; try congruence; auto. }
  assert (Hsame : set_FileObj tf0 (FileObj tf0) = tf0) by (by destruct tf).
  destruct (negb (TarFile_Offset tf0 =? pos)).
  - destruct (TarFile_Offset tf0 =? 0).
    + injection Hn as <- <-. done.
    + destruct (io.Seek (FileObj tf0) _ io.SeekStart) as [g [p err]].
      destruct err as [e|]; [by injection Hn as <- <-|].
      destruct (io.Read _ 1) as [g' [d err]].
      destruct err as [e|]; [by injection Hn as <- <-|].
      by apply (Hloop g').
  - rewrite <- Hsame in Hn. by apply (Hloop (FileObj tf0)).
Qed.

(** X14.  A call of [Next] that reads from the stream (no member was read
    ahead) leaves the index as it is unless it returns a member; the member
    it returns is then the one it has put at the end of the index (outside
    stream mode), its data starts one block after its header, and the
    archive offset is left at the start of that data. *)
Theorem Next_appends_what_it_returns (fuel : nat) (tf tf' : TarFile S)
    (r : result (option TarInfo)) :
  Next fuel tf = Some (tf', r) -> FirstMember tf = None ->
  match r with
  | Ok (Some ti) =>
      Members tf' = (if Stream tf then Members tf else Members tf ++ [ti])
      /\ OffsetData ti = wrap64 (Offset ti + Z.of_nat BLOCKSIZE)
      /\ TarFile_Offset tf' = OffsetData ti
  | _ => Members tf' = Members tf
  end.
Proof.
  intros Hn Hf. apply Next_spec in Hn as (_ & _ & _ & Hr); [|done].
  destruct r as [[ti|]| |]; [|by destruct Hr..].
  by destruct Hr as (? & ? & ? & _).
Qed.

(** The invariant of a scan from [start] without IgnoreZeros. *)
Lemma block_offset_small (start : Z) (i : nat) :
  0 <= start -> start + 512 * Z.of_nat i < two63 ->
  block_offset start i = start + 512 * Z.of_nat i.
Proof.
  intros Hs. induction i as [|i IH]; intros Hb; cbn [block_offset]; [lia|].
  rewrite IH by lia. unfold BLOCKSIZE. rewrite wrap64_small; unfold two63 in *; lia.
Qed.

Lemma consecutive_snoc (start : Z) (ms : list TarInfo) (ti : TarInfo) :
  consecutive start ms ->
  Offset ti = block_offset start (length ms) ->
  OffsetData ti = block_offset start (Datatypes.S (length ms)) ->
  consecutive start (ms ++ [ti]).
Proof.
  intros Hc Ho Hd i x Hi.
  apply lookup_app_Some in Hi as [Hi | [Hl Hi]]; [by apply Hc|].
  destruct (i - length ms)%nat as [|j] eqn:Ej; [|done].
  injection Hi as <-. replace i with (length ms) by lia. done.
Qed.

Lemma Next_scan_invariant (start : Z) (fuel : nat) (tf tf' : TarFile S)
    (r : result (option TarInfo)) :
  Next fuel tf = Some (tf', r) ->
  IgnoreZeros tf = false -> Stream tf = false ->
  TarFile_Offset tf = block_offset start (length (Members tf)) ->
  consecutive start (Members tf) ->
  IgnoreZeros tf' = false /\ Stream tf' = false
  /\ TarFile_Offset tf' = block_offset start (length (Members tf'))
  /\ consecutive start (Members tf').
Proof.
  intros Hn Hz Hs Ho Hc.
  destruct (FirstMember tf) as [m|] eqn:Hf.
  - rewrite (Next_first _ _ m Hf) in Hn. injection Hn as <- <-. done.
  - apply Next_spec in Hn as (Hz' & Hs' & _ & Hr); [|done].
    rewrite Hz', Hs'. split; [done|]. split; [done|].
    destruct r as [[ti|]|e|m].
    + destruct Hr as (Hm & Hd & Ho' & Hoff). rewrite Hs in Hm. rewrite Hm.
      specialize (Hoff Hz).
      assert (Hd' : OffsetData ti = block_offset start (Datatypes.S (length (Members tf)))).
      { rewrite Hd, Hoff, Ho. done. }
      split.
      * rewrite length_app. cbn [length]. rewrite Nat.add_1_r. by rewrite Ho'.
      * apply consecutive_snoc; [done|by rewrite Hoff|done].
    + destruct Hr as [Hm Ho']. rewrite Hm, (Ho' Hz). done.
    + destruct Hr as [Hm Ho']. rewrite Hm, (Ho' Hz). done.
    + destruct Hr as [Hm Ho']. rewrite Hm, (Ho' Hz). done.
Qed.

Lemma load_loop_scan_invariant (start : Z) (rounds fuel : nat) (tf tf' : TarFile S)
    (r : result unit) :
  load_loop rounds fuel tf = Some (tf', r) ->
  IgnoreZeros tf = false -> Stream tf = false ->
  TarFile_Offset tf = block_offset start (length (Members tf)) ->
  consecutive start (Members tf) ->
  IgnoreZeros tf' = false /\ Stream tf' = false
  /\ TarFile_Offset tf' = block_offset start (length (Members tf'))
  /\ consecutive start (Members tf').
Proof.
  revert tf. induction rounds as [|k IH]; intros tf; cbn [load_loop]; [done|].
  destruct (Next fuel tf) as [[tf1 r1]|] eqn:E; [|done].
  intros Hl Hz Hs Ho Hc.
  destruct (Next_scan_invariant start _ _ _ _ E Hz Hs Ho Hc) as (Hz1 & Hs1 & Ho1 & Hc1).
  destruct r1 as [[ti|]|e|m].
  - by apply (IH tf1).
  - by injection Hl as <- <-.
  - by injection Hl as <- <-.
  - by injection Hl as <- <-.
Qed.

(** X15.  The reader moves from one header to the next by one block,
    whatever the size of the member: in the index of an archive opened for
    reading without IgnoreZeros at position [start], the member number [i]
    has its header at [start + 512 i] and its data at [start + 512 (i + 1)],
    where the next header is looked for. *)
Theorem scan_reads_consecutive_blocks (rounds fuel fuel' : nat) (f f' : S) (start : Z)
    (tf tf' : TarFile S) (ms : list TarInfo) :
  tell f = (f', start) -> 0 <= start ->
  NewTarFile_r fuel f false false = Some (Ok tf) ->
  GetMembers rounds fuel' tf = Some (tf', Ok ms) ->
  forall (i : nat) (ti : TarInfo),
    ms !! i = Some ti -> start + 512 * (Z.of_nat i + 1) < two63 ->
    Offset ti = start + 512 * Z.of_nat i
    /\ OffsetData ti = start + 512 * (Z.of_nat i + 1).
Proof.
  intros Ht Hs Hopen Hget.
  assert (Hinv : IgnoreZeros tf = false /\ Stream tf = false
                 /\ TarFile_Offset tf = block_offset start (length (Members tf))
                 /\ consecutive start (Members tf)).
  { unfold NewTarFile_r in Hopen. rewrite Ht in Hopen.
    destruct (Next fuel _) as [[tf1 r1]|] eqn:E; [|done].
    apply (Next_scan_invariant start) in E; [|done|done|done|done].
    destruct r1 as [first| |]; [|done..]. by injection Hopen as <-. }
  destruct Hinv as (Hz & Hst & Ho & Hc).
  assert (Hms : consecutive start ms).
  { unfold GetMembers in Hget. destruct (Loaded tf).
    - cbn in Hget. by injection Hget as <- <-.
    - cbn in Hget. unfold load in Hget. rewrite Hst in Hget. cbn in Hget.
      destruct (load_loop rounds fuel' tf) as [[tf1 r1]|] eqn:E; [|done].
      apply (load_loop_scan_invariant start) in E as (_ & _ & _ & Hc1); [|done..].
      destruct r1 as [u|e|m]; [|done..]. by injection Hget as <- <-. }
  intros i ti Hi Hb. destruct (Hms i ti Hi) as [H1 H2].
  rewrite H1, H2, !block_offset_small by lia. split; lia.
Qed.

End Index.

(** ** The ends of a scan *)

Section Ends.
Context {S : Type} `{io.ReadWriteSeeker S}.

Lemma set_FileObj_same (tf : TarFile S) : set_FileObj tf (FileObj tf) = tf.
Proof. by destruct tf. Qed.

Lemma FromTarFile_at_end (tf : TarFile S) :
  io.Read (FileObj tf) BLOCKSIZE = (FileObj tf, ([], Some io_EOF)) ->
  FromTarFile tf = (tf, Err (EOFHeaderError "end of file header")).
Proof. intros Hr. unfold FromTarFile. rewrite Hr. cbn. by rewrite set_FileObj_same. Qed.

Lemma Next_loop_at_end (fuel : nat) (tf : TarFile S) :
  IgnoreZeros tf = true ->
  io.Read (FileObj tf) BLOCKSIZE = (FileObj tf, ([], Some io_EOF)) ->
  Next_loop fuel tf = None.
Proof.
  revert tf. induction fuel as [|k IH]; intros tf Hz Hr; cbn [Next_loop]; [done|].
  rewrite FromTarFile_at_end by done. rewrite Hz. by apply IH.
Qed.

(** X16.  With IgnoreZeros set the scan has no end: once the stream is
    exhausted, every further block reads as an end-of-archive marker to
    skip, so [Next] goes round its loop for ever, whatever the number of
    rounds it is given, and so does [GetMembers] on an archive that is not
    loaded yet. *)
Theorem Next_never_returns_at_end (tf : TarFile S) (rounds fuel : nat) :
  FirstMember tf = None -> IgnoreZeros tf = true ->
  tell (FileObj tf) = (FileObj tf, TarFile_Offset tf) ->
  io.Read (FileObj tf) BLOCKSIZE = (FileObj tf, ([], Some io_EOF)) ->
  Next fuel tf = None
  /\ (Loaded tf = false -> Stream tf = false -> GetMembers rounds fuel tf = None).
Proof.
  intros Hf Hz Ht Hr.
  assert (Hn : forall k, Next k tf = None).
  { intros k. unfold Next. rewrite Hf, Ht, set_FileObj_same, Z.eqb_refl. cbn [negb].
    by rewrite Next_loop_at_end. }
  split; [done|]. intros Hl Hs. unfold GetMembers, load. rewrite Hl, Hs. cbn [negb].
  destruct rounds as [|k]; cbn [load_loop]; [done|]. by rewrite Hn.
Qed.

(** X17.  A stream that is at its end opens as an archive without
    members: reading it in mode "r" with IgnoreZeros off succeeds, nothing
    is read ahead, the archive is marked as loaded and [GetMembers] gives
    the empty list. *)
Theorem open_at_end_gives_empty_archive (f : S) (pos : Z) (stream : bool)
    (rounds fuel fuel' : nat) :
  tell f = (f, pos) ->
  io.Read f BLOCKSIZE = (f, ([], Some io_EOF)) ->
  exists tf, NewTarFile_r (Datatypes.S fuel) f false stream = Some (Ok tf)
             /\ Members tf = [] /\ Loaded tf = true /\ FirstMember tf = None
             /\ GetMembers rounds fuel' tf = Some (tf, Ok []).
Proof.
  intros Ht Hr. unfold NewTarFile_r. rewrite Ht.
  unfold Next. cbn [FirstMember FileObj]. rewrite Ht. cbn [set_FileObj TarFile_Offset].
  rewrite Z.eqb_refl. cbn [negb Next_loop].
  rewrite FromTarFile_at_end by done. cbn.
  eexists. split; [reflexivity|]. done.
Qed.

(** X18.  A stream at position 0 whose first block is not a header is
    refused: opening it in mode "r" with IgnoreZeros off fails with a
    ReadError that carries the message of the decoder, when the block
    fails its checks as well as when fewer than 512 bytes could be read. *)
Theorem open_refuses_bad_first_block (f f1 : S) (data : bytes) (msg : string)
    (stream : bool) (fuel : nat) :
  tell f = (f, 0) ->
  io.Read f BLOCKSIZE = (f1, (data, None)) ->
  (length data = BLOCKSIZE /\ FromBuf data = Err (InvalidHeaderError msg))
  \/ (length data <> BLOCKSIZE /\ msg = "truncated header") ->
  NewTarFile_r (Datatypes.S fuel) f false stream = Some (Err (ReadError msg)).
Proof.
  intros Ht Hr Hd. unfold NewTarFile_r. rewrite Ht.
  unfold Next. cbn [FirstMember FileObj]. rewrite Ht. cbn [set_FileObj TarFile_Offset].
  cbn [Z.eqb negb Next_loop]. unfold FromTarFile, set_FileObj.
  cbn [FileObj IgnoreZeros Stream TarFile_Mode Closed Members Loaded TarFile_Offset FirstMember].
  rewrite Hr.
  destruct Hd as [[Hl Hb] | [Hl ->]].
  - rewrite Hl, Nat.eqb_refl. cbn [negb].
    rewrite take_app_length' by done. rewrite Hb. reflexivity.
  - destruct (Nat.eqb_spec (length data) BLOCKSIZE) as [|_]; [done|]. reflexivity.
Qed.

End Ends.

(** ** Closing an archive *)

Lemma MemFile_append (file : io.MemFile) (p : bytes) :
  io.cursor file = Z.of_nat (length (io.content file)) ->
  io.Write file p
  = ({| io.content := io.content file ++ p;
        io.cursor := io.cursor file + Z.of_nat (length p) |}, (length p, None)).
Proof.
  intros Hc. unfold io.Write, io.MemFile_rws. rewrite Hc, Nat2Z.id, Nat.sub_diag.
  cbn [zeros replicate]. rewrite app_nil_r, take_ge, drop_ge by lia.
  by rewrite app_nil_r.
Qed.

Lemma zeros_app (a b : nat) : zeros a ++ zeros b = zeros (a + b).
Proof. unfold zeros. by rewrite replicate_add. Qed.

Lemma writing_set_Closed {S : Type} `{io.ReadWriteSeeker S} (tf : TarFile S) (b : bool) :
  writing (set_Closed tf b) = writing tf.
Proof. reflexivity. Qed.

(** X19.  Closing an archive that is open for writing, on a file whose
    end is the archive offset, appends null bytes only: at least the two
    blocks of the end-of-archive marker, and as many more as bring the
    file to a whole number of records of 10240 bytes.  The archive is then
    closed, its index is as before, and closing it again does nothing. *)
Theorem Close_pads_to_record (tf : TarFile io.MemFile) :
  Closed tf = false -> writing tf = true ->
  io.cursor (FileObj tf) = Z.of_nat (length (io.content (FileObj tf))) ->
  TarFile_Offset tf = io.cursor (FileObj tf) ->
  TarFile_Offset tf < 2 ^ 62 ->
  exists (k : nat) (tf' : TarFile io.MemFile),
    Close tf = (tf', None)
    /\ io.content (FileObj tf') = io.content (FileObj tf) ++ zeros k
    /\ (2 * BLOCKSIZE <= k < 2 * BLOCKSIZE + RECORDSIZE)%nat
    /\ (length (io.content (FileObj tf')) mod RECORDSIZE = 0)%nat
    /\ Closed tf' = true /\ Members tf' = Members tf
    /\ Close tf' = (tf', None).
Proof.
  intros Hcl Hw Hcur Hoff Hb.
  destruct tf as [iz st md file cl ms ld off fm]. cbn in Hcl, Hw, Hcur, Hoff, Hb. subst cl.
  unfold Close. cbn [Closed set_Closed IgnoreZeros Stream TarFile_Mode FileObj Members Loaded
                       TarFile_Offset FirstMember].
  rewrite writing_set_Closed, Hw. unfold set_Closed. cbn [FileObj].
  rewrite MemFile_append by done.
  unfold set_FileObj, set_Offset.
  cbn [Closed IgnoreZeros Stream TarFile_Mode FileObj Members Loaded TarFile_Offset FirstMember].
  set (L := length (io.content file)) in *.
  assert (Ho1 : wrap64 (off + Z.of_nat (BLOCKSIZE * 2)) = off + 1024).
  { rewrite wrap64_small; [done|]. unfold two63. change (Z.of_nat (BLOCKSIZE * 2)) with 1024. lia. }
  rewrite Ho1. unfold divmod. change (Z.of_nat RECORDSIZE) with 10240.
  rewrite Z.rem_mod_nonneg by lia.
  pose proof (Z.mod_pos_bound (off + 1024) 10240 ltac:(lia)) as Hm.
  pose proof (Z.div_mod (off + 1024) 10240 ltac:(lia)) as Hd.
  set (q := (off + 1024) / 10240) in *. set (r := (off + 1024) mod 10240) in *.
  assert (Hq : 0 <= q) by (apply Z.div_pos; lia).
  assert (Hmod : forall (n : nat) (k : Z), 0 <= k -> Z.of_nat n = 10240 * k ->
                                           (n mod RECORDSIZE = 0)%nat).
  { intros n k Hk Hn. replace n with (Z.to_nat k * RECORDSIZE)%nat.
    - apply Nat.Div0.mod_mul.
    - apply Nat2Z.inj. rewrite Nat2Z.inj_mul, Z2Nat.id by lia.
      change (Z.of_nat RECORDSIZE) with 10240. lia. }
  destruct (Z.ltb_spec 0 r) as [Hr|Hr].
  - rewrite MemFile_append
      by (cbn [io.content io.cursor]; rewrite length_app; unfold zeros;
          rewrite length_replicate; unfold BLOCKSIZE; lia).
    cbn [io.content io.cursor].
    exists (BLOCKSIZE * 2 + Z.to_nat (10240 - r))%nat. eexists. split; [reflexivity|].
    cbn [FileObj io.content Closed Members].
    split; [by rewrite <- app_assoc, zeros_app|].
    split; [unfold RECORDSIZE, BLOCKSIZE; lia|].
    split; [|done].
    apply (Hmod _ (q + 1)); [lia|]. rewrite !length_app. unfold zeros.
    rewrite !length_replicate. unfold BLOCKSIZE. fold L. lia.
  - exists (BLOCKSIZE * 2)%nat. eexists. split; [reflexivity|].
    cbn [FileObj io.content Closed Members].
    split; [done|]. split; [unfold RECORDSIZE, BLOCKSIZE; lia|].
    split; [|done].
    apply (Hmod _ q); [lia|]. rewrite !length_app. unfold zeros.
    rewrite !length_replicate. unfold BLOCKSIZE. fold L. lia.
Qed.

(** ** Adding a member *)

Section Adding.
Context {S : Type} `{io.ReadWriteSeeker S}.
Variable c : Z -> Z.
Variable rf : list (string * Z).
Variable rp : gmap string bytes -> list (string * bytes).
Variable R : Type.
Variable CopyN : S -> R -> Z -> S * option error.



(** X22.  When [AddFile] succeeds, the archive offset has moved on by
    whole blocks: one for the header and, when a reader was given, the
    least number of blocks that hold [Size] bytes. *)
Theorem AddFile_advances_by_whole_blocks (fmt : Z) (tf tf' : TarFile S) (ti : TarInfo)
    (fo : option R) :
  length (Type_ ti) = 1%nat ->
  0 <= TarFile_Offset tf < 2 ^ 61 -> 0 <= Size ti < 2 ^ 61 ->
  AddFile c rf rp R CopyN fmt tf ti fo = (tf', Ok tt) ->
  TarFile_Offset tf'
  = TarFile_Offset tf + 512
    + match fo with None => 0 | Some _ => 512 * ((Size ti + 511) / 512) end.
Proof.
  intros Hty Ho Hs. unfold AddFile. destruct (_ && _ && _); [done|].
  destruct (ToBuf c rf rp ti fmt) as [buf|e|m] eqn:Eb; [|done..].
  apply ToBuf_Ok_sealed in Eb as (b0 & Hl0 & ->); [|done].
  rewrite seal_length by done.
  destruct (io.Write (FileObj tf) (seal b0)) as [f [n err]].
  destruct err as [e|]; [done|].
  assert (H1 : wrap64 (TarFile_Offset tf + Z.of_nat 512) = TarFile_Offset tf + 512).
  { rewrite wrap64_small; unfold two63; lia. }
  destruct fo as [rd|].
  - destruct (CopyN _ rd (Size ti)) as [f' err].
    destruct err as [e|]; [done|].
    unfold divmod. change (Z.of_nat BLOCKSIZE) with 512.
    rewrite Z.quot_div_nonneg, Z.rem_mod_nonneg by lia.
    pose proof (Z.mod_pos_bound (Size ti) 512 ltac:(lia)) as Hm.
    pose proof (Z.div_mod (Size ti) 512 ltac:(lia)) as Hd.
    assert (Hq : 0 <= Size ti / 512 < 2 ^ 52).
    { split; [apply Z.div_pos; lia|]. apply Z.div_lt_upper_bound; [lia|].
      change (512 * 2 ^ 52) with (2 ^ 61). apply Hs. }
    destruct (Z.ltb_spec 0 (Size ti mod 512)) as [Hr|Hr].
    + destruct (io.Write _ _) as [f'' [n' err]].
      destruct err as [e|]; [done|]. intros [= <-]. cbn. rewrite H1.
      assert (Hc : (Size ti + 511) / 512 = Size ti / 512 + 1).
      { symmetry. apply Z.div_unique with (Size ti mod 512 - 1); lia. }
      rewrite Hc. set (q := Size ti / 512) in *.
      assert (H63 : two63 = 2 ^ 63) by reflexivity.
      assert (H61 : 2 ^ 61 = 2305843009213693952) by reflexivity.
      assert (H52 : 2 ^ 52 = 4503599627370496) by reflexivity.
      assert (H263 : 2 ^ 63 = 9223372036854775808) by reflexivity.
      rewrite (wrap64_small (q + 1)) by lia.
      rewrite (wrap64_small ((q + 1) * 512)) by lia.
      rewrite wrap64_small by lia. lia.
    + intros [= <-]. cbn. rewrite H1.
      assert (Hc : (Size ti + 511) / 512 = Size ti / 512).
      { symmetry. apply Z.div_unique with 511; lia. }
      rewrite Hc. set (q := Size ti / 512) in *.
      assert (H63 : two63 = 2 ^ 63) by reflexivity.
      assert (H61 : 2 ^ 61 = 2305843009213693952) by reflexivity.
      assert (H52 : 2 ^ 52 = 4503599627370496) by reflexivity.
      assert (H263 : 2 ^ 63 = 9223372036854775808) by reflexivity.
      rewrite (wrap64_small (q * 512)) by lia.
      rewrite wrap64_small by lia. lia.
  - intros [= <-]. cbn. rewrite H1. lia.
Qed.

End Adding.

(** ** Looking a member up *)

Lemma find_reverse_last {A : Type} (P : A -> bool) (l : list A) :
  match find P (reverse l) with
  | Some x =>
      exists i : nat, l !! i = Some x /\ P x = true
                      /\ forall (j : nat) (y : A), (i < j)%nat -> l !! j = Some y -> P y = false
  | None => forall (j : nat) (y : A), l !! j = Some y -> P y = false
  end.
Proof.
  induction l as [|y l IH] using rev_ind; [done|].
  rewrite reverse_snoc. cbn [find].
  destruct (P y) eqn:Ey.
  - exists (length l). split; [by rewrite lookup_app_r, Nat.sub_diag by lia|].
    split; [done|]. intros j z Hj Hz.
    apply lookup_lt_Some in Hz. rewrite length_app in Hz. cbn in Hz. lia.
  - destruct (find P (reverse l)) as [x|].
    + destruct IH as (i & Hi & Hx & Hlast). exists i.
      split; [by apply lookup_app_l_Some|]. split; [done|].
      intros j z Hj Hz. apply lookup_app_Some in Hz as [Hz | [Hl Hz]]; [by eapply Hlast|].
      destruct (j - length l)%nat; [|done]. by injection Hz as <-.
    + intros j z Hz. apply lookup_app_Some in Hz as [Hz | [Hl Hz]]; [by eapply IH|].
      destruct (j - length l)%nat; [|done]. by injection Hz as <-.
Qed.

(** X23.  [GetNames] lists the names of the index in its order, and
    [GetMember] answers with the last member of the index that carries the
    name asked for, a slash at the end of it left aside; it fails exactly
    when no member carries that name. *)
Theorem GetMember_finds_last {S : Type} `{io.ReadWriteSeeker S}
    (quote : bytes -> string) (rounds fuel : nat)
    (tf tf' : TarFile S) (ms : list TarInfo) (name : bytes) :
  GetMembers rounds fuel tf = Some (tf', Ok ms) ->
  GetNames rounds fuel tf = Some (tf', Ok (map Name ms))
  /\ match GetMember quote rounds fuel tf name with
     | Some (tf'', Ok ti) =>
         tf'' = tf'
         /\ Name ti = TrimSuffix name (bs "/")
         /\ exists i : nat,
              ms !! i = Some ti
              /\ forall (j : nat) (tj : TarInfo), (i < j)%nat -> ms !! j = Some tj ->
                                                  Name tj <> TrimSuffix name (bs "/")
     | Some (tf'', Err e) =>
         tf'' = tf'
         /\ (TrimSuffix name (bs "/") ∉ map Name ms)
         /\ e = ErrorString ("filename " +:+ quote name +:+ " not found")
     | _ => False
     end.
Proof.
  intros Hg. unfold GetNames, GetMember, getMember. rewrite Hg. split; [done|].
  unfold last_named.
  pose proof (find_reverse_last (fun m => bool_decide (TrimSuffix name (bs "/") = Name m)) ms)
    as Hf.
  destruct (find _ (reverse ms)) as [ti|].
  - destruct Hf as (i & Hi & Hx & Hlast). apply bool_decide_eq_true_1 in Hx.
    split; [done|]. split; [done|]. exists i. split; [done|].
    intros j tj Hj Htj E. specialize (Hlast j tj Hj Htj).
    apply bool_decide_eq_false_1 in Hlast. by apply Hlast.
  - split; [done|]. split; [|done].
    intros Hin. apply list_elem_of_fmap in Hin as (m & Hm & Hin).
    apply list_elem_of_lookup_1 in Hin as [j Hj].
    specialize (Hf j m Hj). apply bool_decide_eq_false_1 in Hf. by apply Hf.
Qed.

(** ** Instances *)

Lemma no_NUL_check (s : bytes) :
  forallb (fun b => negb (byte_eqb b NUL)) s = true -> NUL ∉ s.
Proof.
  induction s as [|a s IH]; cbn [forallb]; intros Hc; [apply not_elem_of_nil|].
  apply andb_prop in Hc as [Ha Hs]. apply not_elem_of_cons. split; [|by apply IH].
  intros <-. discriminate Ha.
Qed.

(** X7, an instance: the record of "hello.txt" under the GNU format. *)
Lemma header_round_trip_witness :
  length (Type_ hello_txt) = 1%nat /\ Type_ hello_txt <> GNUTYPE_SPARSE
  /\ HasSuffix (Name hello_txt) (bs "/") = false
  /\ text_fits (if IsDir hello_txt then 99 else 100) (Name hello_txt)
  /\ text_fits 100 (Linkname hello_txt) /\ text_fits 32 (Uname hello_txt)
  /\ text_fits 32 (Gname hello_txt)
  /\ storable GNU_FORMAT 8 (UID hello_txt) /\ storable GNU_FORMAT 8 (GID hello_txt)
  /\ storable GNU_FORMAT 12 (Size hello_txt) /\ storable GNU_FORMAT 12 (Mtime hello_txt)
  /\ (has_device_fields hello_txt = true ->
      storable GNU_FORMAT 8 (DevMajor hello_txt) /\ storable GNU_FORMAT 8 (DevMinor hello_txt))
  /\ exists b, createHeader int64_of_big_amd64 (complete_info hello_txt) GNU_FORMAT = Ok b
               /\ length b = 512%nat
               /\ FromBuf b = Ok (kept hello_txt (calcChecksum b)).
Proof.
  assert (H1 : length (Type_ hello_txt) = 1%nat) by reflexivity.
  assert (H2 : Type_ hello_txt <> GNUTYPE_SPARSE) by discriminate.
  assert (H3 : HasSuffix (Name hello_txt) (bs "/") = false) by reflexivity.
  assert (H4 : text_fits (if IsDir hello_txt then 99 else 100) (Name hello_txt)).
  { split; [by apply no_NUL_check|vm_compute; lia]. }
  assert (H5 : text_fits 100 (Linkname hello_txt)).
  { split; [by apply no_NUL_check|vm_compute; lia]. }
  assert (H6 : text_fits 32 (Uname hello_txt)).
  { split; [by apply no_NUL_check|vm_compute; lia]. }
  assert (H7 : text_fits 32 (Gname hello_txt)).
  { split; [by apply no_NUL_check|vm_compute; lia]. }
  assert (H8 : storable GNU_FORMAT 8 (UID hello_txt)).
  { left. vm_compute. split; [discriminate|reflexivity]. }
  assert (H9 : storable GNU_FORMAT 8 (GID hello_txt)).
  { left. vm_compute. split; [discriminate|reflexivity]. }
  assert (H10 : storable GNU_FORMAT 12 (Size hello_txt)).
  { left. vm_compute. split; [discriminate|reflexivity]. }
  assert (H11 : storable GNU_FORMAT 12 (Mtime hello_txt)).
  { left. vm_compute. split; [discriminate|reflexivity]. }
  assert (H12 : has_device_fields hello_txt = true ->
                storable GNU_FORMAT 8 (DevMajor hello_txt)
                /\ storable GNU_FORMAT 8 (DevMinor hello_txt)).
  { intros E. vm_compute in E. discriminate E. }
  exact (conj H1 (conj H2 (conj H3 (conj H4 (conj H5 (conj H6 (conj H7 (conj H8 (conj H9
          (conj H10 (conj H11 (conj H12
            (header_round_trip int64_of_big_amd64 GNU_FORMAT hello_txt
               H1 H2 H3 H4 H5 H6 H7 H8 H9 H10 H11 H12))))))))))))).
Defined.


(** X14, an instance: the first call of [Next] on the two headers. *)
Lemma Next_appends_what_it_returns_witness :
  FirstMember (reader_on two_header_file false) = None
  /\ exists tf' ti,
       Next 1 (reader_on two_header_file false) = Some (tf', Ok (Some ti))
       /\ Members tf' = (if Stream (reader_on two_header_file false)
                         then Members (reader_on two_header_file false)
                         else Members (reader_on two_header_file false) ++ [ti])
       /\ OffsetData ti = wrap64 (Offset ti + Z.of_nat BLOCKSIZE)
       /\ TarFile_Offset tf' = OffsetData ti.
Proof.
  assert (H1 : FirstMember (reader_on two_header_file false) = None) by reflexivity.
  split; [exact H1|].
  destruct (Next 1 (reader_on two_header_file false)) as [[tf' [[ti|]|e|m]]|] eqn:E.
  - exists tf', ti. split; [reflexivity|].
    exact (Next_appends_what_it_returns 1 _ tf' (Ok (Some ti)) E H1).
  - exfalso. vm_compute in E. discriminate E.
  - exfalso. vm_compute in E. discriminate E.
  - exfalso. vm_compute in E. discriminate E.
  - exfalso. vm_compute in E. discriminate E.
Defined.

(** X15, an instance: the two headers, found at offsets 0 and 512. *)
Lemma scan_reads_consecutive_blocks_witness :
  tell two_header_file = (two_header_file, 0) /\ 0 <= 0
  /\ NewTarFile_r 1 two_header_file false false = Some (Ok opened_two)
  /\ GetMembers 4 1 opened_two = Some (fst scanned_two, Ok (snd scanned_two))
  /\ map Name (snd scanned_two) = [bs "hello.txt"; bs "data"]
  /\ forall (i : nat) (ti : TarInfo),
       snd scanned_two !! i = Some ti -> 0 + 512 * (Z.of_nat i + 1) < two63 ->
       Offset ti = 0 + 512 * Z.of_nat i /\ OffsetData ti = 0 + 512 * (Z.of_nat i + 1).
Proof.
  assert (H1 : tell two_header_file = (two_header_file, 0)) by reflexivity.
  assert (H2 : 0 <= 0) by lia.
  assert (H3 : NewTarFile_r 1 two_header_file false false = Some (Ok opened_two))
    by (vm_compute; reflexivity).
  assert (H4 : GetMembers 4 1 opened_two = Some (fst scanned_two, Ok (snd scanned_two)))
    by (vm_compute; reflexivity).
  assert (H5 : map Name (snd scanned_two) = [bs "hello.txt"; bs "data"])
    by (vm_compute; reflexivity).
  exact (conj H1 (conj H2 (conj H3 (conj H4 (conj H5
          (scan_reads_consecutive_blocks 4 1 1 two_header_file two_header_file 0
             opened_two (fst scanned_two) (snd scanned_two) H1 H2 H3 H4)))))).
Defined.

(** X16, an instance: an empty file read with IgnoreZeros. *)
Lemma Next_never_returns_at_end_witness :
  FirstMember (reader_on empty_file true) = None
  /\ IgnoreZeros (reader_on empty_file true) = true
  /\ tell (FileObj (reader_on empty_file true))
     = (FileObj (reader_on empty_file true), TarFile_Offset (reader_on empty_file true))
  /\ io.Read (FileObj (reader_on empty_file true)) BLOCKSIZE
     = (FileObj (reader_on empty_file true), ([], Some io_EOF))
  /\ Next 1000 (reader_on empty_file true) = None
  /\ (Loaded (reader_on empty_file true) = false ->
      Stream (reader_on empty_file true) = false ->
      GetMembers 16 1000 (reader_on empty_file true) = None).
Proof.
  assert (H1 : FirstMember (reader_on empty_file true) = None) by reflexivity.
  assert (H2 : IgnoreZeros (reader_on empty_file true) = true) by reflexivity.
  assert (H3 : tell (FileObj (reader_on empty_file true))
               = (FileObj (reader_on empty_file true),
                  TarFile_Offset (reader_on empty_file true))) by reflexivity.
  assert (H4 : io.Read (FileObj (reader_on empty_file true)) BLOCKSIZE
               = (FileObj (reader_on empty_file true), ([], Some io_EOF))) by reflexivity.
  exact (conj H1 (conj H2 (conj H3 (conj H4
          (Next_never_returns_at_end (reader_on empty_file true) 16 1000 H1 H2 H3 H4))))).
Defined.

(** X17, an instance: an empty file. *)
Lemma open_at_end_gives_empty_archive_witness :
  tell empty_file = (empty_file, 0)
  /\ io.Read empty_file BLOCKSIZE = (empty_file, ([], Some io_EOF))
  /\ exists tf, NewTarFile_r 1 empty_file false false = Some (Ok tf)
                /\ Members tf = [] /\ Loaded tf = true /\ FirstMember tf = None
                /\ GetMembers 4 1 tf = Some (tf, Ok []).
Proof.
  assert (H1 : tell empty_file = (empty_file, 0)) by reflexivity.
  assert (H2 : io.Read empty_file BLOCKSIZE = (empty_file, ([], Some io_EOF)))
    by reflexivity.
  exact (conj H1 (conj H2
          (open_at_end_gives_empty_archive empty_file 0 false 4 0 1 H1 H2))).
Defined.

(** X18, an instance: a file of 17 bytes. *)
Lemma open_refuses_bad_first_block_witness :
  tell short_file = (short_file, 0)
  /\ io.Read short_file BLOCKSIZE
     = ({| io.content := bs "not a tar archive"; io.cursor := 17 |},
        (bs "not a tar archive", None))
  /\ ((length (bs "not a tar archive") = BLOCKSIZE
       /\ FromBuf (bs "not a tar archive") = Err (InvalidHeaderError "truncated header"))
      \/ (length (bs "not a tar archive") <> BLOCKSIZE
          /\ "truncated header"%string = "truncated header"%string))
  /\ NewTarFile_r 1 short_file false false = Some (Err (ReadError "truncated header")).
Proof.
  assert (H1 : tell short_file = (short_file, 0)) by reflexivity.
  assert (H2 : io.Read short_file BLOCKSIZE
               = ({| io.content := bs "not a tar archive"; io.cursor := 17 |},
                  (bs "not a tar archive", None))) by reflexivity.
  assert (H3 : (length (bs "not a tar archive") = BLOCKSIZE
                /\ FromBuf (bs "not a tar archive")
                   = Err (InvalidHeaderError "truncated header"))
               \/ (length (bs "not a tar archive") <> BLOCKSIZE
                   /\ "truncated header"%string = "truncated header"%string)).
  { right. split; [|reflexivity]. vm_compute. discriminate. }
  exact (conj H1 (conj H2 (conj H3
          (open_refuses_bad_first_block short_file _ _ _ false 0 H1 H2 H3)))).
Defined.

(** X19, an instance: an archive open for writing on an empty file. *)
Lemma Close_pads_to_record_witness :
  Closed writer = false /\ writing writer = true
  /\ io.cursor (FileObj writer) = Z.of_nat (length (io.content (FileObj writer)))
  /\ TarFile_Offset writer = io.cursor (FileObj writer)
  /\ TarFile_Offset writer < 2 ^ 62
  /\ exists (k : nat) (tf' : TarFile io.MemFile),
       Close writer = (tf', None)
       /\ io.content (FileObj tf') = io.content (FileObj writer) ++ zeros k
       /\ (2 * BLOCKSIZE <= k < 2 * BLOCKSIZE + RECORDSIZE)%nat
       /\ (length (io.content (FileObj tf')) mod RECORDSIZE = 0)%nat
       /\ Closed tf' = true /\ Members tf' = Members writer
       /\ Close tf' = (tf', None).
Proof.
  assert (H1 : Closed writer = false) by reflexivity.
  assert (H2 : writing writer = true) by reflexivity.
  assert (H3 : io.cursor (FileObj writer)
               = Z.of_nat (length (io.content (FileObj writer)))) by reflexivity.
  assert (H4 : TarFile_Offset writer = io.cursor (FileObj writer)) by reflexivity.
  assert (H5 : TarFile_Offset writer < 2 ^ 62) by reflexivity.
  exact (conj H1 (conj H2 (conj H3 (conj H4 (conj H5
          (Close_pads_to_record writer H1 H2 H3 H4 H5)))))).
Defined.



(** X22, an instance: the same record, added without a reader. *)
Lemma AddFile_advances_by_whole_blocks_witness :
  length (Type_ ustar_long) = 1%nat
  /\ 0 <= TarFile_Offset writer < 2 ^ 61 /\ 0 <= Size ustar_long < 2 ^ 61
  /\ AddFile int64_of_big_amd64 pax_number_fields range_sorted bytes copy_bytes
             USTAR_FORMAT writer ustar_long None = (fst added, Ok tt)
  /\ TarFile_Offset (fst added) = TarFile_Offset writer + 512 + 0.
Proof.
  assert (H1 : length (Type_ ustar_long) = 1%nat) by reflexivity.
  assert (H2 : 0 <= TarFile_Offset writer < 2 ^ 61)
    by (vm_compute; split; [discriminate|reflexivity]).
  assert (H3 : 0 <= Size ustar_long < 2 ^ 61)
    by (vm_compute; split; [discriminate|reflexivity]).
  assert (H4 : AddFile int64_of_big_amd64 pax_number_fields range_sorted bytes copy_bytes
                 USTAR_FORMAT writer ustar_long None = (fst added, Ok tt))
    by (vm_compute; reflexivity).
  exact (conj H1 (conj H2 (conj H3 (conj H4
          (AddFile_advances_by_whole_blocks int64_of_big_amd64 pax_number_fields range_sorted
             bytes copy_bytes USTAR_FORMAT writer (fst added) ustar_long None
             H1 H2 H3 H4))))).
Defined.

(** X23, an instance: an index that holds "hello.txt" twice, asked for "hello.txt/". *)
Lemma GetMember_finds_last_witness :
  GetMembers 1 1 indexed = Some (indexed, Ok (Members indexed))
  /\ GetNames 1 1 indexed = Some (indexed, Ok (map Name (Members indexed)))
  /\ match GetMember quote_plain 1 1 indexed (bs "hello.txt/") with
     | Some (tf'', Ok ti) =>
         tf'' = indexed
         /\ Name ti = TrimSuffix (bs "hello.txt/") (bs "/")
         /\ exists i : nat,
              Members indexed !! i = Some ti
              /\ forall (j : nat) (tj : TarInfo), (i < j)%nat ->
                   Members indexed !! j = Some tj ->
                   Name tj <> TrimSuffix (bs "hello.txt/") (bs "/")
     | Some (tf'', Err e) =>
         tf'' = indexed
         /\ (TrimSuffix (bs "hello.txt/") (bs "/") ∉ map Name (Members indexed))
         /\ e = ErrorString ("filename " +:+ quote_plain (bs "hello.txt/") +:+ " not found")
     | _ => False
     end.
Proof.
  assert (H1 : GetMembers 1 1 indexed = Some (indexed, Ok (Members indexed)))
    by reflexivity.
  exact (conj H1
          (GetMember_finds_last quote_plain 1 1 indexed indexed (Members indexed)
             (bs "hello.txt/") H1)).
Defined.
